(** * amt: catalog entities, reconciliation, migration, persistence

    A shallow embedding of the state-handling core of the [amt] media
    reader ([amt/state.py], [amt/media_reader.py]) together with the
    properties its specification states about it.

    Conventions of the embedding:
    - a Python [dict] used as a map is a [gmap]; iterating over a dict
      enumerates [map_to_list], and the general statements below hold for
      any order; where a property is evaluated on a concrete catalog, its
      keys are taken to have been inserted in that order;
    - chapter numbers and progress counters are Python numbers; they are
      modelled as exact rationals ([Qc]), so fractional numbering such as
      [10.5] is representable and [int(...)] is truncation towards zero;
    - a method that mutates its receiver is a function returning the new
      receiver; a method that can raise returns, next to the state it
      leaves behind, a [result];
    - the network side of a provider ([Server.update_media_data],
      [Server.search]) and the interactive prompt ([select_media]) are
      parameters of the model. *)

From Stdlib Require Import QArith Qcanon.
From stdpp Require Import gmap strings list fin_maps sorting numbers.

Close Scope Qc_scope.
Close Scope Q_scope.

(* ================================================================== *)
(** * Python runtime: exceptions and results                           *)
(* ================================================================== *)

Inductive PyError :=
| ValueError
| TypeError
| KeyError
| AttributeError
| AssertionError
| UnboundLocalError
| FileNotFoundError
| JSONDecodeError
| FetchError (msg : string).

Inductive result (A : Type) :=
| Ok (a : A)
| Raise (e : PyError).
Arguments Ok {A} a.
Arguments Raise {A} e.

(** [max(iterable, key=key)]: the first element whose key is maximal; the
    running maximum is replaced only by a strictly greater key. *)
Fixpoint max_from {A} (key : A → Qc) (cur : A) (l : list A) : A :=
  match l with
  | [] => cur
  | x :: l' => max_from key (if bool_decide (key cur < key x)%Qc then x else cur) l'
  end.

(** [max(iterable, key=key)] without [default] raises [ValueError] on an
    empty iterable; with [default=d] it returns [d]. *)
Definition py_max {A} (key : A → Qc) (l : list A) (default : option A) : result A :=
  match l with
  | x :: l' => Ok (max_from key x l')
  | [] => match default with Some d => Ok d | None => Raise ValueError end
  end.

(** [sorted(iterable, key=key)]: a stable ascending sort. *)
Fixpoint insert_by {A} (key : A → Qc) (x : A) (l : list A) : list A :=
  match l with
  | [] => [x]
  | y :: l' => if bool_decide (key x ≤ key y)%Qc then x :: y :: l'
               else y :: insert_by key x l'
  end.

Fixpoint sorted {A} (key : A → Qc) (l : list A) : list A :=
  match l with
  | [] => []
  | x :: l' => insert_by key x (sorted key l')
  end.

(** The order in which [sorted] leaves two adjacent elements. *)
Definition key_le {A} (key : A → Qc) (a b : A) : Prop := (key a ≤ key b)%Qc.

(** [int(x)] on a number: truncation towards zero. *)
Definition py_int (x : Qc) : Z := Z.quot (Qnum (this x)) (Zpos (Qden (this x))).

Definition of_Z (z : Z) : Qc := Q2Qc (inject_Z z).

(* ================================================================== *)
(** * Catalog entity model ([amt/state.py])                            *)
(* ================================================================== *)

(** [ChapterData]: one chapter or episode of a media. *)
Module ChapterData.

Record t := mk {
  id : string;
  number : Qc;
  title : string;
  read : bool;
  premium : bool;
  special : bool;
  date : option string;
}.

#[global] Instance eq_dec : EqDecision t.
Proof. solve_decision. Defined.

(** [chapter["read"] = b] *)
Definition set_read (b : bool) (c : t) : t :=
  mk (id c) (number c) (title c) b (premium c) (special c) (date c).

End ChapterData.

Abbreviation Chapters := (gmap string ChapterData.t).

(** [dict.values()] *)
Definition values {V} (d : gmap string V) : list V := (map_to_list d).*2.

(** [MediaData]: a tracked media. The class derives from [dict]; [chapters]
    is an instance attribute set by [__init__], which also removes the key
    ["chapters"] from the backing dict.  [__getitem__] is overridden so that
    reading [self["chapters"]] yields the attribute.  [__setitem__] is the
    one of [dict]: an assignment [self["chapters"] = v] stores [v] under the
    key ["chapters"] of the dict itself, which is the field [item_chapters]
    here ([None] while the dict has no such key). *)
Module MediaData.

Record t := mk {
  server_id : string;
  id : string;
  season_id : option string;
  lang : string;
  name : string;
  season_title : string;
  media_type : N;
  offset : Qc;
  progress : Qc;
  progressVolumes : option Qc;
  trackers : gmap string (Z * option string);
  chapters : Chapters;
  item_chapters : option Chapters;
}.

#[global] Instance eq_dec : EqDecision t.
Proof. solve_decision. Defined.

(** In-place replacement of the content of the [chapters] attribute. *)
Definition with_chapters (cs : Chapters) (m : t) : t :=
  mk (server_id m) (id m) (season_id m) (lang m) (name m) (season_title m)
     (media_type m) (offset m) (progress m) (progressVolumes m) (trackers m)
     cs (item_chapters m).

(** [self["chapters"] = cs], through [dict.__setitem__]. *)
Definition setitem_chapters (cs : Chapters) (m : t) : t :=
  mk (server_id m) (id m) (season_id m) (lang m) (name m) (season_title m)
     (media_type m) (offset m) (progress m) (progressVolumes m) (trackers m)
     (chapters m) (Some cs).

(** [self["progress"] = p] *)
Definition set_progress (p : Qc) (m : t) : t :=
  mk (server_id m) (id m) (season_id m) (lang m) (name m) (season_title m)
     (media_type m) (offset m) p (progressVolumes m) (trackers m)
     (chapters m) (item_chapters m).

(** [MediaData(backing_map)]: a ["chapters"] entry of the map becomes the
    attribute and is removed from the dict. *)
Definition init (backing_map : t) : t :=
  mk (server_id backing_map) (id backing_map) (season_id backing_map)
     (lang backing_map) (name backing_map) (season_title backing_map)
     (media_type backing_map) (offset backing_map) (progress backing_map)
     (progressVolumes backing_map) (trackers backing_map)
     (default ∅ (item_chapters backing_map)) None.

(** The dict part of the object, which is all [json.dumps] sees of it. *)
Definition dict_part (m : t) : t := with_chapters ∅ m.

(** [self["chapters"]], through the overridden [__getitem__]. *)
Definition getitem_chapters (m : t) : Chapters := chapters m.

Definition get_sorted_chapters (m : t) : list ChapterData.t :=
  sorted ChapterData.number (values (getitem_chapters m)).

Definition global_id (m : t) : string :=
  server_id m +:+ ":" +:+ id m +:+ default "" (season_id m)
    +:+ String.substring 0 3 (lang m).

(** The fields written by user actions, as one tuple. *)
Definition user_fields (m : t)
  : Qc * Qc * option Qc * gmap string (Z * option string) :=
  (offset m, progress m, progressVolumes m, trackers m).

(** [copy_fields_to(dest)].  [dest] is whatever the caller obtained from
    [search_add], which is [None] when nothing was found; [key in None]
    raises [TypeError].  A [MediaData] built by a provider has the four
    keys, so the assertions pass on it. *)
Definition copy_fields_to (self : t) (dest : option t) : result t :=
  match dest with
  | None => Raise TypeError
  | Some d =>
      Ok (mk (server_id d) (id d) (season_id d) (lang d) (name d)
             (season_title d) (media_type d)
             (offset self) (progress self) (progressVolumes self)
             (trackers self) (chapters d) (item_chapters d))
  end.

Definition get_last_chapter_number (m : t) : result Qc :=
  if bool_decide (getitem_chapters m = ∅) then Ok 0%Qc
  else match py_max ChapterData.number (values (getitem_chapters m)) None with
       | Ok c => Ok (ChapterData.number c)
       | Raise e => Raise e
       end.

(** The dict [{"number": 0}] given as [default] to [max] in
    [get_last_read]; only its ["number"] is ever read. *)
Definition default_number_0 : ChapterData.t :=
  ChapterData.mk "" 0%Qc "" false false false None.

Definition get_last_read (m : t) : result Qc :=
  match py_max ChapterData.number
          (filter (λ c, ChapterData.read c = true) (values (getitem_chapters m)))
          (Some default_number_0) with
  | Ok c => Ok (ChapterData.number c)
  | Raise e => Raise e
  end.

End MediaData.

(* ================================================================== *)
(** * Providers and trackers (collaborators)                           *)
(* ================================================================== *)

(** What a call of [Server.update_media_data(media_data)] leaves behind.
    A provider populates [media_data["chapters"]] through
    [update_chapter_data] and may raise at any point, also after having
    written some chapters. *)
Inductive FetchOutcome :=
| Fetched (cs : Chapters)
| FetchFailed (cs : Chapters) (e : PyError).

(** A provider.  [download_chapter(media_data, chapter_data, page_limit)]
    fetches the pages of a chapter to the disk, which is outside the
    catalog; it returns whether it downloaded anything, or raises. *)
Record Server := {
  srv_id : string;
  srv_media_type : N;
  sync_removed : bool;
  search : string → list MediaData.t;
  update_media_data : MediaData.t → FetchOutcome;
  download_chapter : MediaData.t → ChapterData.t → option nat → result bool;
}.

(** One staged tracker update: [(tracking id, progress, progressVolumes)]. *)
Definition TrackerUpdate : Type := Z * Qc * option Qc.

Record Tracker := {
  trk_id : string;
  trk_update : list TrackerUpdate → result unit;
}.

(* ================================================================== *)
(** * The media reader ([amt/media_reader.py])                         *)
(* ================================================================== *)

Module MediaReader.

(** The reader: [settings.free_only], the loaded providers, the catalog
    [self.media] (global id ↦ media), the primary tracker, and the
    interactive [select_media(term, results, prompt)] of the front end,
    which returns one of [results] or [None].

    The catalog is the store of the [MediaData] objects it holds: a
    reference that [migrate] keeps to an object it has added is the key
    under which [add_media] stored it. *)
Record t := mk {
  free_only : bool;
  _servers : gmap string Server;
  media : gmap string MediaData.t;
  primary_tracker : Tracker;
  select_media : string → list MediaData.t → option MediaData.t;
}.

Definition with_media (md : gmap string MediaData.t) (r : t) : t :=
  mk (free_only r) (_servers r) md (primary_tracker r) (select_media r).

(** Methods of the reader: state passing with exceptions; the state a
    raising method leaves behind is kept. *)
Definition M (A : Type) : Type := t → t * result A.

Definition ret {A} (a : A) : M A := λ r, (r, Ok a).
Definition raise {A} (e : PyError) : M A := λ r, (r, Raise e).
Definition bind {A B} (m : M A) (f : A → M B) : M B :=
  λ r, match m r with
       | (r', Ok a) => f a r'
       | (r', Raise e) => (r', Raise e)
       end.
Definition lift {A} (x : result A) : M A := λ r, (r, x).
Definition get : M t := λ r, (r, Ok r).
Definition modify_media (f : gmap string MediaData.t → gmap string MediaData.t) : M unit :=
  λ r, (with_media (f (media r)) r, Ok tt).

Notation "'let!' x := m 'in' k" := (bind m (λ x, k))
  (at level 10, x name, m at level 100, k at level 200, only parsing).

Definition get_server (r : t) (id : string) : option Server := _servers r !! id.

(** The filters of [get_media]: [name], when given, is the server id, the
    name or the global id of the media; [media_type], when given and not
    zero, shares a bit with the media's type. *)
Definition name_selects (name : option string) (media_data : MediaData.t) : bool :=
  match name with
  | None => true
  | Some n =>
      bool_decide (n = MediaData.server_id media_data)
      || bool_decide (n = MediaData.name media_data)
      || bool_decide (n = MediaData.global_id media_data)
  end.

Definition type_selects (media_type : option N) (media_data : MediaData.t) : bool :=
  match media_type with
  | None => true
  | Some mt =>
      bool_decide (mt = 0%N)
      || negb (bool_decide (N.land (MediaData.media_type media_data) mt = 0%N))
  end.

(** [get_media(media_type, name)] for [name] a string or [None]: the
    catalog entries that pass both filters, each with its key. *)
Definition get_media (r : t) (media_type : option N) (name : option string)
  : list (string * MediaData.t) :=
  filter (λ km, name_selects name km.2 && type_selects media_type km.2)
         (map_to_list (media r)).

(** ** Reconciliation *)

Definition get_chapter_ids (free_only : bool) (chapters : Chapters) : gset string :=
  if free_only
  then dom (filter (λ kc, ChapterData.premium kc.2 = false) chapters)
  else dom chapters.

(** The loop that carries [read] over from the snapshot:
    [for chapter in chapters: if chapter in media_data["chapters"]: ...] *)
Definition restore_read (snapshot current : Chapters) : Chapters :=
  map_fold (λ k old acc, alter (ChapterData.set_read (ChapterData.read old)) k acc)
           current snapshot.

(** [[media_data["chapters"][x] for x in new_chapter_ids]] *)
Fixpoint lookup_all (chapters : Chapters) (ids : list string)
  : result (list ChapterData.t) :=
  match ids with
  | [] => Ok []
  | x :: ids' =>
      match chapters !! x with
      | None => Raise KeyError
      | Some c =>
          match lookup_all chapters ids' with
          | Ok cs => Ok (c :: cs)
          | Raise e => Raise e
          end
      end
  end.

(** [new_chapters[:limit]] *)
Definition slice_to {A} (limit : option nat) (l : list A) : list A :=
  match limit with None => l | Some n => take n l end.

Record UpdateOutcome := mkUpdate {
  upd_media : MediaData.t;
  upd_result : result (list ChapterData.t);
  upd_downloaded : list ChapterData.t;
}.

(** The download loop of [update_media]:
    [for chapter_data in new_chapters[:limit]:
         server.download_chapter(media_data, chapter_data, page_limit)].
    It gives the chapters handed to the provider, the last of which is the
    one whose download raised, if any, and the exception. *)
Fixpoint download_each (server : Server) (media_data : MediaData.t)
    (page_limit : option nat) (todo : list ChapterData.t)
  : list ChapterData.t * result unit :=
  match todo with
  | [] => ([], Ok tt)
  | chapter_data :: rest =>
      match download_chapter server media_data chapter_data page_limit with
      | Raise e => ([chapter_data], Raise e)
      | Ok _ =>
          let '(handed, res) := download_each server media_data page_limit rest in
          (chapter_data :: handed, res)
      end
  end.

(** [update_media(media_data, download, media_type_to_download, limit,
    page_limit, replace)] on the providers and the setting of a reader.
    The outcome holds the object as the call leaves it, the value returned
    or the exception raised, and the chapters handed to
    [download_chapter]. *)
Definition update_media (free_only : bool) (servers : gmap string Server)
    (media_data : MediaData.t) (download : bool)
    (media_type_to_download : option N) (limit : option nat)
    (page_limit : option nat) (replace : bool) : UpdateOutcome :=
  match servers !! MediaData.server_id media_data with
  | None => mkUpdate media_data (Raise AttributeError) []
  | Some server =>
      let replace := if sync_removed server then true else replace in
      let chapter_ids := get_chapter_ids free_only (MediaData.getitem_chapters media_data) in
      let chapters := MediaData.getitem_chapters media_data in
      let media_data :=
        if replace then MediaData.with_chapters ∅ media_data else media_data in
      match update_media_data server media_data with
      | FetchFailed cs e =>
          let media_data := MediaData.with_chapters cs media_data in
          let media_data :=
            if replace then MediaData.setitem_chapters chapters media_data
            else media_data in
          mkUpdate media_data (Raise e) []
      | Fetched cs =>
          let media_data := MediaData.with_chapters cs media_data in
          let current_chapter_ids :=
            get_chapter_ids free_only (MediaData.getitem_chapters media_data) in
          let new_chapter_ids := current_chapter_ids ∖ chapter_ids in
          let media_data :=
            if replace
            then MediaData.with_chapters
                   (restore_read chapters (MediaData.getitem_chapters media_data))
                   media_data
            else media_data in
          match lookup_all (MediaData.getitem_chapters media_data)
                           (elements new_chapter_ids) with
          | Raise e => mkUpdate media_data (Raise e) []
          | Ok cs' =>
              let new_chapters := sorted ChapterData.number cs' in
              if bool_decide (size new_chapter_ids = length new_chapters)
              then
                let wanted :=
                  match media_type_to_download with
                  | None => true
                  | Some mt =>
                      bool_decide (N.land mt (MediaData.media_type media_data) ≠ 0%N)
                  end in
                if download && wanted
                then
                  let '(handed, res) :=
                    download_each server media_data page_limit
                                  (slice_to limit new_chapters) in
                  mkUpdate media_data
                    (match res with Ok _ => Ok new_chapters | Raise e => Raise e end)
                    handed
                else mkUpdate media_data (Ok new_chapters) []
              else mkUpdate media_data (Raise AssertionError) []
          end
      end
  end.

(** [self.update_media(media_data)] with the default arguments, on the
    object stored under [key]. *)
Definition update_media_at (key : string) : M (list ChapterData.t) :=
  λ r, match media r !! key with
       | None => (r, Raise KeyError)
       | Some media_data =>
           let o := update_media (free_only r) (_servers r) media_data
                      false None None None false in
           (with_media (<[key := upd_media o]> (media r)) r, upd_result o)
       end.

(** ** Marking chapters read *)

Definition mark_chapter (N : Qc) (force : bool) (chapter : ChapterData.t)
  : ChapterData.t :=
  if bool_decide (ChapterData.number chapter ≤ N)%Qc
  then ChapterData.set_read true chapter
  else if force then ChapterData.set_read false chapter else chapter.

Definition mark_chapters_until_n_as_read (media_data : MediaData.t) (N : Qc)
    (force : bool) : MediaData.t :=
  MediaData.with_chapters
    (mark_chapter N force <$> MediaData.getitem_chapters media_data) media_data.

(** ** Adding, removing and searching *)

(** [add_media(media_data)] with [no_update=False]: the object is stored
    under its global id and then reconciled in place. *)
Definition add_media (media_data : MediaData.t) (no_update : bool)
  : M (list ChapterData.t) :=
  let global_id := MediaData.global_id media_data in
  let! r := get in
  if bool_decide (global_id ∈ dom (media r)) then raise ValueError
  else
    let! _ := modify_media (<[global_id := media_data]>) in
    if no_update then ret [] else update_media_at global_id.

(** [remove_media(media_data)]: [del self.media[media_data.global_id]]. *)
Definition remove_media (media_data : MediaData.t) : M unit :=
  let! r := get in
  if bool_decide (MediaData.global_id media_data ∈ dom (media r))
  then modify_media (delete (MediaData.global_id media_data))
  else raise KeyError.

(** Truth value of an optional string argument ([None] and [""] are false). *)
Definition given (s : option string) : option string :=
  match s with
  | Some x => if bool_decide (x = "") then None else Some x
  | None => None
  end.

(** [search_for_media(term, server_id, media_type, exact,
    servers_to_exclude)], with [limit=None].  Without a [server_id] the
    search runs on every eligible provider through the job runner, which
    is missing from the sources: its result is taken to be the
    concatenation, in input order, of the lists the providers return. *)
Definition search_for_media (r : t) (term : string) (server_id : option string)
    (media_type : option N) (exact : bool) (servers_to_exclude : list string)
  : result (list MediaData.t) :=
  let found :=
    match given server_id with
    | Some sid =>
        match get_server r sid with
        | Some server => Ok (search server term)
        | None => Raise AttributeError
        end
    | None =>
        Ok (concat ((λ x, search x term) <$>
              filter (λ x : Server,
                        bool_decide (srv_id x ∉ servers_to_exclude) &&
                        match media_type with
                        | None => true
                        | Some mt => negb (bool_decide (N.land mt (srv_media_type x) = 0%N))
                        end)
                     (values (_servers r))))
    end in
  match found with
  | Ok results =>
      Ok (if exact then filter (λ x, MediaData.name x = term) results else results)
  | Raise e => Raise e
  end.

(** [search_add(term, server_id, media_type, exact, servers_to_exclude,
    media_id, sort_func)] with [no_add=False].  The value is a reference to
    the selected object, which [add_media] has stored: its global id; or
    [None] when nothing was found or selected. *)
Definition search_add (term : string) (server_id : option string)
    (media_type : option N) (exact : bool) (servers_to_exclude : list string)
    (media_id : option string) (sort_func : option (MediaData.t → Qc))
  : M (option string) :=
  let! r := get in
  let! results := lift (search_for_media r term server_id media_type exact servers_to_exclude) in
  let results :=
    match given media_id with
    | None => results
    | Some i => filter (λ x, MediaData.id x = i) results
    end in
  let results :=
    match sort_func with
    | Some f => sorted f results
    | None => results
    end in
  if bool_decide (length results = 0) then ret None
  else
    match select_media r term results with
    | None => ret None
    | Some media_data =>
        let! _ := add_media media_data false in
        ret (Some (MediaData.global_id media_data))
    end.

(** ** Migration *)

(** The ranking used when a media is re-added to its own provider:
    [-sum([media_data.get(key, None) == x[key] for key in x])].  The keys of
    a candidate [x] are its fields, and ["chapters"] when its dict has that
    key, in which case [x["chapters"]] reads the attribute. *)
Definition similarity (media_data x : MediaData.t) : nat :=
  sum_list_with (λ b : bool, if b then 1 else 0)
    [ bool_decide (MediaData.server_id media_data = MediaData.server_id x);
      bool_decide (MediaData.id media_data = MediaData.id x);
      bool_decide (MediaData.season_id media_data = MediaData.season_id x);
      bool_decide (MediaData.lang media_data = MediaData.lang x);
      bool_decide (MediaData.name media_data = MediaData.name x);
      bool_decide (MediaData.season_title media_data = MediaData.season_title x);
      bool_decide (MediaData.media_type media_data = MediaData.media_type x);
      bool_decide (MediaData.offset media_data = MediaData.offset x);
      bool_decide (MediaData.progress media_data = MediaData.progress x);
      bool_decide (MediaData.progressVolumes media_data = MediaData.progressVolumes x);
      bool_decide (MediaData.trackers media_data = MediaData.trackers x);
      match MediaData.item_chapters x with
      | Some _ => bool_decide (MediaData.item_chapters media_data
                               = Some (MediaData.getitem_chapters x))
      | None => false
      end ].

Definition sort_func (media_data x : MediaData.t) : Qc :=
  of_Z (- Z.of_nat (similarity media_data x)).

(** [media_data.copy_fields_to(new_media_data)], where [new_media_data] is
    the reference returned by [search_add]. *)
Definition copy_fields_to_ref (media_data : MediaData.t)
    (new_media_data : option string) : M unit :=
  let! r := get in
  let! d := lift (MediaData.copy_fields_to media_data
                    (new_media_data ≫= λ k, media r !! k)) in
  modify_media (λ md, from_option (λ k, <[k := d]> md) md new_media_data).

(** The variables of [migrate] that live across its first loop. *)
Record MigrateVars := mkVars {
  media_list : list string;
  last_read_list : list Qc;
  new_media_data : option string;
}.

(** One iteration of the first loop of [migrate]. *)
Definition migrate_step (exact move_self force_same_id : bool)
    (vars : MigrateVars) (media_data : MediaData.t) : M MigrateVars :=
  let! _ := remove_media media_data in
  let! new :=
    (if move_self
     then search_add (MediaData.name media_data)
            (Some (MediaData.server_id media_data)) None exact []
            (if force_same_id then Some (MediaData.id media_data) else None)
            (Some (sort_func media_data))
     else search_add (MediaData.name media_data)
            None (Some (MediaData.media_type media_data)) exact
            [MediaData.server_id media_data] None None) in
  let! _ := copy_fields_to_ref media_data new in
  let! last_read := lift (MediaData.get_last_read media_data) in
  ret (mkVars (media_list vars ++ from_option (λ k, [k]) [] new)
              (last_read_list vars ++ [last_read])
              new).

Fixpoint migrate_loop (exact move_self force_same_id : bool)
    (vars : MigrateVars) (todo : list MediaData.t) : M MigrateVars :=
  match todo with
  | [] => ret vars
  | media_data :: todo' =>
      let! vars' := migrate_step exact move_self force_same_id vars media_data in
      migrate_loop exact move_self force_same_id vars' todo'
  end.

(** Modelled from the spec: the job runner behind [for_each] ([job.py])
    is missing from the sources.  It runs every unit of work to its end,
    in the order of its input when sequential, the units being
    independent; with [raiseException=False] it drops the units that
    raised.  This is [self.for_each(self.update_media, media_list)]. *)
Fixpoint for_each_update_media (media_list : list string) : M unit :=
  match media_list with
  | [] => ret tt
  | k :: rest =>
      λ r, for_each_update_media rest (update_media_at k r).1
  end.

(** The last loop of [migrate]:
    [for media_data, last_read in zip(media_list, last_read_list):
         self.mark_chapters_until_n_as_read(new_media_data, last_read)].
    The object marked is the one bound to [new_media_data], the variable of
    the first loop. *)
Fixpoint mark_loop (new_media_data : option string)
    (pairs : list (string * Qc)) : M unit :=
  match pairs with
  | [] => ret tt
  | (_, last_read) :: rest =>
      match new_media_data with
      | None => raise UnboundLocalError
      | Some k =>
          let! _ := modify_media
                      (alter (λ m, mark_chapters_until_n_as_read m last_read false) k) in
          mark_loop new_media_data rest
      end
  end.

Definition migrate (name : option string) (exact move_self force_same_id : bool)
  : M unit :=
  let! r := get in
  let! vars := migrate_loop exact move_self force_same_id (mkVars [] [] None)
                 (get_media r None name).*2 in
  let! _ := for_each_update_media (media_list vars) in
  mark_loop (new_media_data vars) (zip (media_list vars) (last_read_list vars)).

(** ** Pushing progress to the tracker *)

Definition get_tracker_info (media_data : MediaData.t) (tracker_id : string)
  : option (Z * option string) :=
  MediaData.trackers media_data !! tracker_id.

(** The body of the loop of [sync_progress] on one media: the tuple it
    stages, if any, and the media as it leaves it. *)
Definition stage (tracker_id : string) (force : bool) (media_type : option N)
    (media_data : MediaData.t) : result (option TrackerUpdate * MediaData.t) :=
  let selected :=
    match media_type with
    | None => true
    | Some mt => bool_decide (mt = 0%N) || bool_decide (MediaData.media_type media_data = mt)
    end in
  if selected then
    match get_tracker_info media_data tracker_id with
    | None => Ok (None, media_data)
    | Some tracker_info =>
        match MediaData.get_last_read media_data with
        | Raise e => Raise e
        | Ok last_read =>
            if force || bool_decide (MediaData.progress media_data
                                      < of_Z (py_int last_read))%Qc
            then Ok (Some (tracker_info.1, last_read,
                           MediaData.progressVolumes media_data),
                     MediaData.set_progress last_read media_data)
            else Ok (None, media_data)
        end
    end
  else Ok (None, media_data).

Fixpoint stage_all (tracker_id : string) (force : bool) (media_type : option N)
    (todo : list (string * MediaData.t)) (data : list TrackerUpdate)
  : M (list TrackerUpdate) :=
  match todo with
  | [] => ret data
  | (k, media_data) :: todo' =>
      let! s := lift (stage tracker_id force media_type media_data) in
      let! _ := modify_media (<[k := s.2]>) in
      stage_all tracker_id force media_type todo'
                (data ++ from_option (λ u, [u]) [] s.1)
  end.

Definition sync_progress (force : bool) (media_type : option N) (dry_run : bool)
  : M bool :=
  let! r := get in
  let tracker := primary_tracker r in
  let! data := stage_all (trk_id tracker) force media_type (get_media r None None) [] in
  let! _ := (if bool_decide (data ≠ []) && negb dry_run
             then lift (trk_update tracker data) else ret tt) in
  ret (bool_decide (data ≠ [])).

End MediaReader.

(* ================================================================== *)
(** * Persistence ([State] in [amt/state.py])                          *)
(* ================================================================== *)

Module State.

(** A bundle: the [(media_id, chapter_id)] pairs of one export batch. *)
Abbreviation Bundles := (gmap string (list (string * string))).

(** The catalog index [all_media]: [{}] before anything was loaded, else
    the dict with the keys ["media"], ["disabled_media"] and, once
    upgraded, ["version"]. *)
Record Index := mkIndex {
  version : option Z;
  media : gmap string MediaData.t;
  disabled_media : gmap string MediaData.t;
}.

Abbreviation AllMedia := (option Index).

(** The dict an index file decodes to, and [all_media] as [json.dumps]
    is given it: a dict whose keys are among ["version"], ["media"] and
    ["disabled_media"], each of which may be missing; [{}] has none. *)
Record IndexDoc := mkDoc {
  doc_version : option Z;
  doc_media : option (gmap string MediaData.t);
  doc_disabled_media : option (gmap string MediaData.t);
}.

#[global] Instance IndexDoc_empty : Empty IndexDoc := mkDoc None None None.

Definition doc_of (a : AllMedia) : IndexDoc :=
  match a with
  | None => ∅
  | Some i => mkDoc (version i) (Some (media i)) (Some (disabled_media i))
  end.

(** What [json.dumps] sees of a value, and what [json_decoder] makes of a
    freshly parsed one. *)
Class JsonView (A : Type) := {
  as_dict : A → A;
  object_hook : A → A;
}.

#[global] Instance Bundles_view : JsonView Bundles :=
  {| as_dict := λ b, b; object_hook := λ b, b |}.

#[global] Instance Chapters_view : JsonView Chapters :=
  {| as_dict := λ c, c; object_hook := λ c, c |}.

Definition map_doc (f : MediaData.t → MediaData.t) (d : IndexDoc) : IndexDoc :=
  mkDoc (doc_version d)
        ((λ media : gmap string MediaData.t, f <$> media) <$> doc_media d)
        ((λ media : gmap string MediaData.t, f <$> media) <$> doc_disabled_media d).

#[global] Instance IndexDoc_view : JsonView IndexDoc :=
  {| as_dict := map_doc MediaData.dict_part;
     object_hook := map_doc MediaData.init |}.

(** [json.dumps(·, indent=4, sort_keys=True)] and the parser of
    [json.load], which gives [None] for a text that it cannot decode
    ([json.JSONDecodeError]). *)
Class Json (A : Type) := {
  dumps : A → string;
  loads : string → option A;
}.

(** The files: their content, and the paths that cannot be opened for
    writing because their directory does not exist. *)
Record Disk := mkDisk {
  files : gmap string string;
  no_dir : gset string;
}.

(** The settings the store consults.  The module [settings] is not among
    the sources; its paths and flags are fields here. *)
Record Settings := mkSettings {
  get_bundle_metadata_file : string;
  get_metadata : string;
  chapter_metadata_path : string → string;
  get_cookie_files : list string;
  get_cookie_file : string;
  no_load_session : bool;
  no_save_session : bool;
}.

(** Modelled from the spec: [Settings.get_chapter_metadata_file(media_data)]
    is missing from the sources.  The sub-items of an item live in a
    document whose path is derived deterministically from the identity of
    the item: the path is a function of its global id. *)
Definition get_chapter_metadata_file (s : Settings) (media_data : MediaData.t) : string :=
  chapter_metadata_path s (MediaData.global_id media_data).

Section Persistence.

(** The builtin [hash] on strings, the three shapes of payload, and the
    session cookies with their collaborators. *)
Context (hash : string → Z).
Context `{Json Bundles} `{Json IndexDoc} `{Json Chapters}.
Context {Cookies : Type}.
Context (cookies_str : Cookies → string).
Context (load_cookies : string → Cookies → Cookies).
Context (cookie_lines : Cookies → string).

Record t := mk {
  settings : Settings;
  cookies : Cookies;
  bundles : Bundles;
  all_media : AllMedia;
  hashes : gmap string Z;
  cookie_hash : option Z;
  disk : Disk;
  writes : list string;
}.

(** [self.media]: after [load_media] it is [self.all_media["media"]]. *)
Definition the_media (st : t) : gmap string MediaData.t :=
  from_option media ∅ (all_media st).

Definition with_hash (file_name : string) (h : Z) (st : t) : t :=
  mk (settings st) (cookies st) (bundles st) (all_media st)
     (<[file_name := h]> (hashes st)) (cookie_hash st) (disk st) (writes st).

Definition with_cookie_hash (h : Z) (st : t) : t :=
  mk (settings st) (cookies st) (bundles st) (all_media st)
     (hashes st) (Some h) (disk st) (writes st).

Definition with_cookies (c : Cookies) (st : t) : t :=
  mk (settings st) c (bundles st) (all_media st)
     (hashes st) (cookie_hash st) (disk st) (writes st).

Definition with_bundles (b : Bundles) (st : t) : t :=
  mk (settings st) (cookies st) b (all_media st)
     (hashes st) (cookie_hash st) (disk st) (writes st).

Definition with_all_media (a : AllMedia) (st : t) : t :=
  mk (settings st) (cookies st) (bundles st) a
     (hashes st) (cookie_hash st) (disk st) (writes st).

(** [open(file_name, "w")] followed by [write(text)]; [None] stands for
    [FileNotFoundError]. *)
Definition write_file (file_name text : string) (st : t) : option t :=
  if bool_decide (file_name ∈ no_dir (disk st)) then None
  else Some (mk (settings st) (cookies st) (bundles st) (all_media st)
                (hashes st) (cookie_hash st)
                (mkDisk (<[file_name := text]> (files (disk st))) (no_dir (disk st)))
                (writes st ++ [file_name])).

Definition get_hash {A} `{JsonView A} `{Json A} (json_dict : A) : Z * string :=
  let json_str := dumps (as_dict json_dict) in
  (hash json_str, json_str).

(** [read_file_as_dict(file_name)]: a missing file gives [{}]; a text
    that cannot be decoded raises before any hash is recorded. *)
Definition read_file_as_dict {A} `{JsonView A} `{Json A} `{Empty A}
    (st : t) (file_name : string) : t * result A :=
  match files (disk st) !! file_name with
  | Some text =>
      match loads text with
      | Some parsed =>
          let json_dict := object_hook parsed in
          (with_hash file_name (get_hash json_dict).1 st, Ok json_dict)
      | None => (st, Raise JSONDecodeError)
      end
  | None => (st, Ok ∅)
  end.

(** The body of [save_to_file] below the call of [get_hash]. *)
Definition write_if_changed (st : t) (file_name : string) (h : Z) (json_str : string)
  : t * bool :=
  if bool_decide (default 0%Z (hashes st !! file_name) = h) then (st, false)
  else
    let st := with_hash file_name h st in
    match write_file file_name json_str st with
    | Some st' => (st', true)
    | None => (st, false)
    end.

Definition save_to_file {A} `{JsonView A} `{Json A}
    (st : t) (file_name : string) (json_dict : A) : t * bool :=
  let '(h, json_str) := get_hash json_dict in
  write_if_changed st file_name h json_str.

(** [_set_session_hash()] *)
Definition _set_session_hash (st : t) : t * bool :=
  let cookie_hash' := hash (cookies_str (cookies st)) in
  if bool_decide (Some cookie_hash' ≠ cookie_hash st)
  then (with_cookie_hash cookie_hash' st, true)
  else (st, false).

Definition load_session_cookies (st : t) : t :=
  if no_load_session (settings st) then st
  else
    let jar :=
      foldl (λ c path,
               match files (disk st) !! path with
               | Some text => load_cookies text c
               | None => c
               end)
            (cookies st) (get_cookie_files (settings st)) in
    (_set_session_hash (with_cookies jar st)).1.

(** [save_session_cookies()]; opening the cookie file is not guarded, so a
    missing directory raises. *)
Definition save_session_cookies (st : t) : t * result bool :=
  if no_save_session (settings st) then (st, Ok false)
  else
    let '(st, changed) := _set_session_hash st in
    if changed then
      match write_file (get_cookie_file (settings st)) (cookie_lines (cookies st)) st with
      | Some st' => (st', Ok true)
      | None => (st, Raise FileNotFoundError)
      end
    else (st, Ok false).

Definition save_chapters (st : t) (media_data : MediaData.t) : t :=
  (save_to_file st (get_chapter_metadata_file (settings st) media_data)
                (MediaData.chapters media_data)).1.

Definition save (st : t) : t * result unit :=
  match save_session_cookies st with
  | (st, Raise e) => (st, Raise e)
  | (st, Ok _) =>
      let st := (save_to_file st (get_bundle_metadata_file (settings st)) (bundles st)).1 in
      let st := (save_to_file st (get_metadata (settings st)) (doc_of (all_media st))).1 in
      (foldl save_chapters st (values (the_media st)), Ok tt)
  end.

(** The destinations [save] visits after the cookies, in its order, each
    with the hash and the text of the payload it is given. *)
Definition payloads (st : t) : list (string * (Z * string)) :=
  (get_bundle_metadata_file (settings st), get_hash (bundles st))
  :: (get_metadata (settings st), get_hash (doc_of (all_media st)))
  :: ((λ media_data, (get_chapter_metadata_file (settings st) media_data,
                      get_hash (MediaData.chapters media_data)))
        <$> values (the_media st)).

(** The saved cookie hash is the one of the cookies of the session, or
    cookies are not saved at all. *)
Definition cookies_settled (st : t) : Prop :=
  no_save_session (settings st) = true ∨
  cookie_hash st = Some (hash (cookies_str (cookies st))).

(** [load_bundles()] *)
Definition load_bundles (st : t) : result t :=
  match read_file_as_dict st (get_bundle_metadata_file (settings st)) with
  | (st, Ok b) => Ok (with_bundles b st)
  | (_, Raise e) => Raise e
  end.

(** The loop of [load_media] runs over a snapshot of the entries of
    [self.media].  The objects of the snapshot are named by the key they
    had in it: [dict] maps the current keys to these names and [objects]
    holds the objects. *)
Record LoadLoop := mkLoop {
  loop_state : t;
  loop_dict : gmap string string;
  loop_objects : gmap string MediaData.t;
}.

Definition load_media_entry (l : LoadLoop) (entry : string * MediaData.t)
  : result LoadLoop :=
  let '(key, media_data) := entry in
  let dict :=
    if bool_decide (key ≠ MediaData.global_id media_data)
    then <[MediaData.global_id media_data := key]> (delete key (loop_dict l))
    else loop_dict l in
  if bool_decide (MediaData.chapters media_data = ∅)
  then
    match read_file_as_dict (loop_state l)
            (get_chapter_metadata_file (settings (loop_state l)) media_data) with
    | (st, Ok cs) =>
        Ok (mkLoop st dict
              (<[key := MediaData.with_chapters cs media_data]> (loop_objects l)))
    | (_, Raise e) => Raise e
    end
  else Ok (mkLoop (loop_state l) dict (loop_objects l)).

Fixpoint load_media_entries (l : LoadLoop) (todo : list (string * MediaData.t))
  : result LoadLoop :=
  match todo with
  | [] => Ok l
  | entry :: todo' =>
      match load_media_entry l entry with
      | Ok l' => load_media_entries l' todo'
      | Raise e => Raise e
      end
  end.

(** [self.all_media["media"]] and [self.all_media["disabled_media"]] of
    what the index file holds: [{}] is replaced by the empty index, and a
    dict that is not empty must have both keys. *)
Definition index_of (doc : IndexDoc) : result Index :=
  match doc with
  | mkDoc None None None => Ok (mkIndex None ∅ ∅)
  | mkDoc v (Some md) (Some dis) => Ok (mkIndex v md dis)
  | _ => Raise KeyError
  end.

(** [load_media()].  An exception leaves the call before it has returned;
    the state is given for the calls that return. *)
Definition load_media (st : t) : result t :=
  match read_file_as_dict st (get_metadata (settings st)) with
  | (_, Raise e) => Raise e
  | (st, Ok doc) =>
      match index_of doc with
      | Raise e => Raise e
      | Ok i =>
          match load_media_entries
                  (mkLoop st (map_imap (λ k _, Some k) (media i)) (media i))
                  (map_to_list (media i)) with
          | Raise e => Raise e
          | Ok l =>
              Ok (with_all_media
                    (Some (mkIndex (version i)
                                   (omap (λ name, loop_objects l !! name) (loop_dict l))
                                   (disabled_media i)))
                    (loop_state l))
          end
      end
  end.

(** [load()] *)
Definition load (st : t) : result t :=
  match load_bundles (load_session_cookies st) with
  | Ok st => load_media st
  | Raise e => Raise e
  end.

End Persistence.

End State.

(* ================================================================== *)
(** * More of the media reader ([amt/media_reader.py])                 *)
(* ================================================================== *)

Module Reader.

Notation "'let!' x := m 'in' k" := (MediaReader.bind m (λ x, k))
  (at level 10, x name, m at level 100, k at level 200, only parsing).

(** [chapter["number"] = n] *)
Definition set_number (n : Qc) (c : ChapterData.t) : ChapterData.t :=
  ChapterData.mk (ChapterData.id c) n (ChapterData.title c) (ChapterData.read c)
    (ChapterData.premium c) (ChapterData.special c) (ChapterData.date c).

(** [media_data["offset"] = o] *)
Definition set_offset (o : Qc) (m : MediaData.t) : MediaData.t :=
  MediaData.mk (MediaData.server_id m) (MediaData.id m) (MediaData.season_id m)
    (MediaData.lang m) (MediaData.name m) (MediaData.season_title m)
    (MediaData.media_type m) o (MediaData.progress m) (MediaData.progressVolumes m)
    (MediaData.trackers m) (MediaData.chapters m) (MediaData.item_chapters m).

(** In-place replacement of the content of [media_data["trackers"]]. *)
Definition set_trackers (t : gmap string (Z * option string)) (m : MediaData.t)
  : MediaData.t :=
  MediaData.mk (MediaData.server_id m) (MediaData.id m) (MediaData.season_id m)
    (MediaData.lang m) (MediaData.name m) (MediaData.season_title m)
    (MediaData.media_type m) (MediaData.offset m) (MediaData.progress m)
    (MediaData.progressVolumes m) t (MediaData.chapters m) (MediaData.item_chapters m).

(** [for media_data in self.get_media(...): body], for a body that mutates
    [media_data] and may raise: the objects visited before the one that
    raises keep their mutation. *)
Fixpoint for_each_media (body : MediaData.t → result MediaData.t)
    (todo : list (string * MediaData.t)) : MediaReader.M unit :=
  match todo with
  | [] => MediaReader.ret tt
  | (k, media_data) :: todo' =>
      let! media_data' := MediaReader.lift (body media_data) in
      let! _ := MediaReader.modify_media (<[k := media_data']>) in
      for_each_media body todo'
  end.

(** ** Unread chapters *)





(** ** Marking read *)

(** [max(a, b)] of two numbers: [b] only when it is greater. *)
Definition max2 (a b : Qc) : Qc := if bool_decide (a < b)%Qc then b else a.

(** The body of the loop of [mark_read]. *)
Definition mark_read_body (N : Qc) (force abs : bool) (media_data : MediaData.t)
  : result MediaData.t :=
  match (if abs then Ok N
         else match MediaData.get_last_chapter_number media_data with
              | Ok last => Ok (last + N)%Qc
              | Raise e => Raise e
              end) with
  | Raise e => Raise e
  | Ok last_read =>
      match (if force then Ok last_read
             else match MediaData.get_last_read media_data with
                  | Ok lr => Ok (max2 lr last_read)
                  | Raise e => Raise e
                  end) with
      | Raise e => Raise e
      | Ok last_read =>
          Ok (MediaReader.mark_chapters_until_n_as_read media_data last_read force)
      end
  end.

(** [mark_read(name, media_type, N, force, abs)] *)
Definition mark_read (name : option string) (media_type : option N) (N : Qc)
    (force abs : bool) : MediaReader.M unit :=
  let! r := MediaReader.get in
  for_each_media (mark_read_body N force abs) (MediaReader.get_media r media_type name).

(** [get_media_by_chapter_id(server_id, chapter_id)]: the pair
    [(media, chapter)], or [(None, None)]. *)
Definition get_media_by_chapter_id (r : MediaReader.t) (server_id chapter_id : string)
  : option MediaData.t * option ChapterData.t :=
  match list_find (λ km : string * MediaData.t,
                     MediaData.server_id km.2 = server_id ∧
                     chapter_id ∈ dom (MediaData.getitem_chapters km.2))
                  (MediaReader.get_media r None None) with
  | Some (_, (_, media)) => (Some media, MediaData.getitem_chapters media !! chapter_id)
  | None => (None, None)
  end.

(** ** Tracker links *)

(** The tracker a [tracker_id] argument stands for: the primary tracker
    when it is [None] or empty. *)
Definition tracker_or_primary (r : MediaReader.t) (tracker_id : option string) : string :=
  match MediaReader.given tracker_id with
  | Some t => t
  | None => trk_id (MediaReader.primary_tracker r)
  end.

(** [get_tracker_info(media_data, tracker_id)] *)
Definition get_tracker_info (r : MediaReader.t) (media_data : MediaData.t)
    (tracker_id : option string) : option (Z * option string) :=
  MediaReader.get_tracker_info media_data (tracker_or_primary r tracker_id).

Definition has_tracker_info (r : MediaReader.t) (media_data : MediaData.t)
    (tracker_id : option string) : bool :=
  bool_decide (is_Some (get_tracker_info r media_data tracker_id)).

(** The test of [get_tracked_media]:
    [tacker_info and tacker_info[0] == tracking_id]. *)
Definition is_tracked_as (r : MediaReader.t) (tracker_id : option string)
    (tracking_id : Z) (media_data : MediaData.t) : bool :=
  match get_tracker_info r media_data tracker_id with
  | Some tacker_info => bool_decide (tacker_info.1 = tracking_id)
  | None => false
  end.

(** [get_tracked_media(tracker_id, tracking_id)] *)
Definition get_tracked_media (r : MediaReader.t) (tracker_id : option string)
    (tracking_id : Z) : list MediaData.t :=
  filter (λ media_data, is_tracked_as r tracker_id tracking_id media_data)
         (MediaReader.get_media r None None).*2.

(** [track(media_data, tracker_id, tracking_id, tracker_title)], on the
    object. *)
Definition track (media_data : MediaData.t) (tracker_id : string) (tracking_id : Z)
    (tracker_title : option string) : MediaData.t :=
  set_trackers (<[tracker_id := (tracking_id, tracker_title)]> (MediaData.trackers media_data))
               media_data.

(** [del media_data["trackers"][tracker_id]] *)
Definition remove_tracker_body (tracker_id : string) (media_data : MediaData.t)
  : result MediaData.t :=
  match MediaData.trackers media_data !! tracker_id with
  | Some _ => Ok (set_trackers (delete tracker_id (MediaData.trackers media_data)) media_data)
  | None => Raise KeyError
  end.

(** [remove_tracker(name, media_type, tracker_id)] *)
Definition remove_tracker (name : option string) (media_type : option N)
    (tracker_id : option string) : MediaReader.M unit :=
  let! r := MediaReader.get in
  for_each_media (remove_tracker_body (tracker_or_primary r tracker_id))
                 (MediaReader.get_media r media_type name).

(** ** Numbering offset *)

(** The body of the loop of [offset]; [media_data.get("offset", 0)] is the
    field. *)
Definition offset_body (offset : Qc) (media_data : MediaData.t) : result MediaData.t :=
  let diff_offset := (offset - MediaData.offset media_data)%Qc in
  Ok (set_offset offset
        (MediaData.with_chapters
           ((λ chapter, set_number (ChapterData.number chapter - diff_offset)%Qc chapter)
              <$> MediaData.getitem_chapters media_data)
           media_data)).

(** [offset(name, offset)] *)
Definition offset (name : option string) (offset : Qc) : MediaReader.M unit :=
  let! r := MediaReader.get in
  for_each_media (offset_body offset) (MediaReader.get_media r None name).

End Reader.

(* ================================================================== *)
(** * More of the store ([State] in [amt/state.py])                    *)
(* ================================================================== *)

Module Store.

(** One of the two loops of [configure_media]: the entries of a snapshot of
    the keys of [src] whose media satisfies [moves] go to [dst], replacing
    what [dst] holds under the same key. *)
Definition move_step (moves : MediaData.t → bool)
    (maps : gmap string MediaData.t * gmap string MediaData.t) (key : string)
  : gmap string MediaData.t * gmap string MediaData.t :=
  match maps.1 !! key with
  | Some media_data =>
      if moves media_data
      then (delete key maps.1, <[key := media_data]> maps.2)
      else maps
  | None => maps
  end.

Definition move_where (moves : MediaData.t → bool)
    (src dst : gmap string MediaData.t)
  : gmap string MediaData.t * gmap string MediaData.t :=
  foldl (move_step moves) (src, dst) (map_to_list src).*1.

(** [configure_media(server_list)] on the loaded index: [server_list] is
    used through [in] only. *)
Definition configure_index (server_list : gset string) (i : State.Index) : State.Index :=
  let '(media, disabled_media) :=
    move_where (λ m, bool_decide (MediaData.server_id m ∉ server_list))
               (State.media i) (State.disabled_media i) in
  let '(disabled_media, media) :=
    move_where (λ m, bool_decide (MediaData.server_id m ∈ server_list))
               disabled_media media in
  State.mkIndex (State.version i) media disabled_media.

(** [configure_media(server_list)]: before [load_media] the state has no
    attribute [disabled_media]. *)
Definition configure_media {Cookies} (st : @State.t Cookies) (server_list : gset string)
  : @State.t Cookies * result unit :=
  match State.all_media st with
  | Some i => (State.with_all_media (Some (configure_index server_list i)) st, Ok tt)
  | None => (st, Raise AttributeError)
  end.

(** The loop of [mark_bundle_as_read] on the catalog. *)
Fixpoint mark_bundled (bundled_data : list (string * string))
    (media : gmap string MediaData.t) : gmap string MediaData.t * result unit :=
  match bundled_data with
  | [] => (media, Ok tt)
  | (media_id, chapter_id) :: rest =>
      match media !! media_id with
      | None => (media, Raise KeyError)
      | Some media_data =>
          match MediaData.getitem_chapters media_data !! chapter_id with
          | None => (media, Raise KeyError)
          | Some chapter =>
              mark_bundled rest
                (<[media_id :=
                     MediaData.with_chapters
                       (<[chapter_id := ChapterData.set_read true chapter]>
                          (MediaData.getitem_chapters media_data))
                       media_data]> media)
          end
      end
  end.

(** [mark_bundle_as_read(bundle_name)] *)
Definition mark_bundle_as_read {Cookies} (st : @State.t Cookies) (bundle_name : string)
  : @State.t Cookies * result unit :=
  match State.bundles st !! bundle_name with
  | None => (st, Raise KeyError)
  | Some bundled_data =>
      let '(media, res) := mark_bundled bundled_data (State.the_media st) in
      (match State.all_media st with
       | Some i =>
           State.with_all_media
             (Some (State.mkIndex (State.version i) media (State.disabled_media i))) st
       | None => st
       end, res)
  end.

End Store.

(* ================================================================== *)
(** * Auxiliary definitions used in the statements                     *)
(* ================================================================== *)

(** The chapters of a media that are marked read. *)
Definition read_chapters (m : MediaData.t) : list ChapterData.t :=
  filter (λ c, ChapterData.read c = true) (values (MediaData.getitem_chapters m)).

(** [md'] still holds every object of [md], with the same user-owned
    fields and the same global id. *)
Definition keeps_user_fields (md md' : gmap string MediaData.t) : Prop :=
  ∀ k m, md !! k = Some m →
    ∃ m', md' !! k = Some m' ∧
          MediaData.user_fields m' = MediaData.user_fields m ∧
          MediaData.global_id m' = MediaData.global_id m.

(** Every object of the catalog is stored under its global id, which is
    what [load_media] establishes and [add_media] maintains. *)
Definition keyed_by_global_id (md : gmap string MediaData.t) : Prop :=
  ∀ k m, md !! k = Some m → MediaData.global_id m = k.

(** The object stored under [kr.1] has the user-owned fields of [kr.2] and
    is stored under its global id. *)
Definition holds_fields_of (md : gmap string MediaData.t)
    (kr : string * MediaData.t) : Prop :=
  ∃ new, md !! kr.1 = Some new ∧
         MediaData.user_fields new = MediaData.user_fields kr.2 ∧
         MediaData.global_id new = kr.1.

(** The number [get_last_read] returns. *)
Definition last_read_number (m : MediaData.t) : Qc :=
  match MediaData.get_last_read m with Ok v => v | Raise _ => 0%Qc end.

(** The media that one run of the loop of [sync_progress] stages: of the
    selected type, linked to the tracker, and either forced or with a stored
    progress below the integer part of the last read number. *)
Definition push_due (tracker_id : string) (force : bool) (media_type : option N)
    (m : MediaData.t) : bool :=
  match media_type with
  | None => true
  | Some mt => bool_decide (mt = 0%N) || bool_decide (MediaData.media_type m = mt)
  end
  && bool_decide (is_Some (MediaReader.get_tracker_info m tracker_id))
  && (force || bool_decide (MediaData.progress m < of_Z (py_int (last_read_number m)))%Qc).

(** The tuple staged for a media that is due. *)
Definition staged_update (tracker_id : string) (force : bool) (media_type : option N)
    (m : MediaData.t) : option TrackerUpdate :=
  if push_due tracker_id force media_type m
  then (λ info : Z * option string,
          (info.1, last_read_number m, MediaData.progressVolumes m))
         <$> MediaReader.get_tracker_info m tracker_id
  else None.

(** What the loop leaves of a media. *)
Definition pushed (tracker_id : string) (force : bool) (media_type : option N)
    (m : MediaData.t) : MediaData.t :=
  if push_due tracker_id force media_type m
  then MediaData.set_progress (last_read_number m) m else m.

(** The condition in the words of the specification: a tracker link, and
    either [force] or a last read number that exceeds the stored progress. *)
Definition spec_push_due (tracker_id : string) (force : bool) (m : MediaData.t) : bool :=
  bool_decide (is_Some (MediaReader.get_tracker_info m tracker_id))
  && (force || bool_decide (MediaData.progress m < last_read_number m)%Qc).

(** The number [get_last_chapter_number] returns. *)
Definition last_chapter_number (m : MediaData.t) : Qc :=
  match MediaData.get_last_chapter_number m with Ok v => v | Raise _ => 0%Qc end.

(** The number up to which [mark_read] marks a media. *)
Definition mark_read_target (N : Qc) (force abs : bool) (m : MediaData.t) : Qc :=
  let last_read := if abs then N else (last_chapter_number m + N)%Qc in
  if force then last_read else Reader.max2 (last_read_number m) last_read.

(** The media a selection by [name] and [media_type] takes. *)
Definition selects (name : option string) (media_type : option N) (m : MediaData.t)
  : bool :=
  MediaReader.name_selects name m && MediaReader.type_selects media_type m.


(* ================================================================== *)
(** * Sample data                                                      *)
(* ================================================================== *)

Module Samples.

(** A chapter with an integral number. *)
Definition chapter (id : string) (number : Z) (read premium : bool) : ChapterData.t :=
  ChapterData.mk id (of_Z number) id read premium false None.

(** A media of the provider ["server"] without user data. *)
Definition item (id : string) (chapters : Chapters) : MediaData.t :=
  MediaData.mk "server" id None "" id "" 1%N 0%Qc 0%Qc None ∅ chapters None.

Definition listing_1_2 : Chapters :=
  {[ "1" := chapter "1" 1 false false; "2" := chapter "2" 2 false false ]}.

(** A provider whose listing is the chapters 1 and 2. *)
Definition server_1_2 : Server :=
  {| srv_id := "server"; srv_media_type := 1%N; sync_removed := false;
     search := λ _, [];
     update_media_data := λ _, Fetched listing_1_2;
     download_chapter := λ _ _ _, Ok true |}.

(** A provider whose fetch fails before it has written anything. *)
Definition server_down : Server :=
  {| srv_id := "server"; srv_media_type := 1%N; sync_removed := false;
     search := λ _, [];
     update_media_data := λ m, FetchFailed (MediaData.getitem_chapters m)
                                           (FetchError "timeout");
     download_chapter := λ _ _ _, Ok true |}.

(** A media whose only chapter, 1, is read. *)
Definition item_read_1 : MediaData.t :=
  item "m" {[ "1" := chapter "1" 1 true false ]}.

(** ** A provider behind a paywall *)

(** Chapter 1 is read; chapter 2 was premium when it was stored. *)
Definition paywalled_item : MediaData.t :=
  item "m" {[ "1" := chapter "1" 1 true false; "2" := chapter "2" 2 false true ]}.

(** The provider now offers chapter 2 to everyone and lists a premium
    chapter 3. *)
Definition listing_paywall : Chapters :=
  {[ "1" := chapter "1" 1 false false; "2" := chapter "2" 2 false false;
     "3" := chapter "3" 3 false true ]}.

Definition server_paywall : Server :=
  {| srv_id := "server"; srv_media_type := 1%N; sync_removed := false;
     search := λ _, [];
     update_media_data := λ _, Fetched listing_paywall;
     download_chapter := λ _ _ _, Ok true |}.

(** A media that holds the chapters 1 and 2 of [listing_1_2], the first of
    them read. *)
Definition item_1_2_read_1 : MediaData.t :=
  item "m" {[ "1" := chapter "1" 1 true false; "2" := chapter "2" 2 false false ]}.

(** ** A catalog of two media to migrate *)

Definition listing_1_2_3 : Chapters :=
  {[ "1" := chapter "1" 1 false false; "2" := chapter "2" 2 false false;
     "3" := chapter "3" 3 false false ]}.

(** The provider the two media come from; it is excluded from the search
    of a migration to another provider. *)
Definition old_server : Server :=
  {| srv_id := "old"; srv_media_type := 1%N; sync_removed := false;
     search := λ _, [];
     update_media_data := λ m, Fetched (MediaData.getitem_chapters m);
     download_chapter := λ _ _ _, Ok true |}.

(** The provider they move to: it knows every title under the title as id
    and lists the chapters 1, 2 and 3 for each. *)
Definition new_server : Server :=
  {| srv_id := "new"; srv_media_type := 1%N; sync_removed := false;
     search := λ term,
       [MediaData.mk "new" term None "" term "" 1%N 0%Qc 0%Qc None ∅ ∅ None];
     update_media_data := λ _, Fetched listing_1_2_3;
     download_chapter := λ _ _ _, Ok true |}.

(** A provider that finds nothing. *)
Definition empty_server : Server :=
  {| srv_id := "new"; srv_media_type := 1%N; sync_removed := false;
     search := λ _, [];
     update_media_data := λ m, Fetched (MediaData.getitem_chapters m);
     download_chapter := λ _ _ _, Ok true |}.

Definition no_tracker : Tracker :=
  {| trk_id := "tracker"; trk_update := λ _, Ok tt |}.

(** ["alpha"]: chapters 1 and 2 read, so that its last read number is 2. *)
Definition alpha : MediaData.t :=
  MediaData.mk "old" "a" None "" "alpha" "" 1%N 0%Qc 0%Qc None ∅
    {[ "1" := chapter "1" 1 true false; "2" := chapter "2" 2 true false;
       "3" := chapter "3" 3 false false ]} None.

(** ["beta"]: chapter 1 read, so that its last read number is 1. *)
Definition beta : MediaData.t :=
  MediaData.mk "old" "b" None "" "beta" "" 1%N 0%Qc 0%Qc None ∅
    {[ "1" := chapter "1" 1 true false; "2" := chapter "2" 2 false false ]} None.

(** The front end with [auto_select]: the first result is taken. *)
Definition reader (servers : gmap string Server) (media : gmap string MediaData.t)
  : MediaReader.t :=
  MediaReader.mk false servers media no_tracker (λ _ results, head results).

Definition two_media : gmap string MediaData.t :=
  {[ "old:a" := alpha; "old:b" := beta ]}.

(** The [read] flags of the chapters of the media stored under [key]. *)
Definition read_flags (r : MediaReader.t) (key : string) : option (gmap string bool) :=
  (λ m, ChapterData.read <$> MediaData.getitem_chapters m) <$> MediaReader.media r !! key.

Definition migrating_reader : MediaReader.t :=
  reader {[ "old" := old_server; "new" := new_server ]} two_media.

(** ["alpha"] with user data: offset 1, progress 2 and a link to the
    tracker. *)
Definition tracked_alpha : MediaData.t :=
  MediaData.mk "old" "a" None "" "alpha" "" 1%N (of_Z 1) (of_Z 2) None
    {[ "tracker" := (7%Z, Some "alpha") ]}
    {[ "1" := chapter "1" 1 true false; "2" := chapter "2" 2 true false;
       "3" := chapter "3" 3 false false ]} None.

(** A provider that knows every title but whose listing cannot be
    fetched. *)
Definition new_server_down : Server :=
  {| srv_id := "new"; srv_media_type := 1%N; sync_removed := false;
     search := λ term,
       [MediaData.mk "new" term None "" term "" 1%N 0%Qc 0%Qc None ∅ ∅ None];
     update_media_data := λ m, FetchFailed (MediaData.getitem_chapters m)
                                           (FetchError "timeout");
     download_chapter := λ _ _ _, Ok true |}.

Definition tracked_reader : MediaReader.t :=
  reader {[ "old" := old_server; "new" := new_server ]} {[ "old:a" := tracked_alpha ]}.

Definition failing_reader : MediaReader.t :=
  reader {[ "old" := old_server; "new" := new_server_down ]}
         {[ "old:a" := tracked_alpha ]}.

Definition stranded_reader : MediaReader.t :=
  reader {[ "old" := old_server; "new" := empty_server ]} two_media.

(** ** A media read up to chapter 5.5 *)

(** Linked to the tracker, progress 5, and its only chapter, 5.5, read. *)
Definition half_chapter : MediaData.t :=
  MediaData.mk "old" "h" None "" "half" "" 1%N 0%Qc (of_Z 5) None
    {[ "tracker" := (42%Z, Some "half") ]}
    {[ "5.5" := ChapterData.mk "5.5" (Q2Qc (11 # 2)) "5.5" true false false None ]}
    None.

Definition half_reader : MediaReader.t :=
  reader {[ "old" := old_server ]} {[ "old:h" := half_chapter ]}.

(** A tracker that cannot be reached. *)
Definition tracker_down : Tracker :=
  {| trk_id := "tracker"; trk_update := λ _, Raise (FetchError "tracker") |}.

(** Linked to the tracker, progress 0, chapters 1 and 2 read. *)
Definition linked_alpha : MediaData.t :=
  MediaData.mk "old" "a" None "" "alpha" "" 1%N 0%Qc 0%Qc None
    {[ "tracker" := (7%Z, Some "alpha") ]}
    {[ "1" := chapter "1" 1 true false; "2" := chapter "2" 2 true false ]} None.

Definition unreachable_reader : MediaReader.t :=
  MediaReader.mk false {[ "old" := old_server ]} {[ "old:a" := linked_alpha ]}
    tracker_down (λ _ results, head results).

(** ** A store on a small disk *)

(** A hash that is never [0], the default of [hashes.get]. *)
Definition length_hash (text : string) : Z := Z.of_nat (String.length text) + 1.

Definition bundles_json : State.Json State.Bundles :=
  {| State.dumps := λ b, if bool_decide (b = ∅) then "{}" else "{bundles}";
     State.loads := λ _, Some ∅ |}.

(** The index on disk lists ["alpha"], without chapters, under its global
    id. *)
Definition alpha_entry : MediaData.t :=
  MediaData.mk "old" "a" None "" "alpha" "" 1%N 0%Qc 0%Qc None ∅ ∅ None.

Definition index_json : State.Json State.IndexDoc :=
  {| State.dumps := λ d,
       match State.doc_media d with
       | None => "{}"
       | Some media => if bool_decide (media = ∅) then "{media: {}}"
                       else "{media: {...}}"
       end;
     State.loads := λ text,
       if bool_decide (text = "{}") then Some ∅
       else if bool_decide (text = "{media: {...}}")
       then Some (State.mkDoc (Some 1%Z) (Some {[ "old:a" := alpha_entry ]}) (Some ∅))
       else if bool_decide (text = "{version: 1}")
       then Some (State.mkDoc (Some 1%Z) None None)
       else None |}.

Definition chapters_json : State.Json Chapters :=
  {| State.dumps := λ c, if bool_decide (c = ∅) then "{}" else "{chapters}";
     State.loads := λ text,
       if bool_decide (text = "{chapters}") then Some listing_1_2 else None |}.

Definition paths : State.Settings :=
  State.mkSettings "bundles.json" "media.json" (λ k, k +:+ ".json")
    ["cookies.txt"] "cookies.txt" false false.

(** A state as [State.__init__] leaves it, on a given disk. *)
Definition fresh (files : gmap string string) : @State.t unit :=
  State.mk paths tt ∅ None ∅ None (State.mkDisk files ∅) [].

Definition sample_save (st : @State.t unit) : @State.t unit * result unit :=
  @State.save length_hash bundles_json index_json chapters_json unit
    (λ _, "jar") (λ _, "") st.

Definition sample_load (st : @State.t unit) : result (@State.t unit) :=
  @State.load length_hash bundles_json index_json chapters_json unit
    (λ _, "jar") (λ _ c, c) st.


(** A disk after a first run: the bundles, the index and the chapters of
    the one media of the index. *)
Definition used_disk : gmap string string :=
  {[ "bundles.json" := "{}"; "media.json" := "{media: {...}}";
     "old:a.json" := "{chapters}" ]}.

End Samples.

(* ================================================================== *)
(** * Properties of the runtime functions                              *)
(* ================================================================== *)

Section Runtime.
Context {A : Type} (key : A → Qc).

Lemma max_from_In (cur : A) (l : list A) :
  max_from key cur l = cur ∨ max_from key cur l ∈ l.
Proof.
  revert cur. induction l as [|x l IH]; intros cur; simpl; [by left|].
  destruct (IH (if bool_decide (key cur < key x)%Qc then x else cur)) as [->|Hin].
  - case_bool_decide; [right; left | by left].
  - right. by right.
Qed.

Lemma max_from_ge_cur (cur : A) (l : list A) :
  (key cur ≤ key (max_from key cur l))%Qc.
Proof.
  revert cur. induction l as [|x l IH]; intros cur; simpl; [apply Qcle_refl|].
  case_bool_decide as Hlt; [|apply IH].
  eapply Qcle_trans; [apply Qclt_le_weak, Hlt | apply IH].
Qed.

Lemma max_from_ge (cur : A) (l : list A) (x : A) :
  x ∈ l → (key x ≤ key (max_from key cur l))%Qc.
Proof.
  revert cur. induction l as [|y l IH]; intros cur Hin; [by apply elem_of_nil in Hin|].
  apply elem_of_cons in Hin as [->|Hin]; simpl; [|by apply IH].
  case_bool_decide as Hlt; [apply max_from_ge_cur|].
  eapply Qcle_trans; [|apply max_from_ge_cur]. by apply Qcnot_lt_le.
Qed.

Lemma insert_by_perm (x : A) (l : list A) : insert_by key x l ≡ₚ x :: l.
Proof.
  induction l as [|y l IH]; simpl; [done|].
  case_bool_decide; [done|]. rewrite IH. apply Permutation_swap.
Qed.

Lemma sorted_perm (l : list A) : sorted key l ≡ₚ l.
Proof.
  induction l as [|x l IH]; simpl; [done|].
  by rewrite insert_by_perm, IH.
Qed.

Lemma sorted_length (l : list A) : length (sorted key l) = length l.
Proof. by rewrite sorted_perm. Qed.

Lemma insert_by_Sorted (x : A) (l : list A) :
  Sorted (key_le key) l → Sorted (key_le key) (insert_by key x l).
Proof.
  induction l as [|y l IH]; intros Hs; simpl.
  - by repeat constructor.
  - case_bool_decide as Hle.
    + constructor; [done|]. by constructor.
    + apply Sorted_inv in Hs as [Hs Hhd].
      constructor; [by apply IH|].
      assert (key_le key y x) as Hyx by (apply Qclt_le_weak; by apply Qcnot_le_lt).
      destruct l as [|z l]; simpl; [by constructor|].
      case_bool_decide; constructor; [done|]. by apply HdRel_inv in Hhd.
Qed.

Lemma sorted_Sorted (l : list A) : Sorted (key_le key) (sorted key l).
Proof.
  induction l as [|x l IH]; simpl; [constructor|]. by apply insert_by_Sorted.
Qed.

End Runtime.

Lemma elem_of_values {V} (d : gmap string V) (v : V) :
  v ∈ values d ↔ ∃ k, d !! k = Some v.
Proof.
  unfold values. rewrite list_elem_of_fmap. split.
  - intros [[k v'] [-> Hin]]. exists k. by apply elem_of_map_to_list.
  - intros [k Hk]. exists (k, v). split; [done|]. by apply elem_of_map_to_list.
Qed.

Lemma values_nil {V} (d : gmap string V) : values d = [] ↔ d = ∅.
Proof.
  unfold values. split.
  - intros Hnil. apply map_to_list_empty_iff. by apply fmap_nil_inv in Hnil.
  - intros ->. by rewrite map_to_list_empty.
Qed.

(* ================================================================== *)
(** * Properties of the entity model                                   *)
(* ================================================================== *)

Lemma py_max_number_spec (l : list ChapterData.t) (d : option ChapterData.t) (c : ChapterData.t) :
  l ≠ [] → py_max ChapterData.number l d = Ok c →
  c ∈ l ∧ ∀ x, x ∈ l → (ChapterData.number x ≤ ChapterData.number c)%Qc.
Proof.
  destruct l as [|y l]; [done|]. intros _ [= <-]. split.
  - destruct (max_from_In ChapterData.number y l) as [->|Hin]; [left | by right].
  - intros x [->|Hin]%elem_of_cons; [apply max_from_ge_cur | by apply max_from_ge].
Qed.

Lemma get_last_chapter_number_empty (m : MediaData.t) :
  MediaData.chapters m = ∅ → MediaData.get_last_chapter_number m = Ok 0%Qc.
Proof.
  intros He. unfold MediaData.get_last_chapter_number, MediaData.getitem_chapters.
  by rewrite bool_decide_eq_true_2.
Qed.

Lemma get_last_chapter_number_max (m : MediaData.t) :
  MediaData.chapters m ≠ ∅ →
  ∃ k c, MediaData.chapters m !! k = Some c ∧
         MediaData.get_last_chapter_number m = Ok (ChapterData.number c) ∧
         ∀ k' c', MediaData.chapters m !! k' = Some c' →
                  (ChapterData.number c' ≤ ChapterData.number c)%Qc.
Proof.
  intros Hne. unfold MediaData.get_last_chapter_number, MediaData.getitem_chapters.
  rewrite bool_decide_eq_false_2 by done.
  assert (values (MediaData.chapters m) ≠ []) as Hl by (by rewrite values_nil).
  destruct (py_max ChapterData.number (values (MediaData.chapters m)) None) as [c|e] eqn:Hmax.
  - destruct (py_max_number_spec _ _ _ Hl Hmax) as [[k Hk]%elem_of_values Hge].
    exists k, c. split_and!; [done..|].
    intros k' c' Hk'. apply Hge, elem_of_values. eauto.
  - destruct (values (MediaData.chapters m)); [done|discriminate].
Qed.

Lemma elem_of_read_chapters (m : MediaData.t) (c : ChapterData.t) :
  c ∈ read_chapters m ↔
  ChapterData.read c = true ∧ ∃ k, MediaData.chapters m !! k = Some c.
Proof.
  unfold read_chapters, MediaData.getitem_chapters.
  by rewrite list_elem_of_filter, elem_of_values.
Qed.

Lemma get_last_read_none (m : MediaData.t) :
  (∀ k c, MediaData.chapters m !! k = Some c → ChapterData.read c = false) →
  MediaData.get_last_read m = Ok 0%Qc.
Proof.
  intros Hnone. unfold MediaData.get_last_read. fold (read_chapters m).
  destruct (read_chapters m) as [|c l] eqn:Hl; [done|].
  assert (c ∈ read_chapters m) as [Hr [k Hk]]%elem_of_read_chapters
    by (rewrite Hl; left).
  rewrite (Hnone k c Hk) in Hr. discriminate.
Qed.

Lemma get_last_read_max (m : MediaData.t) (k0 : string) (c0 : ChapterData.t) :
  MediaData.chapters m !! k0 = Some c0 → ChapterData.read c0 = true →
  ∃ k c, MediaData.chapters m !! k = Some c ∧ ChapterData.read c = true ∧
         MediaData.get_last_read m = Ok (ChapterData.number c) ∧
         ∀ k' c', MediaData.chapters m !! k' = Some c' → ChapterData.read c' = true →
                  (ChapterData.number c' ≤ ChapterData.number c)%Qc.
Proof.
  intros Hk0 Hr0. unfold MediaData.get_last_read. fold (read_chapters m).
  assert (c0 ∈ read_chapters m) as Hin0 by (apply elem_of_read_chapters; eauto).
  assert (read_chapters m ≠ []) as Hl by (intros He; rewrite He in Hin0; by apply elem_of_nil in Hin0).
  destruct (py_max ChapterData.number (read_chapters m) (Some MediaData.default_number_0))
    as [c|e] eqn:Hmax.
  - destruct (py_max_number_spec _ _ _ Hl Hmax) as [[Hr [k Hk]]%elem_of_read_chapters Hge].
    exists k, c. split_and!; [done..|].
    intros k' c' Hk' Hr'. apply Hge, elem_of_read_chapters. eauto.
  - destruct (read_chapters m); [done|discriminate].
Qed.

(** C9. [get_last_chapter_number] and [get_last_read] always return: the
    former [0] on an empty chapter mapping and otherwise the number of a
    chapter that no chapter exceeds; the latter [0] when no chapter is read
    and otherwise the number of a read chapter that no read chapter
    exceeds. *)
Theorem last_numbers_defined (m : MediaData.t) :
  (∃ v, MediaData.get_last_chapter_number m = Ok v ∧
        (MediaData.chapters m = ∅ → v = 0%Qc) ∧
        (MediaData.chapters m ≠ ∅ →
           (∃ k c, MediaData.chapters m !! k = Some c ∧ ChapterData.number c = v) ∧
           ∀ k c, MediaData.chapters m !! k = Some c → (ChapterData.number c ≤ v)%Qc)) ∧
  (∃ w, MediaData.get_last_read m = Ok w ∧
        ((∀ k c, MediaData.chapters m !! k = Some c → ChapterData.read c = false) →
           w = 0%Qc) ∧
        (∀ k0 c0, MediaData.chapters m !! k0 = Some c0 → ChapterData.read c0 = true →
           (∃ k c, MediaData.chapters m !! k = Some c ∧ ChapterData.read c = true ∧
                   ChapterData.number c = w) ∧
           ∀ k c, MediaData.chapters m !! k = Some c → ChapterData.read c = true →
                  (ChapterData.number c ≤ w)%Qc)).
Proof.
  split.
  - destruct (decide (MediaData.chapters m = ∅)) as [He|Hne].
    + exists 0%Qc. split; [by apply get_last_chapter_number_empty|]. by split.
    + destruct (get_last_chapter_number_max m Hne) as (k & c & Hk & Hret & Hge).
      exists (ChapterData.number c). split; [done|]. split; [done|].
      intros _. split; [eauto|done].
  - destruct (decide (Exists (λ c, ChapterData.read c = true) (values (MediaData.chapters m))))
      as [Hex|Hno].
    + apply list.Exists_exists in Hex as (c0 & [k0 Hk0]%elem_of_values & Hr0).
      destruct (get_last_read_max m k0 c0 Hk0 Hr0) as (k & c & Hk & Hr & Hret & Hge).
      exists (ChapterData.number c). split; [done|]. split.
      * intros Hnone. rewrite (Hnone k c Hk) in Hr. discriminate.
      * intros _ _ _ _. split; [eauto|done].
    + assert (∀ k c, MediaData.chapters m !! k = Some c → ChapterData.read c = false) as Hnone.
      { intros k c Hk. destruct (ChapterData.read c) eqn:Hr; [|done].
        exfalso. apply Hno, list.Exists_exists. exists c. split; [|done].
        apply elem_of_values. eauto. }
      exists 0%Qc. split; [by apply get_last_read_none|]. split; [done|].
      intros k0 c0 Hk0 Hr0. rewrite (Hnone k0 c0 Hk0) in Hr0. discriminate.
Qed.

(* ================================================================== *)
(** * Reconciliation: [update_media]                                   *)
(* ================================================================== *)

Lemma restore_read_lookup (snapshot current : Chapters) (k : string) :
  MediaReader.restore_read snapshot current !! k =
  (λ c, match snapshot !! k with
        | Some old => ChapterData.set_read (ChapterData.read old) c
        | None => c
        end) <$> current !! k.
Proof.
  unfold MediaReader.restore_read. revert k.
  apply (map_fold_weak_ind (λ acc (s : Chapters), ∀ k,
    acc !! k = (λ c, match s !! k with
                     | Some old => ChapterData.set_read (ChapterData.read old) c
                     | None => c
                     end) <$> current !! k)).
  - intros k. rewrite lookup_empty. by destruct (current !! k).
  - intros i x s acc Hi IH k. destruct (decide (i = k)) as [->|Hne].
    + rewrite lookup_alter_eq, IH, Hi, lookup_insert_eq.
      by destruct (current !! k).
    + by rewrite lookup_alter_ne, IH, lookup_insert_ne.
Qed.

Lemma restore_read_dom (snapshot current : Chapters) :
  dom (MediaReader.restore_read snapshot current) = dom current.
Proof.
  apply set_eq. intros k. rewrite !elem_of_dom, restore_read_lookup.
  by rewrite fmap_is_Some.
Qed.

Lemma restore_read_premium (snapshot current : Chapters) (free_only : bool) :
  MediaReader.get_chapter_ids free_only (MediaReader.restore_read snapshot current)
  = MediaReader.get_chapter_ids free_only current.
Proof.
  unfold MediaReader.get_chapter_ids. destruct free_only; [|apply restore_read_dom].
  apply set_eq. intros k. rewrite !elem_of_dom.
  unfold is_Some. setoid_rewrite map_lookup_filter_Some.
  setoid_rewrite restore_read_lookup. split.
  - intros (c & Hc & Hp). destruct (current !! k) as [c'|] eqn:Hk; [|done].
    exists c'. split; [done|]. simpl in *. injection Hc as <-.
    by destruct (snapshot !! k).
  - intros (c & Hc & Hp). rewrite Hc. simpl. eexists. split; [done|].
    simpl in *. by destruct (snapshot !! k).
Qed.

Lemma lookup_all_Forall2 (chapters : Chapters) (ids : list string) :
  (∀ x, x ∈ ids → is_Some (chapters !! x)) →
  ∃ cs, MediaReader.lookup_all chapters ids = Ok cs ∧
        Forall2 (λ x c, chapters !! x = Some c) ids cs.
Proof.
  induction ids as [|x ids IH]; intros Hall; simpl.
  - exists []. by split.
  - destruct (Hall x) as [c Hc]; [left|]. rewrite Hc.
    destruct IH as (cs & -> & HF); [intros y Hy; apply Hall; by right|].
    exists (c :: cs). split; [done|]. by constructor.
Qed.

Lemma get_chapter_ids_subseteq (free_only : bool) (chapters : Chapters) :
  MediaReader.get_chapter_ids free_only chapters ⊆ dom chapters.
Proof.
  unfold MediaReader.get_chapter_ids. destruct free_only; [|done].
  apply subseteq_dom, map_filter_subseteq.
Qed.

(** Reconciliation writes [chapters] and, on the failure path, the dict
    entry ["chapters"]; every other field is left alone. *)
Lemma update_media_frame (free_only : bool) (servers : gmap string Server)
    (m : MediaData.t) (download : bool) (mt : option N) (limit : option nat)
    (page_limit : option nat) (replace : bool) :
  let m' := MediaReader.upd_media
              (MediaReader.update_media free_only servers m download mt limit page_limit replace) in
  MediaData.user_fields m' = MediaData.user_fields m ∧
  MediaData.global_id m' = MediaData.global_id m ∧
  MediaData.name m' = MediaData.name m ∧
  MediaData.server_id m' = MediaData.server_id m ∧
  MediaData.media_type m' = MediaData.media_type m.
Proof.
  unfold MediaReader.update_media.
  repeat (case_match || destruct (MediaReader.download_each _ _ _ _)); simpl; done.
Qed.

(** C1. Replace-mode reconciliation whose fetch returns: afterwards the
    chapter mapping has exactly the ids of the fresh listing; a chapter
    whose id was in the snapshot is the fresh chapter with the [read] flag
    of the snapshot, a chapter whose id is new is the fresh chapter as the
    provider gave it, and ids of the snapshot that the fresh listing lacks
    are gone. *)
Theorem replace_keeps_read_flags (free_only : bool) (servers : gmap string Server)
    (m : MediaData.t) (download : bool) (mt : option N) (limit : option nat)
    (page_limit : option nat) (server : Server) (fresh : Chapters) (k : string) :
  servers !! MediaData.server_id m = Some server →
  update_media_data server (MediaData.with_chapters ∅ m) = Fetched fresh →
  MediaData.getitem_chapters
    (MediaReader.upd_media
       (MediaReader.update_media free_only servers m download mt limit page_limit true)) !! k
  = match fresh !! k with
    | None => None
    | Some c =>
        Some (match MediaData.chapters m !! k with
              | Some old => ChapterData.set_read (ChapterData.read old) c
              | None => c
              end)
    end.
Proof.
  intros Hs Hf. unfold MediaReader.update_media. rewrite Hs.
  replace (if sync_removed server then true else true) with true by (by destruct (sync_removed server)).
  cbv zeta. rewrite Hf.
  assert (∀ o : MediaReader.UpdateOutcome,
    MediaReader.upd_media o =
      MediaData.with_chapters
        (MediaReader.restore_read (MediaData.chapters m) fresh)
        (MediaData.with_chapters fresh (MediaData.with_chapters ∅ m)) →
    MediaData.getitem_chapters (MediaReader.upd_media o) !! k =
    match fresh !! k with
    | None => None
    | Some c => Some (match MediaData.chapters m !! k with
                      | Some old => ChapterData.set_read (ChapterData.read old) c
                      | None => c
                      end)
    end) as Hgen.
  { intros o ->. simpl. rewrite restore_read_lookup. by destruct (fresh !! k). }
  repeat (case_match || destruct (MediaReader.download_each _ _ _ _)); by apply Hgen.
Qed.

Lemma replace_keeps_read_flags_witness :
  ChapterData.read <$>
    MediaData.getitem_chapters
      (MediaReader.upd_media
         (MediaReader.update_media false {[ "server" := Samples.server_1_2 ]}
            Samples.item_read_1 false None None None true)) !! "1"
  = Some true.
Proof.
  rewrite (replace_keeps_read_flags false {[ "server" := Samples.server_1_2 ]}
             Samples.item_read_1 false None None None Samples.server_1_2
             Samples.listing_1_2 "1"); [reflexivity | reflexivity | reflexivity].
Defined.

(** The failure path of replace-mode reconciliation: the exception is
    propagated, the attribute [chapters] holds what the provider left in the
    cleared mapping, and the snapshot sits under the dict key
    ["chapters"]. *)
Lemma update_media_failed_fetch (free_only : bool) (servers : gmap string Server)
    (m : MediaData.t) (download : bool) (mt : option N) (limit : option nat)
    (page_limit : option nat) (server : Server) (left_behind : Chapters) (e : PyError) :
  servers !! MediaData.server_id m = Some server →
  update_media_data server (MediaData.with_chapters ∅ m) = FetchFailed left_behind e →
  let o := MediaReader.update_media free_only servers m download mt limit page_limit true in
  MediaReader.upd_result o = Raise e ∧
  MediaData.getitem_chapters (MediaReader.upd_media o) = left_behind ∧
  MediaData.item_chapters (MediaReader.upd_media o) = Some (MediaData.chapters m).
Proof.
  intros Hs Hf. unfold MediaReader.update_media. rewrite Hs.
  replace (if sync_removed server then true else true) with true by (by destruct (sync_removed server)).
  cbv zeta. by rewrite Hf.
Qed.

(** C2. A media whose chapter 1 is read, reconciled in replace mode against
    a provider whose fetch raises: the error is propagated, but the chapter
    mapping of the media is left empty instead of being restored; the
    snapshot lands under the dict key ["chapters"], which no reader of
    [media_data["chapters"]] sees. *)
Theorem failed_replace_leaves_chapters_empty :
  let o := MediaReader.update_media false {[ "server" := Samples.server_down ]}
             Samples.item_read_1 false None None None true in
  MediaReader.upd_result o = Raise (FetchError "timeout") ∧
  MediaData.getitem_chapters (MediaReader.upd_media o) = ∅ ∧
  MediaData.getitem_chapters (MediaReader.upd_media o)
    ≠ MediaData.getitem_chapters Samples.item_read_1 ∧
  MediaData.item_chapters (MediaReader.upd_media o)
    = Some (MediaData.getitem_chapters Samples.item_read_1).
Proof.
  destruct (update_media_failed_fetch false {[ "server" := Samples.server_down ]}
              Samples.item_read_1 false None None None Samples.server_down ∅
              (FetchError "timeout")) as (Hr & Hc & Hi); [reflexivity..|].
  cbv zeta. rewrite Hr, Hc, Hi. split_and!; [done..| |done].
  intros He. apply (f_equal (λ cs : Chapters, cs !! "1")) in He. discriminate He.
Qed.

Lemma Forall2_lookup_omap (chapters : Chapters) (ids : list string) (cs : list ChapterData.t) :
  Forall2 (λ x c, chapters !! x = Some c) ids cs → omap (λ x, chapters !! x) ids = cs.
Proof.
  induction 1 as [|x c ids cs Hx _ IH]; [done|].
  rewrite <- IH. simpl. by rewrite Hx.
Qed.

Lemma elem_of_get_chapter_ids (free_only : bool) (chapters : Chapters) (x : string) :
  x ∈ MediaReader.get_chapter_ids free_only chapters ↔
  ∃ c, chapters !! x = Some c ∧ (free_only = true → ChapterData.premium c = false).
Proof.
  unfold MediaReader.get_chapter_ids. destruct free_only.
  - rewrite elem_of_dom. unfold is_Some. setoid_rewrite map_lookup_filter_Some.
    cbn [snd]. split; intros (c & Hc & Hp); exists c; split; auto.
  - rewrite elem_of_dom. split; [intros [c Hc]; by exists c | intros (c & Hc & _); by exists c].
Qed.

(** The download loop hands the chapters over in order and stops at the
    first call that raises. *)
Lemma download_each_spec (server : Server) (media_data : MediaData.t)
    (page_limit : option nat) (todo : list ChapterData.t) :
  (Forall (λ c, ∃ b, download_chapter server media_data c page_limit = Ok b) todo →
   MediaReader.download_each server media_data page_limit todo = (todo, Ok tt)) ∧
  (∀ handed c rest e,
     todo = handed ++ c :: rest →
     Forall (λ c, ∃ b, download_chapter server media_data c page_limit = Ok b) handed →
     download_chapter server media_data c page_limit = Raise e →
     MediaReader.download_each server media_data page_limit todo
     = (handed ++ [c], Raise e)).
Proof.
  induction todo as [|c0 todo [IH1 IH2]]; split.
  - done.
  - intros handed c rest e Heq. by destruct handed.
  - intros [[b Hb] Hall]%list.Forall_cons. cbn [MediaReader.download_each].
    rewrite Hb. by rewrite (IH1 Hall).
  - intros handed c rest e Heq Hall Hc. cbn [MediaReader.download_each].
    destruct handed as [|c1 handed].
    + injection Heq as -> ->. by rewrite Hc.
    + injection Heq as -> ->. apply list.Forall_cons in Hall as [[b Hb] Hall].
      rewrite Hb. by rewrite (IH2 handed c rest e eq_refl Hall Hc).
Qed.

(** C5. Whenever the fetch of a reconciliation returns, the assertion of
    [update_media] holds and the list of new chapters is determined.  The
    new ids are the ids that pass the paywall filter after the fetch (the id
    is listed and, under [free_only], its fresh chapter is not premium) and
    did not pass it before; the list holds, for each new id, the chapter
    the media stores under it after the call, one per id, in ascending
    order of [number].  The call returns this list, unless it was asked to
    download and [download_chapter] raises on one of the first [limit]
    chapters of the list: then the call raises the exception of the first
    such download, the chapters before it having been handed over. *)
Theorem update_media_returns_new_chapters (free_only : bool)
    (servers : gmap string Server) (m : MediaData.t) (download : bool)
    (mt : option N) (limit page_limit : option nat) (replace : bool)
    (server : Server) (fetched : Chapters) :
  servers !! MediaData.server_id m = Some server →
  update_media_data server
    (if sync_removed server || replace then MediaData.with_chapters ∅ m else m)
    = Fetched fetched →
  let o := MediaReader.update_media free_only servers m download mt limit page_limit
             replace in
  let passes := λ (chapters : Chapters) (x : string),
    ∃ c, chapters !! x = Some c ∧ (free_only = true → ChapterData.premium c = false) in
  let asked :=
    download && match mt with
                | None => true
                | Some t => bool_decide (N.land t (MediaData.media_type m) ≠ 0%N)
                end in
  let downloads := λ c, ∃ b,
    download_chapter server (MediaReader.upd_media o) c page_limit = Ok b in
  ∃ (new_ids : list string) (new_chapters : list ChapterData.t),
    NoDup new_ids ∧
    (∀ x, x ∈ new_ids ↔ passes fetched x ∧ ¬ passes (MediaData.chapters m) x) ∧
    new_chapters ≡ₚ
      omap (λ x, MediaData.chapters (MediaReader.upd_media o) !! x) new_ids ∧
    length new_chapters = length new_ids ∧
    Sorted (key_le ChapterData.number) new_chapters ∧
    (asked = false →
     MediaReader.upd_result o = Ok new_chapters ∧ MediaReader.upd_downloaded o = []) ∧
    (asked = true →
     let first := match limit with
                  | None => new_chapters
                  | Some n => take n new_chapters
                  end in
     (Forall downloads first →
      MediaReader.upd_result o = Ok new_chapters ∧
      MediaReader.upd_downloaded o = first) ∧
     (∀ handed c rest e,
        first = handed ++ c :: rest → Forall downloads handed →
        download_chapter server (MediaReader.upd_media o) c page_limit = Raise e →
        MediaReader.upd_result o = Raise e ∧
        MediaReader.upd_downloaded o = handed ++ [c])).
Proof.
  intros Hs Hf.
  set (rep := if sync_removed server then true else replace).
  assert (sync_removed server || replace = rep) as Hrep
    by (unfold rep; by destruct (sync_removed server)).
  rewrite Hrep in Hf.
  set (m1 := if rep then MediaData.with_chapters ∅ m else m) in *.
  set (after := if rep
                then MediaData.with_chapters
                       (MediaReader.restore_read (MediaData.getitem_chapters m)
                          (MediaData.getitem_chapters (MediaData.with_chapters fetched m1)))
                       (MediaData.with_chapters fetched m1)
                else MediaData.with_chapters fetched m1).
  set (new_ids := MediaReader.get_chapter_ids free_only
                    (MediaData.getitem_chapters (MediaData.with_chapters fetched m1))
                  ∖ MediaReader.get_chapter_ids free_only (MediaData.getitem_chapters m)).
  assert (dom (MediaData.getitem_chapters after) = dom fetched) as Hdom.
  { unfold after. destruct rep; simpl; [apply restore_read_dom | done]. }
  assert (MediaData.media_type after = MediaData.media_type m) as Hmt
    by (unfold after, m1; by destruct rep).
  destruct (lookup_all_Forall2 (MediaData.getitem_chapters after) (elements new_ids))
    as (cs & Hcs & HF).
  { intros x Hx%elem_of_elements. apply elem_of_dom. rewrite Hdom.
    apply elem_of_difference in Hx as [Hx _].
    by apply get_chapter_ids_subseteq in Hx. }
  assert (length cs = size new_ids) as Hlen.
  { apply Forall2_length in HF. by rewrite <- HF. }
  set (new_chapters := sorted ChapterData.number cs).
  set (asked := download && match mt with
                            | None => true
                            | Some t => bool_decide (N.land t (MediaData.media_type m) ≠ 0%N)
                            end).
  assert (MediaReader.update_media free_only servers m download mt limit page_limit replace
          = if asked
            then let '(handed, res) :=
                   MediaReader.download_each server after page_limit
                     (MediaReader.slice_to limit new_chapters) in
                 MediaReader.mkUpdate after
                   (match res with Ok _ => Ok new_chapters | Raise e => Raise e end)
                   handed
            else MediaReader.mkUpdate after (Ok new_chapters) []) as Hclosed.
  { unfold MediaReader.update_media. rewrite Hs. cbv zeta. fold rep. fold m1.
    rewrite Hf. fold after. fold new_ids. rewrite Hcs. fold new_chapters.
    rewrite bool_decide_eq_true_2 by (unfold new_chapters; by rewrite sorted_length).
    rewrite Hmt. by fold asked. }
  assert (MediaReader.upd_media
            (MediaReader.update_media free_only servers m download mt limit page_limit
               replace) = after) as Hafter.
  { rewrite Hclosed. destruct asked; [|done].
    by destruct (MediaReader.download_each _ _ _ _). }
  cbv zeta. rewrite Hafter. fold asked.
  exists (elements new_ids), new_chapters. split_and!.
  - apply NoDup_elements.
  - intros x. rewrite elem_of_elements. unfold new_ids.
    rewrite elem_of_difference, !elem_of_get_chapter_ids. done.
  - unfold new_chapters. rewrite sorted_perm.
    by rewrite <- (Forall2_lookup_omap _ _ _ HF).
  - unfold new_chapters. by rewrite sorted_length.
  - apply sorted_Sorted.
  - intros Hasked. rewrite Hclosed, Hasked. done.
  - intros Hasked.
    destruct (download_each_spec server after page_limit
                (MediaReader.slice_to limit new_chapters)) as [Hall Hfirst].
    split.
    + intros Hok. rewrite Hclosed, Hasked.
      change (match limit with Some n => take n new_chapters | None => new_chapters end)
        with (MediaReader.slice_to limit new_chapters) in *.
      by rewrite (Hall Hok).
    + intros handed c rest e Heq Hok Hc. rewrite Hclosed, Hasked.
      change (match limit with Some n => take n new_chapters | None => new_chapters end)
        with (MediaReader.slice_to limit new_chapters) in *.
      by rewrite (Hfirst handed c rest e Heq Hok Hc).
Qed.

(** Under [free_only], a stored media whose chapter 2 was premium,
    reconciled against a listing in which chapter 2 is free and a new
    chapter 3 is premium: chapter 2 is the only new one. *)
Lemma update_media_returns_new_chapters_witness :
  ∃ (new_ids : list string) (new_chapters : list ChapterData.t),
    ("2" ∈ new_ids) ∧ ("1" ∉ new_ids) ∧ ("3" ∉ new_ids) ∧
    length new_chapters = length new_ids ∧
    MediaReader.upd_result
      (MediaReader.update_media true {[ "server" := Samples.server_paywall ]}
         Samples.paywalled_item false None None None false)
    = Ok new_chapters.
Proof.
  destruct (update_media_returns_new_chapters true {[ "server" := Samples.server_paywall ]}
              Samples.paywalled_item false None None None false Samples.server_paywall
              Samples.listing_paywall)
    as (new_ids & new_chapters & _ & Hin & _ & Hlen & _ & Hres & _);
    [reflexivity | reflexivity |].
  exists new_ids, new_chapters. split_and!.
  - apply Hin. split.
    + exists (Samples.chapter "2" 2 false false). split; [reflexivity | done].
    + intros (c & Hc & Hp). vm_compute in Hc. injection Hc as <-.
      specialize (Hp eq_refl). discriminate Hp.
  - intros [_ Hnot]%Hin. apply Hnot.
    exists (Samples.chapter "1" 1 true false). split; [reflexivity | done].
  - intros [(c & Hc & Hp) _]%Hin. vm_compute in Hc. injection Hc as <-.
    specialize (Hp eq_refl). discriminate Hp.
  - exact Hlen.
  - by destruct (Hres eq_refl) as [-> _].
Defined.

(* ================================================================== *)
(** * The catalog: [add_media]                                         *)
(* ================================================================== *)

(** C10. [add_media] on a media whose global id is already a key of the
    catalog raises [ValueError] and leaves the reader as it was; on a media
    whose global id is free it stores the object under exactly that key and
    touches no other key.  The stored object is the media itself, reconciled
    in place unless [no_update] is set, which does not change its global
    id. *)
Theorem add_media_keyed_by_global_id (r : MediaReader.t) (m : MediaData.t)
    (no_update : bool) :
  (MediaData.global_id m ∈ dom (MediaReader.media r) →
     MediaReader.add_media m no_update r = (r, Raise ValueError)) ∧
  (MediaData.global_id m ∉ dom (MediaReader.media r) →
     ∃ m',
       MediaReader.media (MediaReader.add_media m no_update r).1
         = <[MediaData.global_id m := m']> (MediaReader.media r) ∧
       MediaData.global_id m' = MediaData.global_id m ∧
       m' = if no_update then m
            else MediaReader.upd_media
                   (MediaReader.update_media (MediaReader.free_only r)
                      (MediaReader._servers r) m false None None None false)).
Proof.
  unfold MediaReader.add_media, MediaReader.bind, MediaReader.get,
    MediaReader.raise, MediaReader.modify_media, MediaReader.ret. split.
  - intros Hin. by rewrite bool_decide_eq_true_2.
  - intros Hnin. rewrite bool_decide_eq_false_2 by done. destruct no_update; simpl.
    + exists m. by split_and!.
    + unfold MediaReader.update_media_at. simpl. rewrite lookup_insert_eq. simpl.
      eexists. split_and!; [by rewrite insert_insert_eq | | reflexivity].
      apply update_media_frame.
Qed.

(* ================================================================== *)
(** * User-owned fields                                                *)
(* ================================================================== *)

Lemma copy_fields_to_Some (old new : MediaData.t) :
  ∃ new', MediaData.copy_fields_to old (Some new) = Ok new' ∧
          MediaData.user_fields new' = MediaData.user_fields old ∧
          MediaData.global_id new' = MediaData.global_id new ∧
          MediaData.name new' = MediaData.name new ∧
          MediaData.chapters new' = MediaData.chapters new.
Proof. eexists. by split_and!. Qed.

Lemma mark_chapters_frame (m : MediaData.t) (n : Qc) (force : bool) :
  MediaData.user_fields (MediaReader.mark_chapters_until_n_as_read m n force)
    = MediaData.user_fields m ∧
  MediaData.global_id (MediaReader.mark_chapters_until_n_as_read m n force)
    = MediaData.global_id m.
Proof. done. Qed.

(* ================================================================== *)
(** * Migration                                                        *)
(* ================================================================== *)

Ltac unfold_M :=
  unfold MediaReader.bind, MediaReader.ret, MediaReader.raise, MediaReader.lift,
    MediaReader.get, MediaReader.modify_media in *.

#[local] Instance keeps_user_fields_preorder : PreOrder keeps_user_fields.
Proof.
  split.
  - intros md k m Hk. by exists m.
  - intros md1 md2 md3 H12 H23 k m Hk.
    destruct (H12 k m Hk) as (m2 & Hk2 & Hu2 & Hg2).
    destruct (H23 k m2 Hk2) as (m3 & Hk3 & Hu3 & Hg3).
    exists m3. split_and!; [done|congruence..].
Qed.

Lemma keeps_user_fields_insert (md : gmap string MediaData.t) (k : string)
    (m m' : MediaData.t) :
  md !! k = Some m →
  MediaData.user_fields m' = MediaData.user_fields m →
  MediaData.global_id m' = MediaData.global_id m →
  keeps_user_fields md (<[k := m']> md).
Proof.
  intros Hk Hu Hg k0 m0 Hk0. destruct (decide (k = k0)) as [->|Hne].
  - exists m'. rewrite lookup_insert_eq. split_and!; congruence.
  - exists m0. by rewrite lookup_insert_ne.
Qed.

Lemma keeps_user_fields_fresh (md : gmap string MediaData.t) (k : string)
    (m' : MediaData.t) :
  md !! k = None → keeps_user_fields md (<[k := m']> md).
Proof.
  intros Hk k0 m0 Hk0. exists m0. rewrite lookup_insert_ne by congruence. done.
Qed.

Lemma update_media_at_media (k : string) (r : MediaReader.t) :
  (MediaReader.media r !! k = None ∧ (MediaReader.update_media_at k r).1 = r) ∨
  (∃ m m', MediaReader.media r !! k = Some m ∧
           MediaReader.media (MediaReader.update_media_at k r).1
             = <[k := m']> (MediaReader.media r) ∧
           MediaData.user_fields m' = MediaData.user_fields m ∧
           MediaData.global_id m' = MediaData.global_id m).
Proof.
  unfold MediaReader.update_media_at.
  destruct (MediaReader.media r !! k) as [m|] eqn:Hk; [right|by left].
  eexists m, _. split_and!; [done | done | apply update_media_frame..].
Qed.

Lemma update_media_at_keeps (k : string) (r : MediaReader.t) :
  keeps_user_fields (MediaReader.media r)
                    (MediaReader.media (MediaReader.update_media_at k r).1).
Proof.
  destruct (update_media_at_media k r) as [[_ ->]|(m & m' & Hk & -> & Hu & Hg)]; [done|].
  by eapply keeps_user_fields_insert.
Qed.

Lemma for_each_update_media_keeps (keys : list string) (r : MediaReader.t) :
  (MediaReader.for_each_update_media keys r).2 = Ok tt ∧
  keeps_user_fields (MediaReader.media r)
    (MediaReader.media (MediaReader.for_each_update_media keys r).1).
Proof.
  revert r. induction keys as [|k keys IH]; intros r; simpl; [by split|].
  destruct (IH (MediaReader.update_media_at k r).1) as [Hok Hkeep].
  split; [done|]. etrans; [apply update_media_at_keeps | done].
Qed.

Lemma mark_loop_keeps (new : option string) (pairs : list (string * Qc))
    (r : MediaReader.t) :
  keeps_user_fields (MediaReader.media r)
    (MediaReader.media (MediaReader.mark_loop new pairs r).1).
Proof.
  revert r. induction pairs as [|[k n] pairs IH]; intros r; simpl; [done|].
  destruct new as [g|]; [|done]. unfold_M. simpl.
  etrans; [|apply IH]. simpl. intros k0 m0 Hk0.
  destruct (decide (g = k0)) as [->|Hne].
  - rewrite lookup_alter_eq, Hk0. simpl. eexists. split; [done|]. apply mark_chapters_frame.
  - rewrite lookup_alter_ne by done. by exists m0.
Qed.

Lemma add_media_outcome (m : MediaData.t) (r r' : MediaReader.t)
    (res : list ChapterData.t) :
  MediaReader.add_media m false r = (r', Ok res) →
  MediaReader.media r !! MediaData.global_id m = None ∧
  ∃ m', MediaReader.media r' = <[MediaData.global_id m := m']> (MediaReader.media r) ∧
        MediaData.global_id m' = MediaData.global_id m.
Proof.
  unfold MediaReader.add_media. unfold_M. case_bool_decide as Hin; [done|].
  intros Heq. split; [by apply not_elem_of_dom|].
  unfold MediaReader.update_media_at in Heq. simpl in Heq.
  rewrite lookup_insert_eq in Heq. injection Heq as <- _. simpl.
  eexists. split; [by rewrite insert_insert_eq|]. apply update_media_frame.
Qed.

Lemma search_add_outcome (term : string) (server_id : option string)
    (media_type : option N) (exact : bool) (excl : list string)
    (media_id : option string) (sf : option (MediaData.t → Qc))
    (r r' : MediaReader.t) (res : option string) :
  MediaReader.search_add term server_id media_type exact excl media_id sf r = (r', Ok res) →
  (res = None ∧ r' = r) ∨
  (∃ g m', res = Some g ∧ MediaReader.media r !! g = None ∧
           MediaReader.media r' = <[g := m']> (MediaReader.media r) ∧
           MediaData.global_id m' = g).
Proof.
  unfold MediaReader.search_add. unfold_M.
  destruct (MediaReader.search_for_media r term server_id media_type exact excl)
    as [results|e]; [|done].
  case_bool_decide; [intros [= <- <-]; by left|].
  destruct (MediaReader.select_media r term _) as [m|]; [|intros [= <- <-]; by left].
  destruct (MediaReader.add_media m false r) as [r1 [res1|e]] eqn:Hadd; [|done].
  intros [= <- <-]. right.
  destruct (add_media_outcome _ _ _ _ Hadd) as (Hfresh & m' & Hmd & Hg).
  by exists (MediaData.global_id m), m'.
Qed.

Lemma remove_media_outcome (old : MediaData.t) (r r' : MediaReader.t) :
  MediaReader.remove_media old r = (r', Ok tt) →
  MediaReader.media r' = delete (MediaData.global_id old) (MediaReader.media r).
Proof.
  unfold MediaReader.remove_media. unfold_M. case_bool_decide; [|done].
  by intros [= <-].
Qed.

Lemma copy_fields_to_ref_outcome (old : MediaData.t) (new : option string)
    (r r' : MediaReader.t) :
  MediaReader.copy_fields_to_ref old new r = (r', Ok tt) →
  ∃ g cur d, new = Some g ∧ MediaReader.media r !! g = Some cur ∧
             MediaReader.media r' = <[g := d]> (MediaReader.media r) ∧
             MediaData.user_fields d = MediaData.user_fields old ∧
             MediaData.global_id d = MediaData.global_id cur.
Proof.
  unfold MediaReader.copy_fields_to_ref. unfold_M.
  destruct new as [g|]; simpl; [|done].
  destruct (MediaReader.media r !! g) as [cur|] eqn:Hg; simpl; [|done].
  intros [= <-]. by eexists g, cur, _.
Qed.

(** One successful iteration of the first loop of [migrate]: the old object
    has left the catalog, and a new object holding its user-owned fields is
    stored under a key that was free, its global id. *)
Lemma migrate_step_outcome (exact move_self force_same_id : bool)
    (vars vars' : MediaReader.MigrateVars) (old : MediaData.t)
    (r r' : MediaReader.t) :
  MediaReader.migrate_step exact move_self force_same_id vars old r = (r', Ok vars') →
  ∃ g d,
    delete (MediaData.global_id old) (MediaReader.media r) !! g = None ∧
    MediaReader.media r'
      = <[g := d]> (delete (MediaData.global_id old) (MediaReader.media r)) ∧
    MediaData.user_fields d = MediaData.user_fields old ∧
    MediaData.global_id d = g ∧
    MediaReader.media_list vars' = MediaReader.media_list vars ++ [g] ∧
    MediaReader.new_media_data vars' = Some g.
Proof.
  unfold MediaReader.migrate_step.
  unfold MediaReader.bind at 1.
  destruct (MediaReader.remove_media old r) as [r1 [[]|e]] eqn:Hrm; [|done].
  apply remove_media_outcome in Hrm.
  unfold MediaReader.bind at 1.
  match goal with |- context [(if move_self then ?a else ?b) r1] =>
    destruct ((if move_self then a else b) r1) as [r2 [new|e]] eqn:Hsa end; [|done].
  assert ((new = None ∧ r2 = r1) ∨
          (∃ g m', new = Some g ∧ MediaReader.media r1 !! g = None ∧
                   MediaReader.media r2 = <[g := m']> (MediaReader.media r1) ∧
                   MediaData.global_id m' = g)) as Hsearch.
  { destruct move_self; by eapply search_add_outcome. }
  unfold MediaReader.bind at 1.
  destruct (MediaReader.copy_fields_to_ref old new r2) as [r3 [[]|e]] eqn:Hcp; [|done].
  apply copy_fields_to_ref_outcome in Hcp as (g & cur & d & -> & Hcur & Hmd3 & Hu & Hg).
  destruct Hsearch as [[? _]|(g' & m' & [= <-] & Hfresh & Hmd2 & Hg')]; [done|].
  unfold_M. destruct (MediaData.get_last_read old) as [lr|e]; [|done].
  intros [= <- <-]. simpl. exists g, d.
  rewrite Hmd2, lookup_insert_eq in Hcur. injection Hcur as <-.
  rewrite Hmd3, Hmd2, Hrm, insert_insert_eq. rewrite Hrm in Hfresh.
  split_and!; [done | done | done | congruence | done | done].
Qed.

Lemma holds_fields_of_keeps (md md' : gmap string MediaData.t)
    (kr : string * MediaData.t) :
  keeps_user_fields md md' → holds_fields_of md kr → holds_fields_of md' kr.
Proof.
  intros Hkeep (new & Hk & Hu & Hg).
  destruct (Hkeep _ _ Hk) as (new' & Hk' & Hu' & Hg').
  exists new'. split_and!; [done|congruence..].
Qed.

(** The first loop of [migrate], when it runs to its end: it appends one
    key per media processed, and the objects under these keys hold the
    user-owned fields of the media they replace; whatever was known to hold
    before of objects that are not to be processed still holds. *)
Lemma migrate_loop_outcome (exact move_self force_same_id : bool)
    (todo : list MediaData.t) :
  ∀ (vars vars' : MediaReader.MigrateVars) (r r' : MediaReader.t)
    (known : list (string * MediaData.t)),
  MediaReader.migrate_loop exact move_self force_same_id vars todo r = (r', Ok vars') →
  NoDup (MediaData.global_id <$> todo) →
  (∀ old, old ∈ todo → is_Some (MediaReader.media r !! MediaData.global_id old)) →
  Forall (holds_fields_of (MediaReader.media r)) known →
  (∀ kr old, kr ∈ known → old ∈ todo → MediaData.global_id old ≠ kr.1) →
  ∃ keys,
    MediaReader.media_list vars' = MediaReader.media_list vars ++ keys ∧
    length keys = length todo ∧
    Forall (holds_fields_of (MediaReader.media r')) (known ++ zip keys todo) ∧
    (todo ≠ [] → MediaReader.new_media_data vars' = list.last keys).
Proof.
  induction todo as [|old todo IH]; intros vars vars' r r' known Hloop Hnd Hdom Hknown Hsep.
  - injection Hloop as <- <-. exists []. rewrite !app_nil_r. by split_and!.
  - simpl in Hloop. unfold MediaReader.bind in Hloop.
    destruct (MediaReader.migrate_step exact move_self force_same_id vars old r)
      as [r1 [vars1|e]] eqn:Hstep; [|done].
    apply migrate_step_outcome in Hstep as (g & d & Hfresh & Hmd & Hu & Hg & Hlist & Hnew).
    rewrite fmap_cons in Hnd. apply list.NoDup_cons in Hnd as [Hhd Hnd].
    assert (∀ old', old' ∈ todo → MediaData.global_id old' ≠ MediaData.global_id old) as Hother.
    { intros old' Hin Heq. apply Hhd. rewrite <- Heq. by apply list_elem_of_fmap_2. }
    assert (∀ old', old' ∈ todo →
              is_Some (delete (MediaData.global_id old) (MediaReader.media r)
                         !! MediaData.global_id old')) as Hdom'.
    { intros old' Hin. rewrite lookup_delete_ne by (symmetry; by apply Hother).
      apply Hdom. by right. }
    destruct (IH vars1 vars' r1 r' (known ++ [(g, old)]) Hloop Hnd)
      as (keys & Hlist' & Hlen & Hall & Hlast).
    + intros old' Hin. rewrite Hmd.
      destruct (decide (g = MediaData.global_id old')) as [->|Hne].
      * rewrite lookup_insert_eq. by eexists.
      * rewrite lookup_insert_ne by done. by apply Hdom'.
    + apply Forall_app. split.
      * apply list.Forall_forall. intros [k o] Hin.
        destruct (proj1 (list.Forall_forall _ _) Hknown _ Hin) as (new & Hk & Hu' & Hg').
        simpl in *. exists new. split_and!; [|done..]. rewrite Hmd.
        assert (MediaData.global_id old ≠ k) as Hko by (apply (Hsep (k, o)); [done|left]).
        assert (g ≠ k) as Hgk.
        { intros ->. rewrite lookup_delete_ne in Hfresh by done. congruence. }
        by rewrite lookup_insert_ne, lookup_delete_ne.
      * apply Forall_singleton. exists d. simpl. rewrite Hmd, lookup_insert_eq.
        by split_and!.
    + intros kr old' [Hin|Hin%list_elem_of_singleton]%elem_of_app Hin'.
      * apply Hsep; [done|by right].
      * subst kr. simpl. intros Heq. destruct (Hdom' old' Hin') as [x Hx].
        rewrite Heq in Hx. congruence.
    + exists (g :: keys). rewrite Hlist', Hlist, <- app_assoc. simpl.
      split_and!; [done | by rewrite Hlen | by rewrite <- app_assoc in Hall |].
      intros _. destruct todo as [|old2 todo].
      * destruct keys; [|done]. simpl in Hloop. injection Hloop as _ <-. done.
      * rewrite Hlast by done. destruct keys; [done|]. done.
Qed.

Lemma get_media_keyed (r : MediaReader.t) (media_type : option N)
    (name : option string) (k : string) (m : MediaData.t) :
  (k, m) ∈ MediaReader.get_media r media_type name → MediaReader.media r !! k = Some m.
Proof.
  unfold MediaReader.get_media. intros [_ Hin]%list_elem_of_filter.
  by apply elem_of_map_to_list.
Qed.

Lemma get_media_NoDup (r : MediaReader.t) (media_type : option N) (name : option string) :
  keyed_by_global_id (MediaReader.media r) →
  NoDup (MediaData.global_id <$> (MediaReader.get_media r media_type name).*2).
Proof.
  intros Hkeyed.
  assert (MediaData.global_id <$> (MediaReader.get_media r media_type name).*2
          = (MediaReader.get_media r media_type name).*1) as ->.
  { rewrite <- list_fmap_compose. apply list_fmap_ext.
    intros i [k m] Hi. simpl. apply Hkeyed.
    eapply get_media_keyed, list_elem_of_lookup_2, Hi. }
  apply (sublist_NoDup _ (map_to_list (MediaReader.media r)).*1);
    [apply NoDup_fst_map_to_list|].
  apply fmap_sublist, sublist_filter.
Qed.

(** A migration that runs to its end: every media it processed has a
    replacement in the catalog that holds its user-owned fields, and every
    media it did not select is still there with its own. *)
Lemma migrate_outcome (name : option string) (exact move_self force_same_id : bool)
    (r r' : MediaReader.t) :
  keyed_by_global_id (MediaReader.media r) →
  MediaReader.migrate name exact move_self force_same_id r = (r', Ok tt) →
  (∃ keys,
     length keys = length (MediaReader.get_media r None name) ∧
     Forall (holds_fields_of (MediaReader.media r'))
            (zip keys (MediaReader.get_media r None name).*2)) ∧
  (∀ k m, MediaReader.media r !! k = Some m →
          (k, m) ∉ MediaReader.get_media r None name →
          holds_fields_of (MediaReader.media r') (k, m)).
Proof.
  intros Hkeyed. unfold MediaReader.migrate.
  unfold MediaReader.bind at 1. unfold MediaReader.get at 1.
  unfold MediaReader.bind at 1.
  set (olds := (MediaReader.get_media r None name).*2).
  set (known := filter (λ km, km ∉ MediaReader.get_media r None name)
                       (map_to_list (MediaReader.media r))).
  destruct (MediaReader.migrate_loop exact move_self force_same_id
              (MediaReader.mkVars [] [] None) olds r) as [r1 [vars|e]] eqn:Hloop; [|done].
  destruct (migrate_loop_outcome _ _ _ olds _ _ _ _ known Hloop)
    as (keys & Hlist & Hlen & Hall & _).
  - by apply get_media_NoDup.
  - intros old [[k o] [-> Hin]]%list_elem_of_fmap. simpl.
    apply get_media_keyed in Hin. rewrite (Hkeyed _ _ Hin). by eexists.
  - apply list.Forall_forall. intros [k m] [_ Hin%elem_of_map_to_list]%list_elem_of_filter.
    exists m. split_and!; [done | done | by apply Hkeyed].
  - intros [k m] old [Hnot Hin%elem_of_map_to_list]%list_elem_of_filter
      [[k' o] [-> Hin']]%list_elem_of_fmap. simpl. intros Heq.
    apply Hnot. pose proof (get_media_keyed _ _ _ _ _ Hin') as Hk'.
    rewrite (Hkeyed _ _ Hk') in Heq. subst k'.
    assert (o = m) as -> by congruence. done.
  - unfold MediaReader.bind at 1.
    pose proof (for_each_update_media_keeps (MediaReader.media_list vars) r1) as [Hok Hkeep1].
    destruct (MediaReader.for_each_update_media (MediaReader.media_list vars) r1)
      as [r2 res2]. simpl in Hok, Hkeep1. subst res2.
    intros Hmark.
    pose proof (mark_loop_keeps (MediaReader.new_media_data vars)
                  (zip (MediaReader.media_list vars) (MediaReader.last_read_list vars)) r2)
      as Hkeep2.
    rewrite Hmark in Hkeep2. simpl in Hkeep2.
    assert (Forall (holds_fields_of (MediaReader.media r')) (known ++ zip keys olds)) as Hfinal.
    { eapply list.Forall_impl; [exact Hall|]. intros kr Hkr.
      eapply holds_fields_of_keeps; [exact Hkeep2|].
      eapply holds_fields_of_keeps; [exact Hkeep1|done]. }
    apply Forall_app in Hfinal as [Hknown Hnew]. split.
    + exists keys. split; [|done]. rewrite Hlen. unfold olds. by rewrite length_fmap.
    + intros k m Hk Hnot.
      apply (proj1 (list.Forall_forall _ _) Hknown (k, m)).
      apply list_elem_of_filter. split; [done|]. by apply elem_of_map_to_list.
Qed.

(** C6. ["alpha"] carries an offset, a progress and a tracker link.  It
    is migrated to a provider that has the title but whose listing cannot
    be fetched.  [migrate] has removed ["alpha"] when [search_add] adds the
    candidate, and [add_media] reconciles the candidate at once: the fetch
    raises, the exception leaves [migrate] before [copy_fields_to] is
    reached, and the catalog is left with the candidate alone, whose four
    user-owned fields are the defaults.  The offset, the progress and the
    tracker link of ["alpha"] are in no media of the catalog any more.
    Against a provider whose listing can be fetched the same call runs to
    its end and the replacement holds the four fields of ["alpha"]. *)
Theorem migrate_failed_fetch_loses_user_fields :
  let out := MediaReader.migrate (Some "alpha") false false false
               Samples.failing_reader in
  let done := MediaReader.migrate (Some "alpha") false false false
                Samples.tracked_reader in
  MediaReader.media Samples.failing_reader = {[ "old:a" := Samples.tracked_alpha ]} ∧
  MediaData.user_fields Samples.tracked_alpha
    = (of_Z 1, of_Z 2, None, {[ "tracker" := (7%Z, Some "alpha") ]}) ∧
  out.2 = Raise (FetchError "timeout") ∧
  MediaData.user_fields <$> MediaReader.media out.1
    = {[ "new:alpha" := (0%Qc, 0%Qc, None, ∅) ]} ∧
  done.2 = Ok tt ∧
  MediaData.user_fields <$> MediaReader.media done.1
    = {[ "new:alpha" := MediaData.user_fields Samples.tracked_alpha ]}.
Proof.
  cbv zeta. split_and!.
  - reflexivity.
  - reflexivity.
  - vm_compute. reflexivity.
  - apply (bool_decide_unpack _). vm_compute. exact I.
  - vm_compute. reflexivity.
  - apply (bool_decide_unpack _). vm_compute. exact I.
Qed.

(** C3. Two media are migrated to another provider that lists the chapters
    1, 2 and 3 for each: ["alpha"], read up to 2, and ["beta"], read up to
    1.  The migration runs to its end; the replacement of ["alpha"] has no
    chapter marked read, and the replacement of ["beta"], the last media
    processed, has the chapters 1 and 2 marked read: it has received the
    read positions of both. *)
Theorem migrate_marks_only_the_last_replacement :
  let r' := (MediaReader.migrate None false false false Samples.migrating_reader).1 in
  (MediaReader.migrate None false false false Samples.migrating_reader).2 = Ok tt ∧
  MediaData.get_last_read Samples.alpha = Ok (of_Z 2) ∧
  MediaData.get_last_read Samples.beta = Ok (of_Z 1) ∧
  Samples.read_flags r' "new:alpha"
    = Some {[ "1" := false; "2" := false; "3" := false ]} ∧
  Samples.read_flags r' "new:beta"
    = Some {[ "1" := true; "2" := true; "3" := false ]}.
Proof. vm_compute. by split_and!. Qed.

(** C7. The same two media are migrated while no provider has a
    replacement for either.  ["alpha"], the first media processed, has left
    the catalog and nothing replaces it; the call does not go on to
    ["beta"], which is still in the catalog: it ends with the [TypeError]
    that [copy_fields_to] raises on [None]. *)
Theorem migrate_without_candidate_raises :
  let out := MediaReader.migrate None false false false Samples.stranded_reader in
  out.2 = Raise TypeError ∧
  MediaReader.media out.1 = {[ "old:b" := Samples.beta ]}.
Proof. vm_compute. by split. Qed.

(* ================================================================== *)
(** * Pushing progress: [sync_progress]                                *)
(* ================================================================== *)

Lemma get_last_read_total (m : MediaData.t) :
  MediaData.get_last_read m = Ok (last_read_number m).
Proof.
  unfold last_read_number, MediaData.get_last_read.
  by destruct (filter _ _).
Qed.

Lemma stage_closed (tracker_id : string) (force : bool) (media_type : option N)
    (m : MediaData.t) :
  MediaReader.stage tracker_id force media_type m
  = Ok (staged_update tracker_id force media_type m,
        pushed tracker_id force media_type m).
Proof.
  unfold MediaReader.stage, staged_update, pushed, push_due.
  rewrite get_last_read_total.
  destruct (match media_type with
            | Some mt => bool_decide (mt = 0%N) || bool_decide (MediaData.media_type m = mt)
            | None => true
            end); simpl; [|done].
  destruct (MediaReader.get_tracker_info m tracker_id) as [info|] eqn:Hinfo; simpl.
  - by destruct (force || bool_decide _).
  - done.
Qed.

Lemma filter_all {A} (P : A → Prop) `{∀ x, Decision (P x)} (l : list A) :
  (∀ x, P x) → filter P l = l.
Proof.
  intros HP. induction l as [|x l IH]; [done|].
  rewrite filter_cons_True by done. by rewrite IH.
Qed.

Lemma get_media_all (r : MediaReader.t) :
  MediaReader.get_media r None None = map_to_list (MediaReader.media r).
Proof. unfold MediaReader.get_media. by apply filter_all. Qed.

Lemma with_media_twice (a b : gmap string MediaData.t) (r : MediaReader.t) :
  MediaReader.with_media a (MediaReader.with_media b r) = MediaReader.with_media a r.
Proof. done. Qed.

Lemma media_with_media (a : gmap string MediaData.t) (r : MediaReader.t) :
  MediaReader.media (MediaReader.with_media a r) = a.
Proof. done. Qed.

Lemma stage_all_closed (tracker_id : string) (force : bool) (media_type : option N)
    (todo : list (string * MediaData.t)) :
  ∀ (data : list TrackerUpdate) (r : MediaReader.t),
  NoDup todo.*1 →
  MediaReader.stage_all tracker_id force media_type todo data r
  = (MediaReader.with_media
       (list_to_map (prod_map id (pushed tracker_id force media_type) <$> todo)
        ∪ MediaReader.media r) r,
     Ok (data ++ omap (staged_update tracker_id force media_type) todo.*2)).
Proof.
  induction todo as [|[k m] todo IH]; intros data r Hnd.
  - simpl. unfold MediaReader.ret. rewrite app_nil_r.
    rewrite (left_id_L ∅ (∪)). by destruct r.
  - rewrite fmap_cons in Hnd. apply list.NoDup_cons in Hnd as [Hk Hnd].
    cbn [MediaReader.stage_all]. unfold MediaReader.bind at 1.
    unfold MediaReader.lift at 1. rewrite stage_closed.
    unfold MediaReader.bind at 1. unfold MediaReader.modify_media at 1.
    cbn [fst snd]. rewrite IH by done.
    rewrite with_media_twice, media_with_media. f_equal.
    + f_equal. rewrite fmap_cons. cbn [prod_map id fst snd list_to_map foldr uncurry].
      rewrite <- insert_union_l. rewrite insert_union_r; [done|].
      apply not_elem_of_list_to_map_1.
      assert ((prod_map id (pushed tracker_id force media_type) <$> todo).*1 = todo.*1)
        as ->; [|done].
      rewrite <- list_fmap_compose. apply list_fmap_ext. by intros ? [].
    + rewrite <- app_assoc. do 2 f_equal. rewrite fmap_cons. cbn [snd omap list_omap].
      by destruct (staged_update tracker_id force media_type m).
Qed.

Lemma sync_progress_closed (force : bool) (media_type : option N) (dry_run : bool)
    (r : MediaReader.t) :
  let tracker := MediaReader.primary_tracker r in
  let data := omap (staged_update (trk_id tracker) force media_type)
                   (values (MediaReader.media r)) in
  MediaReader.sync_progress force media_type dry_run r
  = (MediaReader.with_media
       (pushed (trk_id tracker) force media_type <$> MediaReader.media r) r,
     if bool_decide (data ≠ []) && negb dry_run
     then match trk_update tracker data with
          | Ok _ => Ok true
          | Raise e => Raise e
          end
     else Ok (bool_decide (data ≠ []))).
Proof.
  cbv zeta. unfold MediaReader.sync_progress.
  unfold MediaReader.bind at 1. unfold MediaReader.get at 1.
  unfold MediaReader.bind at 1.
  rewrite get_media_all, stage_all_closed by apply NoDup_fst_map_to_list.
  rewrite list_to_map_fmap, list_to_map_to_list.
  set (tracker := MediaReader.primary_tracker r).
  assert ((pushed (trk_id tracker) force media_type <$> MediaReader.media r)
          ∪ MediaReader.media r
          = pushed (trk_id tracker) force media_type <$> MediaReader.media r) as ->.
  { apply map_eq. intros k. rewrite lookup_union, lookup_fmap.
    by destruct (MediaReader.media r !! k). }
  rewrite !app_nil_l. fold (values (MediaReader.media r)).
  set (data := omap (staged_update (trk_id tracker) force media_type)
                    (values (MediaReader.media r))).
  unfold_M. destruct (bool_decide (data ≠ []) && negb dry_run) eqn:Hgo; [|done].
  apply andb_prop in Hgo as [Hne _]. rewrite Hne.
  by destruct (trk_update tracker data) as [[]|e].
Qed.

(** C8, as stated, fails.  A media linked to the primary tracker, with
    progress 5 and its chapter 5.5 read, has a last read number that exceeds
    its stored progress; [sync_progress] stages nothing for it and leaves
    its progress at 5, because it compares the progress with
    [int(5.5) = 5]. *)
Lemma sync_progress_skips_fractional_advance :
  last_read_number Samples.half_chapter = Q2Qc (11 # 2) ∧
  MediaData.progress Samples.half_chapter = of_Z 5 ∧
  spec_push_due "tracker" false Samples.half_chapter = true ∧
  MediaReader.stage "tracker" false None Samples.half_chapter
    = Ok (None, Samples.half_chapter) ∧
  (MediaReader.sync_progress false None false Samples.half_reader).2 = Ok false ∧
  MediaReader.media (MediaReader.sync_progress false None false Samples.half_reader).1
    = MediaReader.media Samples.half_reader.
Proof. vm_compute. by split_and!. Qed.

(** C8, amended.  [sync_progress] stages the tuple (tracking id, last read
    number, progressVolumes) for exactly the media of the selected type that
    are linked to the primary tracker and whose stored progress is below the
    integer part of their last read number, or for every such linked media
    when [force] is set; it sets the progress of each staged media to its
    last read number and leaves the other media as they are.  The tracker is
    called afterwards, when something was staged and [dry_run] is off, and
    whatever the call returns or raises, the catalog is the one with the
    progress already set. *)
Theorem sync_progress_stages_due_media (force : bool) (media_type : option N)
    (dry_run : bool) (r : MediaReader.t) :
  let tracker := MediaReader.primary_tracker r in
  let data := omap (staged_update (trk_id tracker) force media_type)
                   (values (MediaReader.media r)) in
  MediaReader.media (MediaReader.sync_progress force media_type dry_run r).1
    = pushed (trk_id tracker) force media_type <$> MediaReader.media r ∧
  (MediaReader.sync_progress force media_type dry_run r).2
    = (if bool_decide (data ≠ []) && negb dry_run
       then match trk_update tracker data with
            | Ok _ => Ok true
            | Raise e => Raise e
            end
       else Ok (bool_decide (data ≠ []))) ∧
  (∀ m, staged_update (trk_id tracker) force media_type m
        = if push_due (trk_id tracker) force media_type m
          then (λ info : Z * option string,
                  (info.1, last_read_number m, MediaData.progressVolumes m))
                 <$> MediaData.trackers m !! trk_id tracker
          else None) ∧
  (∀ m, push_due (trk_id tracker) force None m
        = bool_decide (is_Some (MediaData.trackers m !! trk_id tracker))
          && (force || bool_decide (MediaData.progress m
                                     < of_Z (py_int (last_read_number m)))%Qc)) ∧
  (∀ m, MediaData.get_last_read m = Ok (last_read_number m)).
Proof.
  cbv zeta. rewrite sync_progress_closed. split_and!; [done..|].
  apply get_last_read_total.
Qed.

(** The tracker cannot be reached: [sync_progress] raises, and the progress
    of the staged media has moved from 0 to its last read number, 2. *)
Lemma sync_progress_unreachable_tracker :
  (MediaReader.sync_progress false None false Samples.unreachable_reader).2
    = Raise (FetchError "tracker") ∧
  MediaData.progress <$>
    MediaReader.media (MediaReader.sync_progress false None false Samples.unreachable_reader).1
    = {[ "old:a" := of_Z 2 ]}.
Proof. vm_compute. by split. Qed.

(* ================================================================== *)
(** * Persistence: change-only writes                                  *)
(* ================================================================== *)

Section PersistenceFacts.

Context (hash : string → Z).
Context `{!State.Json State.Bundles, !State.Json State.IndexDoc, !State.Json Chapters}.
Context {Cookies : Type}.
Context (cookies_str : Cookies → string).
Context (load_cookies : string → Cookies → Cookies).
Context (cookie_lines : Cookies → string).

Implicit Types st : @State.t Cookies.

Lemma write_if_changed_skip st (f : string) (h : Z) (text : string) :
  default 0%Z (State.hashes st !! f) = h →
  State.write_if_changed st f h text = (st, false).
Proof. intros Heq. unfold State.write_if_changed. by rewrite bool_decide_eq_true_2. Qed.

Lemma write_if_changed_written st (f : string) (h : Z) (text : string) :
  default 0%Z (State.hashes st !! f) ≠ h → f ∉ State.no_dir (State.disk st) →
  (State.write_if_changed st f h text).2 = true ∧
  State.writes (State.write_if_changed st f h text).1 = State.writes st ++ [f] ∧
  State.files (State.disk (State.write_if_changed st f h text).1) !! f = Some text ∧
  State.hashes (State.write_if_changed st f h text).1 !! f = Some h.
Proof.
  intros Hne Hdir. unfold State.write_if_changed, State.write_file.
  rewrite bool_decide_eq_false_2 by done. simpl.
  rewrite bool_decide_eq_false_2 by done. simpl.
  by rewrite !lookup_insert_eq.
Qed.

Lemma write_if_changed_result st (f : string) (h : Z) (text : string) :
  (State.write_if_changed st f h text).2 = true ∧
    default 0%Z (State.hashes st !! f) ≠ h ∧
    State.writes (State.write_if_changed st f h text).1 = State.writes st ++ [f]
  ∨
  (State.write_if_changed st f h text).2 = false ∧
    State.writes (State.write_if_changed st f h text).1 = State.writes st ∧
    State.disk (State.write_if_changed st f h text).1 = State.disk st.
Proof.
  unfold State.write_if_changed, State.write_file.
  case_bool_decide as Hh; [by right|]. simpl. case_bool_decide; simpl; [by right|by left].
Qed.

Lemma write_if_changed_frame st (f : string) (h : Z) (text : string) :
  let st' := (State.write_if_changed st f h text).1 in
  State.settings st' = State.settings st ∧
  State.cookies st' = State.cookies st ∧
  State.bundles st' = State.bundles st ∧
  State.all_media st' = State.all_media st ∧
  State.cookie_hash st' = State.cookie_hash st ∧
  default 0%Z (State.hashes st' !! f) = h ∧
  ∀ f', f' ≠ f → State.hashes st' !! f' = State.hashes st !! f'.
Proof.
  unfold State.write_if_changed, State.write_file.
  case_bool_decide as Hh; simpl; [by split_and!|].
  case_bool_decide; simpl; rewrite ?lookup_insert_eq; split_and!; try done;
    intros f' Hf'; by rewrite lookup_insert_ne.
Qed.

(** One step of [save] on a destination with the hash and text of its
    payload. *)
Lemma foldl_write_frame (ps : list (string * (Z * string))) :
  ∀ st,
  let st' := foldl (λ st p, (State.write_if_changed st p.1 p.2.1 p.2.2).1) st ps in
  State.settings st' = State.settings st ∧
  State.cookies st' = State.cookies st ∧
  State.bundles st' = State.bundles st ∧
  State.all_media st' = State.all_media st ∧
  State.cookie_hash st' = State.cookie_hash st ∧
  ∀ f, f ∉ ps.*1 → State.hashes st' !! f = State.hashes st !! f.
Proof.
  induction ps as [|[f [h text]] ps IH]; intros st; simpl; [by split_and!|].
  destruct (IH (State.write_if_changed st f h text).1) as (G1 & G2 & G3 & G4 & G5 & G6).
  destruct (write_if_changed_frame st f h text) as (F1 & F2 & F3 & F4 & F5 & _ & F7).
  split_and!; [congruence..|].
  intros f' Hf'. apply not_elem_of_cons in Hf' as [Hne Hf'].
  rewrite G6 by done. by apply F7.
Qed.

Lemma foldl_write_noop (ps : list (string * (Z * string))) st :
  (∀ p, p ∈ ps → default 0%Z (State.hashes st !! p.1) = p.2.1) →
  foldl (λ st p, (State.write_if_changed st p.1 p.2.1 p.2.2).1) st ps = st.
Proof.
  induction ps as [|p ps IH]; intros Hall; simpl; [done|].
  rewrite write_if_changed_skip by (apply Hall; left). simpl.
  apply IH. intros q Hq. apply Hall. by right.
Qed.

Lemma foldl_write_settles (ps : list (string * (Z * string))) :
  ∀ st, NoDup ps.*1 →
  ∀ p, p ∈ ps →
    default 0%Z
      (State.hashes (foldl (λ st p, (State.write_if_changed st p.1 p.2.1 p.2.2).1) st ps)
         !! p.1) = p.2.1.
Proof.
  induction ps as [|[f [h text]] ps IH]; intros st Hnd p Hp; [by apply elem_of_nil in Hp|].
  rewrite fmap_cons in Hnd. apply list.NoDup_cons in Hnd as [Hf Hnd].
  apply elem_of_cons in Hp as [->|Hp]; simpl.
  - destruct (foldl_write_frame ps (State.write_if_changed st f h text).1)
      as (_ & _ & _ & _ & _ & Hkeep).
    rewrite Hkeep by done. apply write_if_changed_frame.
  - by apply IH.
Qed.
Lemma save_to_file_unfold {A} `{!State.JsonView A, !State.Json A} st (f : string)
    (json_dict : A) :
  State.save_to_file hash st f json_dict
  = State.write_if_changed st f (State.get_hash hash json_dict).1
      (State.get_hash hash json_dict).2.
Proof. done. Qed.

Lemma foldl_save_chapters (vals : list MediaData.t) :
  ∀ st,
  foldl (State.save_chapters hash) st vals
  = foldl (λ st p, (State.write_if_changed st p.1 p.2.1 p.2.2).1) st
      ((λ media_data,
          (State.get_chapter_metadata_file (State.settings st) media_data,
           State.get_hash hash (MediaData.chapters media_data))) <$> vals).
Proof.
  induction vals as [|m vals IH]; intros st; [done|].
  rewrite fmap_cons. cbn [foldl]. rewrite IH.
  unfold State.save_chapters at 2. rewrite save_to_file_unfold. cbn [fst snd].
  destruct (write_if_changed_frame st
              (State.get_chapter_metadata_file (State.settings st) m)
              (State.get_hash hash (MediaData.chapters m)).1
              (State.get_hash hash (MediaData.chapters m)).2) as (-> & _).
  done.
Qed.

Lemma save_as_fold st :
  State.save hash cookies_str cookie_lines st
  = match State.save_session_cookies hash cookies_str cookie_lines st with
    | (st1, Raise e) => (st1, Raise e)
    | (st1, Ok _) =>
        (foldl (λ st p, (State.write_if_changed st p.1 p.2.1 p.2.2).1) st1
           (State.payloads hash st1), Ok tt)
    end.
Proof.
  unfold State.save.
  destruct (State.save_session_cookies hash cookies_str cookie_lines st) as [st1 [b|e]];
    [|done].
  f_equal. unfold State.payloads. cbn [foldl]. rewrite !save_to_file_unfold.
  cbn [fst snd]. rewrite foldl_save_chapters.
  set (st2 := (State.write_if_changed st1 _ _ _).1).
  destruct (write_if_changed_frame st1
              (State.get_bundle_metadata_file (State.settings st1))
              (State.get_hash hash (State.bundles st1)).1
              (State.get_hash hash (State.bundles st1)).2) as (S1 & _ & _ & A1 & _).
  fold st2 in S1, A1.
  set (st3 := (State.write_if_changed st2 _ _ _).1).
  destruct (write_if_changed_frame st2
              (State.get_metadata (State.settings st2))
              (State.get_hash hash (State.doc_of (State.all_media st2))).1
              (State.get_hash hash (State.doc_of (State.all_media st2))).2)
    as (S2 & _ & _ & A2 & _).
  fold st3 in S2, A2.
  unfold State.the_media. rewrite S2, A2. subst st3. rewrite S1, A1. done.
Qed.

Lemma save_session_cookies_settled st :
  State.cookies_settled hash cookies_str st →
  State.save_session_cookies hash cookies_str cookie_lines st = (st, Ok false).
Proof.
  unfold State.cookies_settled, State.save_session_cookies, State._set_session_hash.
  intros [Hno|Heq]; [by rewrite Hno|].
  destruct (State.no_save_session (State.settings st)); [done|].
  rewrite bool_decide_eq_false_2; [done|]. intros Hne. by apply Hne.
Qed.

Lemma save_session_cookies_settles st st1 (b : bool) :
  State.save_session_cookies hash cookies_str cookie_lines st = (st1, Ok b) →
  State.cookies_settled hash cookies_str st1 ∧
  State.settings st1 = State.settings st ∧
  State.bundles st1 = State.bundles st ∧
  State.all_media st1 = State.all_media st ∧
  State.hashes st1 = State.hashes st.
Proof.
  unfold State.cookies_settled, State.save_session_cookies, State._set_session_hash,
    State.write_file.
  destruct (State.no_save_session (State.settings st)) eqn:Hno.
  - intros [= <- _]. split_and!; [by left|done..].
  - case_bool_decide as Hch; simpl.
    + case_bool_decide; [done|]. intros [= <- _]. simpl. split_and!; [by right|done..].
    + intros [= <- _]. split_and!; [|done..]. by right.
Qed.

(** A [save] on a state whose recorded hashes are those of the payloads
    changes nothing. *)
Lemma save_noop st :
  State.cookies_settled hash cookies_str st →
  (∀ p, p ∈ State.payloads hash st → default 0%Z (State.hashes st !! p.1) = p.2.1) →
  State.save hash cookies_str cookie_lines st = (st, Ok tt).
Proof.
  intros Hc Hall. rewrite save_as_fold, save_session_cookies_settled by done.
  by rewrite foldl_write_noop.
Qed.

(** A [save] that ran to its end on pairwise distinct destinations leaves
    the recorded hashes equal to those of the payloads. *)
Lemma save_settles st st1 :
  State.save hash cookies_str cookie_lines st = (st1, Ok tt) →
  NoDup (State.payloads hash st).*1 →
  State.cookies_settled hash cookies_str st1 ∧
  State.payloads hash st1 = State.payloads hash st ∧
  ∀ p, p ∈ State.payloads hash st1 → default 0%Z (State.hashes st1 !! p.1) = p.2.1.
Proof.
  rewrite save_as_fold.
  destruct (State.save_session_cookies hash cookies_str cookie_lines st)
    as [st0 [b|e]] eqn:Hck; [|done].
  apply save_session_cookies_settles in Hck as (Hc & S0 & B0 & A0 & _).
  intros Heq Hnd.
  assert (st1 = foldl (λ st p, (State.write_if_changed st p.1 p.2.1 p.2.2).1) st0
                  (State.payloads hash st0)) as -> by congruence.
  clear Heq.
  assert (State.payloads hash st0 = State.payloads hash st) as Hp0.
  { unfold State.payloads, State.the_media. by rewrite S0, B0, A0. }
  rewrite Hp0.
  destruct (foldl_write_frame (State.payloads hash st) st0) as (S1 & C1 & B1 & A1 & K1 & _).
  set (st1 := foldl _ st0 (State.payloads hash st)) in *.
  assert (State.payloads hash st1 = State.payloads hash st) as Hp1.
  { rewrite <- Hp0. unfold State.payloads, State.the_media. by rewrite S1, B1, A1. }
  split_and!.
  - unfold State.cookies_settled in *. by rewrite S1, K1, C1.
  - done.
  - rewrite Hp1. intros p Hp. by apply foldl_write_settles.
Qed.

Lemma read_file_found {A} `{!State.JsonView A, !State.Json A, !Empty A} st
    (f text : string) (parsed : A) :
  State.files (State.disk st) !! f = Some text →
  State.loads text = Some parsed →
  State.read_file_as_dict hash st f
  = (State.with_hash f
       (hash (State.dumps (State.as_dict (State.object_hook parsed)))) st,
     Ok (State.object_hook parsed)).
Proof. intros Hf Hp. unfold State.read_file_as_dict. by rewrite Hf, Hp. Qed.

Lemma read_file_undecodable {A} `{!State.JsonView A, !State.Json A, !Empty A} st
    (f text : string) :
  State.files (State.disk st) !! f = Some text →
  State.loads (A := A) text = None →
  State.read_file_as_dict (A := A) hash st f = (st, Raise JSONDecodeError).
Proof. intros Hf Hp. unfold State.read_file_as_dict. by rewrite Hf, Hp. Qed.

Lemma read_file_missing {A} `{!State.JsonView A, !State.Json A, !Empty A} st (f : string) :
  State.files (State.disk st) !! f = None →
  State.read_file_as_dict (A := A) hash st f = (st, Ok ∅).
Proof. intros Hf. unfold State.read_file_as_dict. by rewrite Hf. Qed.

Lemma load_session_cookies_frame st :
  let st' := State.load_session_cookies hash cookies_str load_cookies st in
  State.settings st' = State.settings st ∧
  State.bundles st' = State.bundles st ∧
  State.all_media st' = State.all_media st ∧
  State.hashes st' = State.hashes st ∧
  State.disk st' = State.disk st ∧
  State.writes st' = State.writes st ∧
  (State.no_load_session (State.settings st) = false →
   State.cookie_hash st' = Some (hash (cookies_str (State.cookies st')))).
Proof.
  unfold State.load_session_cookies, State._set_session_hash.
  destruct (State.no_load_session (State.settings st)); [by split_and!|].
  case_bool_decide as Hch; simpl; split_and!; done.
Qed.

(** The loop of [load_media] on an index keyed by global ids whose media
    come without chapters and whose chapter files all exist, hold a text
    that can be decoded, and have pairwise distinct paths: the loop runs to
    its end, no entry is moved, every media gets the chapters of its file,
    and the hash of what was read is recorded for that file. *)
Lemma load_media_loop (todo : list (string * MediaData.t)) :
  ∀ l : @State.LoadLoop Cookies,
  let path := State.chapter_metadata_path (State.settings (State.loop_state l)) in
  NoDup (path <$> todo.*1) →
  (∀ k m, (k, m) ∈ todo →
     MediaData.global_id m = k ∧ MediaData.chapters m = ∅ ∧
     (∃ (text : string) (cs : Chapters),
        State.files (State.disk (State.loop_state l)) !! path k = Some text ∧
        State.loads text = Some cs) ∧
     State.loop_objects l !! k = Some m) →
  ∃ l', State.load_media_entries hash l todo = Ok l' ∧
  State.loop_dict l' = State.loop_dict l ∧
  State.settings (State.loop_state l') = State.settings (State.loop_state l) ∧
  State.cookies (State.loop_state l') = State.cookies (State.loop_state l) ∧
  State.cookie_hash (State.loop_state l') = State.cookie_hash (State.loop_state l) ∧
  State.bundles (State.loop_state l') = State.bundles (State.loop_state l) ∧
  State.disk (State.loop_state l') = State.disk (State.loop_state l) ∧
  State.writes (State.loop_state l') = State.writes (State.loop_state l) ∧
  (∀ k m, (k, m) ∈ todo →
     ∃ cs, State.loop_objects l' !! k = Some (MediaData.with_chapters cs m) ∧
           State.hashes (State.loop_state l') !! path k = Some (hash (State.dumps cs))) ∧
  (∀ k, k ∉ todo.*1 → State.loop_objects l' !! k = State.loop_objects l !! k) ∧
  (∀ f, f ∉ path <$> todo.*1 →
     State.hashes (State.loop_state l') !! f = State.hashes (State.loop_state l) !! f).
Proof.
  induction todo as [|[k m] todo IH]; intros l path Hnd Hall; cbn zeta.
  - exists l. simpl. split_and!; try done. intros k m Hin. by apply elem_of_nil in Hin.
  - rewrite !fmap_cons in Hnd. apply list.NoDup_cons in Hnd as [Hk Hnd].
    destruct (Hall k m) as (Hg & Hc & (text & cs0 & Hfile & Hparse) & Hobj); [left|].
    cbn [State.load_media_entries].
    set (l1 := State.mkLoop
                 (State.with_hash (path k)
                    (hash (State.dumps (State.object_hook cs0)))
                    (State.loop_state l))
                 (State.loop_dict l)
                 (<[k := MediaData.with_chapters (State.object_hook cs0) m]>
                    (State.loop_objects l))).
    assert (State.load_media_entry hash l (k, m) = Ok l1) as ->.
    { unfold l1, State.load_media_entry, State.get_chapter_metadata_file.
      rewrite Hg.
      rewrite (bool_decide_eq_false_2 (k ≠ k)) by (intros Hne; by apply Hne).
      rewrite (bool_decide_eq_true_2 (MediaData.chapters m = ∅)) by done.
      by rewrite (read_file_found _ _ text cs0 Hfile Hparse). }
    assert (k ∉ todo.*1) as Hk'.
    { intros Hin. apply Hk. by apply list_elem_of_fmap_2. }
    destruct (IH l1) as (l' & Hl' & D & S & C & CH & B & DK & W & Hobjs & Hkeep & Hhash).
    + exact Hnd.
    + intros k' m' Hin. destruct (Hall k' m') as (Hg' & Hc' & Hf' & Hobj'); [by right|].
      split_and!; [done..|]. simpl. rewrite lookup_insert_ne; [done|].
      intros ->. apply Hk'. apply list_elem_of_fmap. by exists (k', m').
    + exists l'. split; [exact Hl'|]. simpl in *. split_and!; [done..| | |].
      * intros k' m' [[= -> ->]|Hin]%elem_of_cons; [|by apply Hobjs].
        eexists. rewrite Hkeep by done. rewrite Hhash by done.
        simpl. by rewrite !lookup_insert_eq.
      * intros k' [Hne Hk'']%not_elem_of_cons. rewrite Hkeep by done.
        simpl. by rewrite lookup_insert_ne.
      * intros f [Hne Hf]%not_elem_of_cons. rewrite Hhash by done.
        simpl. by rewrite lookup_insert_ne.
Qed.

Lemma index_of_doc_of (i : State.Index) :
  State.index_of (State.doc_of (Some i)) = Ok i.
Proof. by destruct i as [[v|] md dis]. Qed.

(** [load] on a disk that holds the bundle file, a non-empty index keyed
    by global ids whose media come without chapters, and the chapter file
    of every media, all of them texts that can be decoded, at pairwise
    distinct paths: it returns, writes nothing and leaves a state on which
    [save] changes nothing. *)
Lemma load_then_save st (bundle_text index_text : string) (i : State.Index) :
  let s := State.settings st in
  State.no_save_session s = true ∨ State.no_load_session s = false →
  State.files (State.disk st) !! State.get_bundle_metadata_file s = Some bundle_text →
  is_Some (State.loads bundle_text : option State.Bundles) →
  State.files (State.disk st) !! State.get_metadata s = Some index_text →
  State.object_hook <$> (State.loads index_text : option State.IndexDoc)
    = Some (State.doc_of (Some i)) →
  (∀ k m, State.media i !! k = Some m →
     MediaData.global_id m = k ∧ MediaData.chapters m = ∅ ∧
     ∃ (text : string) (cs : Chapters),
       State.files (State.disk st) !! State.chapter_metadata_path s k = Some text ∧
       State.loads text = Some cs) →
  NoDup (State.get_bundle_metadata_file s :: State.get_metadata s
         :: (State.chapter_metadata_path s <$> (map_to_list (State.media i)).*1)) →
  ∃ st', State.load hash cookies_str load_cookies st = Ok st' ∧
    State.save hash cookies_str cookie_lines st' = (st', Ok tt) ∧
    State.writes st' = State.writes st ∧
    State.disk st' = State.disk st.
Proof.
  intros s Hcookies Hbundle [b0 Hb0] Hindex Hi Hmedia Hnd.
  destruct (State.loads index_text : option State.IndexDoc) as [doc|] eqn:Hdoc; [|done].
  cbn [fmap option_fmap option_map] in Hi. apply (inj Some) in Hi.
  apply list.NoDup_cons in Hnd as [Hbf Hnd]. apply list.NoDup_cons in Hnd as [Hmf Hnd].
  apply not_elem_of_cons in Hbf as [Hbm Hbf].
  unfold State.load.
  destruct (load_session_cookies_frame st) as (S1 & B1 & A1 & H1' & D1 & W1 & C1).
  fold s in S1, C1.
  set (st1 := State.load_session_cookies hash cookies_str load_cookies st) in *.
  clearbody st1.
  (* the bundles *)
  unfold State.load_bundles.
  rewrite (read_file_found st1 _ bundle_text b0) by (by rewrite ?S1, ?D1).
  set (b := State.object_hook b0).
  set (st2 := State.with_bundles b (State.with_hash _ _ st1)).
  assert (State.settings st2 = s) as S2 by (by rewrite <- S1).
  assert (State.disk st2 = State.disk st) as D2 by (by rewrite <- D1).
  assert (State.writes st2 = State.writes st) as W2 by (by rewrite <- W1).
  assert (State.cookies st2 = State.cookies st1) as C2 by done.
  assert (State.cookie_hash st2 = State.cookie_hash st1) as CH2 by done.
  assert (State.bundles st2 = b) as B2 by done.
  assert (State.hashes st2 !! State.get_bundle_metadata_file s
          = Some (State.get_hash hash b).1) as HB2.
  { unfold st2. cbn [State.hashes State.with_bundles State.with_hash].
    rewrite S1. by rewrite lookup_insert_eq. }
  clearbody st2.
  (* the index *)
  unfold State.load_media.
  rewrite (read_file_found st2 _ index_text doc) by (by rewrite ?S2, ?D2).
  rewrite Hi, index_of_doc_of. rewrite S2.
  set (st3 := State.with_hash _ _ st2).
  assert (State.settings st3 = s) as S3 by (by rewrite <- S2).
  assert (State.disk st3 = State.disk st) as D3 by (by rewrite <- D2).
  assert (State.writes st3 = State.writes st) as W3 by (by rewrite <- W2).
  assert (State.cookies st3 = State.cookies st1) as C3 by (by rewrite <- C2).
  assert (State.cookie_hash st3 = State.cookie_hash st1) as CH3 by (by rewrite <- CH2).
  assert (State.bundles st3 = b) as B3 by (by rewrite <- B2).
  assert (State.hashes st3 !! State.get_bundle_metadata_file s
          = Some (State.get_hash hash b).1) as HB3.
  { unfold st3. cbn [State.hashes State.with_hash].
    rewrite lookup_insert_ne by (intros Heq; by apply Hbm). exact HB2. }
  assert (State.hashes st3 !! State.get_metadata s
          = Some (State.get_hash hash (State.doc_of (Some i))).1) as HM3.
  { unfold st3. cbn [State.hashes State.with_hash]. by rewrite lookup_insert_eq. }
  clearbody st3.
  set (l0 := State.mkLoop st3 (map_imap (λ k _, Some k) (State.media i)) (State.media i)).
  destruct (load_media_loop (map_to_list (State.media i)) l0)
    as (l1 & -> & D & S & C & CH & B & DK & W & Hobjs & _ & Hhash).
  { unfold l0. cbn [State.loop_state]. by rewrite S3. }
  { intros k m Hin%elem_of_map_to_list. destruct (Hmedia k m Hin) as (Hg & Hc & Hf).
    unfold l0. cbn [State.loop_state State.loop_objects]. rewrite S3, D3. by split_and!. }
  unfold l0 in D, S, C, CH, B, DK, W, Hobjs, Hhash.
  cbn [State.loop_state State.loop_objects State.loop_dict] in D, S, C, CH, B, DK, W, Hobjs, Hhash.
  rewrite S3 in Hobjs, Hhash, S. clear l0.
  set (media' := omap (λ name, State.loop_objects l1 !! name) (State.loop_dict l1)).
  assert (∀ k, media' !! k
               = match State.media i !! k with
                 | Some m => State.loop_objects l1 !! k
                 | None => None
                 end) as Hmedia'.
  { intros k. unfold media'. rewrite D, lookup_omap, map_lookup_imap.
    by destruct (State.media i !! k). }
  clearbody media'.
  set (st' := State.with_all_media _ _).
  assert (State.settings st' = s) as S' by exact S.
  assert (State.hashes st' = State.hashes (State.loop_state l1)) as H' by reflexivity.
  assert (State.bundles st' = b) as B' by (etrans; [exact B|exact B3]).
  assert (State.all_media st'
          = Some (State.mkIndex (State.version i) media' (State.disabled_media i)))
    as A' by reflexivity.
  assert (State.cookies st' = State.cookies st1) as C' by (etrans; [exact C|exact C3]).
  assert (State.cookie_hash st' = State.cookie_hash st1) as CH'
    by (etrans; [exact CH|exact CH3]).
  assert (State.writes st' = State.writes st) as W' by (etrans; [exact W|exact W3]).
  assert (State.disk st' = State.disk st) as D' by (etrans; [exact DK|exact D3]).
  clearbody st'. exists st'.
  split_and!; [done| |done..].
  apply save_noop.
  - unfold State.cookies_settled. rewrite S', C', CH'.
    destruct Hcookies as [Hno|Hload]; [by left|right]. by apply C1.
  - unfold State.payloads, State.the_media. rewrite S', B', A', H'.
    cbn [from_option State.media].
    intros p [->|[->|Hp]%elem_of_cons]%elem_of_cons; cbn [fst snd].
    + rewrite Hhash by done. by rewrite HB3.
    + rewrite Hhash by done. rewrite HM3. cbn [default from_option id].
      unfold State.get_hash. cbn [fst]. do 2 f_equal.
      unfold State.as_dict, State.IndexDoc_view, State.map_doc, State.doc_of.
      cbn [State.doc_version State.doc_media State.doc_disabled_media
           State.version State.media State.disabled_media fmap option_fmap option_map].
      do 2 f_equal. apply map_eq. intros k. rewrite !lookup_fmap, Hmedia'.
      destruct (State.media i !! k) as [m|] eqn:Hk; [|done].
      destruct (Hobjs k m) as (cs & -> & _); [by apply elem_of_map_to_list|]. done.
    + apply list_elem_of_fmap in Hp as (m' & -> & [k Hk]%elem_of_values).
      cbn [fst snd]. rewrite Hmedia' in Hk.
      destruct (State.media i !! k) as [m|] eqn:Hkm; [|done].
      destruct (Hobjs k m) as (cs & Hobj & Hh); [by apply elem_of_map_to_list|].
      rewrite Hobj in Hk. injection Hk as <-.
      destruct (Hmedia k m Hkm) as (Hg & _).
      unfold State.get_chapter_metadata_file.
      change (MediaData.global_id (MediaData.with_chapters cs m))
        with (MediaData.global_id m). rewrite Hg, Hh. done.
Qed.

(** C4, amended.  [save_to_file] leaves the state alone and returns [False]
    when the hash of the payload is the one recorded for the destination,
    and otherwise records the hash and writes the file, returning [True]
    (or [False], without a write, when the file cannot be opened);
    [read_file_as_dict] on a file that exists and can be decoded records
    the hash of what it returns, so that saving that value to the same
    destination is skipped, while on a missing file it returns [{}] and
    records nothing, and on a file that cannot be decoded it raises and
    records nothing.  A [save] that follows a [save] which ran to its end
    on pairwise distinct destinations changes nothing.  A [load] returns,
    and the [save] that follows it changes nothing, when the bundle file, a
    non-empty index keyed by global ids whose media carry no chapters, and
    the chapter files of its media all exist, can be decoded and have
    pairwise distinct paths, and the cookies are either loaded or never
    saved. *)
Theorem writes_only_what_changed :
  (∀ (A : Type) (V : State.JsonView A) (J : State.Json A) st (f : string) (json_dict : A),
     (default 0%Z (State.hashes st !! f) = (State.get_hash hash json_dict).1 →
        State.save_to_file hash st f json_dict = (st, false)) ∧
     (default 0%Z (State.hashes st !! f) ≠ (State.get_hash hash json_dict).1 →
      f ∉ State.no_dir (State.disk st) →
        (State.save_to_file hash st f json_dict).2 = true ∧
        State.writes (State.save_to_file hash st f json_dict).1 = State.writes st ++ [f] ∧
        State.files (State.disk (State.save_to_file hash st f json_dict).1) !! f
          = Some (State.get_hash hash json_dict).2 ∧
        State.hashes (State.save_to_file hash st f json_dict).1 !! f
          = Some (State.get_hash hash json_dict).1) ∧
     ((State.save_to_file hash st f json_dict).2 = true ∧
        default 0%Z (State.hashes st !! f) ≠ (State.get_hash hash json_dict).1 ∧
        State.writes (State.save_to_file hash st f json_dict).1 = State.writes st ++ [f]
      ∨
      (State.save_to_file hash st f json_dict).2 = false ∧
        State.writes (State.save_to_file hash st f json_dict).1 = State.writes st ∧
        State.disk (State.save_to_file hash st f json_dict).1 = State.disk st)) ∧
  (∀ (A : Type) (V : State.JsonView A) (J : State.Json A) (E : Empty A) st
     (f text : string) (parsed : A),
     State.files (State.disk st) !! f = Some text →
     State.loads text = Some parsed →
     ∃ json_dict,
       (State.read_file_as_dict (A := A) hash st f).2 = Ok json_dict ∧
       State.hashes (State.read_file_as_dict (A := A) hash st f).1 !! f
         = Some (State.get_hash hash json_dict).1 ∧
       State.save_to_file hash (State.read_file_as_dict (A := A) hash st f).1 f json_dict
         = ((State.read_file_as_dict (A := A) hash st f).1, false)) ∧
  (∀ (A : Type) (V : State.JsonView A) (J : State.Json A) (E : Empty A) st (f : string),
     State.files (State.disk st) !! f = None →
     State.read_file_as_dict (A := A) hash st f = (st, Ok ∅)) ∧
  (∀ (A : Type) (V : State.JsonView A) (J : State.Json A) (E : Empty A) st
     (f text : string),
     State.files (State.disk st) !! f = Some text →
     State.loads (A := A) text = None →
     State.read_file_as_dict (A := A) hash st f = (st, Raise JSONDecodeError)) ∧
  (∀ st st1,
     State.save hash cookies_str cookie_lines st = (st1, Ok tt) →
     NoDup (State.payloads hash st).*1 →
     State.save hash cookies_str cookie_lines st1 = (st1, Ok tt)) ∧
  (∀ st (bundle_text index_text : string) (i : State.Index),
     State.no_save_session (State.settings st) = true
       ∨ State.no_load_session (State.settings st) = false →
     State.files (State.disk st) !! State.get_bundle_metadata_file (State.settings st)
       = Some bundle_text →
     is_Some (State.loads bundle_text : option State.Bundles) →
     State.files (State.disk st) !! State.get_metadata (State.settings st)
       = Some index_text →
     State.object_hook <$> (State.loads index_text : option State.IndexDoc)
       = Some (State.doc_of (Some i)) →
     (∀ k m, State.media i !! k = Some m →
        MediaData.global_id m = k ∧ MediaData.chapters m = ∅ ∧
        ∃ (text : string) (cs : Chapters),
          State.files (State.disk st)
            !! State.chapter_metadata_path (State.settings st) k = Some text ∧
          State.loads text = Some cs) →
     NoDup (State.get_bundle_metadata_file (State.settings st)
            :: State.get_metadata (State.settings st)
            :: (State.chapter_metadata_path (State.settings st)
                  <$> (map_to_list (State.media i)).*1)) →
     ∃ st',
       State.load hash cookies_str load_cookies st = Ok st' ∧
       State.save hash cookies_str cookie_lines st' = (st', Ok tt) ∧
       State.writes st' = State.writes st ∧
       State.disk st' = State.disk st).
Proof.
  split_and!.
  - intros A V J st f json_dict. rewrite save_to_file_unfold. split_and!.
    + apply write_if_changed_skip.
    + apply write_if_changed_written.
    + apply write_if_changed_result.
  - intros A V J E st f text parsed Hf Hp.
    rewrite (read_file_found st f text parsed Hf Hp).
    cbn [fst snd]. exists (State.object_hook parsed).
    assert (State.hashes (State.with_hash f
                     (hash (State.dumps (State.as_dict (State.object_hook parsed))))
                     st) !! f
                   = Some (State.get_hash hash (State.object_hook parsed)).1)
      as Hseed by apply lookup_insert_eq.
    split_and!; [done|exact Hseed|]. rewrite save_to_file_unfold.
    apply write_if_changed_skip. by rewrite Hseed.
  - intros A V J E st f Hf. by apply read_file_missing.
  - intros A V J E st f text Hf Hp. by apply (read_file_undecodable st f text).
  - intros st st1 Hsave Hnd.
    destruct (save_settles st st1 Hsave Hnd) as (Hc & _ & Hall). by apply save_noop.
  - intros st bundle_text index_text i. apply load_then_save.
Qed.

End PersistenceFacts.

(** C4, as stated, fails.  A store that starts without any file ([load]
    finds neither the bundle file nor the index) and saves right after
    loading writes both files: a missing file is loaded as [{}] without a
    hash being recorded for it. *)
Lemma save_after_load_of_missing_files_writes :
  ∃ st', Samples.sample_load (Samples.fresh ∅) = Ok st' ∧
    State.writes st' = [] ∧
    State.writes (Samples.sample_save st').1 = ["bundles.json"; "media.json"].
Proof.
  eexists. split_and!; [vm_compute; reflexivity | vm_compute; reflexivity ..].
Qed.

Lemma writes_only_what_changed_witness :
  ∃ st', Samples.sample_load (Samples.fresh Samples.used_disk) = Ok st' ∧
    Samples.sample_save st' = (st', Ok tt) ∧
    State.writes st' = [] ∧
    State.disk st' = State.mkDisk Samples.used_disk ∅.
Proof.
  destruct (@writes_only_what_changed Samples.length_hash Samples.bundles_json
              Samples.index_json Samples.chapters_json unit (λ _, "jar") (λ _ c, c)
              (λ _, "")) as (_ & _ & _ & _ & _ & Hload).
  apply (Hload (Samples.fresh Samples.used_disk) "{}" "{media: {...}}"
           (State.mkIndex (Some 1%Z) {[ "old:a" := Samples.alpha_entry ]} ∅)).
  - right. reflexivity.
  - reflexivity.
  - by eexists.
  - reflexivity.
  - reflexivity.
  - intros k m Hk. simpl in Hk. apply lookup_singleton_Some in Hk as [<- <-].
    split_and!; [reflexivity | reflexivity |].
    exists "{chapters}", Samples.listing_1_2. split; reflexivity.
  - apply (bool_decide_unpack _). vm_compute. exact I.
Defined.

(* ================================================================== *)
(** * Further properties: chapters in order, marking read              *)
(* ================================================================== *)

(** X1. [get_sorted_chapters] returns every chapter of the media exactly
    once, in ascending order of [number]. *)
Theorem get_sorted_chapters_sorted (m : MediaData.t) :
  MediaData.get_sorted_chapters m ≡ₚ values (MediaData.chapters m) ∧
  Sorted (key_le ChapterData.number) (MediaData.get_sorted_chapters m) ∧
  (∀ c, c ∈ MediaData.get_sorted_chapters m ↔ ∃ k, MediaData.chapters m !! k = Some c) ∧
  length (MediaData.get_sorted_chapters m) = size (MediaData.chapters m).
Proof.
  unfold MediaData.get_sorted_chapters, MediaData.getitem_chapters. split_and!.
  - apply sorted_perm.
  - apply sorted_Sorted.
  - intros c. rewrite sorted_perm. apply elem_of_values.
  - rewrite sorted_length. unfold values. rewrite length_fmap.
    by rewrite length_map_to_list.
Qed.

Lemma mark_chapter_twice (N1 N2 : Qc) (c : ChapterData.t) :
  MediaReader.mark_chapter N2 false (MediaReader.mark_chapter N1 false c)
  = MediaReader.mark_chapter (Reader.max2 N1 N2) false c.
Proof.
  unfold MediaReader.mark_chapter, Reader.max2.
  destruct (decide (ChapterData.number c ≤ N1)%Qc) as [H1|H1];
    destruct (decide (ChapterData.number c ≤ N2)%Qc) as [H2|H2];
    destruct (decide (N1 < N2)%Qc) as [H12|H12];
    rewrite ?(bool_decide_eq_true_2 _ H1), ?(bool_decide_eq_false_2 _ H1),
      ?(bool_decide_eq_true_2 _ H12), ?(bool_decide_eq_false_2 _ H12); simpl;
    rewrite ?(bool_decide_eq_true_2 _ H1), ?(bool_decide_eq_false_2 _ H1),
      ?(bool_decide_eq_true_2 _ H2), ?(bool_decide_eq_false_2 _ H2); try done.
  - exfalso. apply H2. eapply Qcle_trans; [exact H1|]. by apply Qclt_le_weak.
  - exfalso. apply H1. eapply Qcle_trans; [exact H2|]. by apply Qcnot_lt_le.
Qed.

Lemma mark_without_force_lookup (m : MediaData.t) (N : Qc) (k : string) :
  MediaData.chapters (MediaReader.mark_chapters_until_n_as_read m N false) !! k
  = (λ c, ChapterData.set_read
            (ChapterData.read c || bool_decide (ChapterData.number c ≤ N)%Qc) c)
      <$> MediaData.chapters m !! k.
Proof.
  unfold MediaReader.mark_chapters_until_n_as_read, MediaData.getitem_chapters. simpl.
  rewrite lookup_fmap. destruct (MediaData.chapters m !! k) as [c|]; [|done].
  simpl. f_equal. unfold MediaReader.mark_chapter.
  destruct (bool_decide (ChapterData.number c ≤ N)%Qc); [by rewrite orb_true_r|].
  rewrite orb_false_r. by destruct c.
Qed.

(** X2. Marking up to [N] without [force] never clears a [read] flag: a
    chapter is read afterwards exactly when it was read before or its
    number is at most [N], and nothing but [read] flags changes.  Marking
    up to [N1] and then up to [N2] is marking up to the larger of the
    two. *)
Theorem mark_until_only_adds (m : MediaData.t) (N1 N2 : Qc) :
  (∀ k, MediaData.chapters (MediaReader.mark_chapters_until_n_as_read m N1 false) !! k
        = (λ c, ChapterData.set_read
                  (ChapterData.read c || bool_decide (ChapterData.number c ≤ N1)%Qc) c)
            <$> MediaData.chapters m !! k) ∧
  MediaData.dict_part (MediaReader.mark_chapters_until_n_as_read m N1 false)
    = MediaData.dict_part m ∧
  MediaReader.mark_chapters_until_n_as_read
    (MediaReader.mark_chapters_until_n_as_read m N1 false) N2 false
  = MediaReader.mark_chapters_until_n_as_read m (Reader.max2 N1 N2) false.
Proof.
  split_and!.
  - intros k. apply mark_without_force_lookup.
  - done.
  - unfold MediaReader.mark_chapters_until_n_as_read, MediaData.with_chapters,
      MediaData.getitem_chapters. simpl. f_equal.
    rewrite <- map_fmap_compose. apply map_fmap_ext. intros k c _. simpl.
    apply mark_chapter_twice.
Qed.

(** X3. Marking up to [N] with [force] leaves a chapter read exactly when
    its number is at most [N], whatever it was before; doing it twice is
    doing it once. *)
Theorem mark_until_with_force (m : MediaData.t) (N : Qc) :
  (∀ k c', MediaData.chapters (MediaReader.mark_chapters_until_n_as_read m N true) !! k
           = Some c' →
     (ChapterData.read c' = true ↔ (ChapterData.number c' ≤ N)%Qc) ∧
     ∃ c, MediaData.chapters m !! k = Some c ∧
          c' = ChapterData.set_read (ChapterData.read c') c) ∧
  dom (MediaData.chapters (MediaReader.mark_chapters_until_n_as_read m N true))
    = dom (MediaData.chapters m) ∧
  MediaReader.mark_chapters_until_n_as_read
    (MediaReader.mark_chapters_until_n_as_read m N true) N true
  = MediaReader.mark_chapters_until_n_as_read m N true.
Proof.
  split_and!.
  - intros k c'. unfold MediaReader.mark_chapters_until_n_as_read,
      MediaData.getitem_chapters. simpl.
    rewrite lookup_fmap. destruct (MediaData.chapters m !! k) as [c|]; [|done].
    simpl. intros [= <-]. unfold MediaReader.mark_chapter.
    case_bool_decide as Hle; simpl; (split; [|by exists c]); split; done.
  - unfold MediaReader.mark_chapters_until_n_as_read. simpl. apply dom_fmap_L.
  - unfold MediaReader.mark_chapters_until_n_as_read, MediaData.with_chapters,
      MediaData.getitem_chapters. simpl. f_equal.
    rewrite <- map_fmap_compose. apply map_fmap_ext. intros k c _. simpl.
    unfold MediaReader.mark_chapter.
    destruct (bool_decide (ChapterData.number c ≤ N)%Qc) eqn:Hle; simpl;
      by rewrite Hle.
Qed.

(* ================================================================== *)
(** * Further properties: loops over a selection of the catalog        *)
(* ================================================================== *)

(** A loop whose body succeeds on every selected media stores, for each of
    them, what the body makes of it. *)
Lemma for_each_media_closed (body : MediaData.t → result MediaData.t)
    (g : MediaData.t → MediaData.t) (todo : list (string * MediaData.t)) :
  ∀ r : MediaReader.t,
  NoDup todo.*1 →
  (∀ km, km ∈ todo → body km.2 = Ok (g km.2)) →
  Reader.for_each_media body todo r
  = (MediaReader.with_media
       (list_to_map (prod_map id g <$> todo) ∪ MediaReader.media r) r, Ok tt).
Proof.
  induction todo as [|[k m] todo IH]; intros r Hnd Hbody.
  - simpl. unfold MediaReader.ret. rewrite (left_id_L ∅ (∪)). by destruct r.
  - rewrite fmap_cons in Hnd. apply list.NoDup_cons in Hnd as [Hk Hnd].
    cbn [Reader.for_each_media]. unfold MediaReader.bind at 1.
    unfold MediaReader.lift at 1.
    pose proof (Hbody (k, m) ltac:(left)) as Hm. cbn [snd] in Hm. rewrite Hm.
    unfold MediaReader.bind at 1. unfold MediaReader.modify_media at 1.
    rewrite IH; [|done|intros km Hkm; apply Hbody; by right].
    rewrite with_media_twice, media_with_media. do 2 f_equal.
    rewrite fmap_cons. cbn [prod_map id fst snd list_to_map foldr uncurry].
    rewrite <- insert_union_l. rewrite insert_union_r; [done|].
    apply not_elem_of_list_to_map_1.
    assert ((prod_map id g <$> todo).*1 = todo.*1) as ->; [|done].
    rewrite <- list_fmap_compose. apply list_fmap_ext. by intros ? [].
Qed.

Lemma get_media_NoDup_keys (r : MediaReader.t) (media_type : option N)
    (name : option string) :
  NoDup (MediaReader.get_media r media_type name).*1.
Proof.
  apply (sublist_NoDup _ (map_to_list (MediaReader.media r)).*1);
    [apply NoDup_fst_map_to_list|].
  apply fmap_sublist, sublist_filter.
Qed.

Lemma elem_of_get_media (r : MediaReader.t) (media_type : option N)
    (name : option string) (k : string) (m : MediaData.t) :
  (k, m) ∈ MediaReader.get_media r media_type name ↔
  MediaReader.media r !! k = Some m ∧ selects name media_type m = true.
Proof.
  unfold MediaReader.get_media. rewrite list_elem_of_filter, elem_of_map_to_list.
  simpl. rewrite Is_true_true. tauto.
Qed.

(** What a loop over a selection leaves under each key. *)
Lemma lookup_selection_update (g : MediaData.t → MediaData.t) (r : MediaReader.t)
    (media_type : option N) (name : option string) (k : string) :
  (list_to_map (prod_map id g <$> MediaReader.get_media r media_type name)
   ∪ MediaReader.media r) !! k
  = (λ m, if selects name media_type m then g m else m) <$> MediaReader.media r !! k.
Proof.
  rewrite lookup_union, list_to_map_fmap, lookup_fmap.
  pose proof (get_media_NoDup_keys r media_type name) as Hnd.
  destruct (MediaReader.media r !! k) as [m|] eqn:Hk; simpl.
  - destruct (selects name media_type m) eqn:Hsel.
    + assert ((k, m) ∈ MediaReader.get_media r media_type name) as Hin
        by (by apply elem_of_get_media).
      apply (elem_of_list_to_map_1 _ _ _ Hnd) in Hin. by rewrite Hin.
    + destruct (list_to_map (MediaReader.get_media r media_type name) !! k)
        as [m'|] eqn:Hl; [|done].
      apply elem_of_list_to_map_2, elem_of_get_media in Hl as [Hk' Hsel'].
      congruence.
  - destruct (list_to_map (MediaReader.get_media r media_type name) !! k)
      as [m'|] eqn:Hl; [|done].
    apply elem_of_list_to_map_2, elem_of_get_media in Hl as [Hk' _]. congruence.
Qed.

(** A loop over a selection whose body succeeds on every selected media. *)
Lemma for_each_selected (body : MediaData.t → result MediaData.t)
    (g : MediaData.t → MediaData.t) (r : MediaReader.t) (media_type : option N)
    (name : option string) :
  (∀ k m, MediaReader.media r !! k = Some m → selects name media_type m = true →
          body m = Ok (g m)) →
  (Reader.for_each_media body (MediaReader.get_media r media_type name) r).2 = Ok tt ∧
  ∀ k, MediaReader.media
         (Reader.for_each_media body (MediaReader.get_media r media_type name) r).1 !! k
       = (λ m, if selects name media_type m then g m else m) <$> MediaReader.media r !! k.
Proof.
  intros Hbody.
  rewrite (for_each_media_closed body g).
  - split; [done|]. intros k. cbn [fst]. rewrite media_with_media.
    apply lookup_selection_update.
  - apply get_media_NoDup_keys.
  - intros [k m] [Hk Hsel]%elem_of_get_media. by apply (Hbody k).
Qed.

(** A loop whose body raises on a selected media raises as well. *)
Lemma for_each_media_raises (body : MediaData.t → result MediaData.t) (e : PyError)
    (todo : list (string * MediaData.t)) :
  ∀ r : MediaReader.t,
  (∀ km, km ∈ todo → is_Some (match body km.2 with Ok m => Some m | Raise _ => None end)
                     ∨ body km.2 = Raise e) →
  (∃ km, km ∈ todo ∧ body km.2 = Raise e) →
  (Reader.for_each_media body todo r).2 = Raise e.
Proof.
  induction todo as [|[k m] todo IH]; intros r Hall [km [Hin Hkm]].
  - by apply elem_of_nil in Hin.
  - cbn [Reader.for_each_media]. unfold MediaReader.bind at 1.
    unfold MediaReader.lift at 1.
    destruct (body m) as [m'|e'] eqn:Hm.
    + unfold MediaReader.bind at 1. unfold MediaReader.modify_media at 1.
      apply IH; [intros km' Hin'; apply Hall; by right|].
      apply elem_of_cons in Hin as [->|Hin]; [simpl in Hkm; congruence|].
      by exists km.
    + destruct (Hall (k, m) ltac:(left)) as [[x Hx]|Hx]; simpl in Hx;
        rewrite Hm in Hx; [done|]. simpl. congruence.
Qed.

Lemma get_last_chapter_number_total (m : MediaData.t) :
  MediaData.get_last_chapter_number m = Ok (last_chapter_number m) ∧
  ∀ k c, MediaData.chapters m !! k = Some c →
         (ChapterData.number c ≤ last_chapter_number m)%Qc.
Proof.
  unfold last_chapter_number.
  destruct (decide (MediaData.chapters m = ∅)) as [He|Hne].
  - rewrite get_last_chapter_number_empty by done. split; [done|].
    intros k c. by rewrite He, lookup_empty.
  - destruct (get_last_chapter_number_max m Hne) as (k & c & _ & -> & Hmax). by split.
Qed.

Lemma mark_read_body_closed (N : Qc) (force abs : bool) (m : MediaData.t) :
  Reader.mark_read_body N force abs m
  = Ok (MediaReader.mark_chapters_until_n_as_read m (mark_read_target N force abs m) force).
Proof.
  unfold Reader.mark_read_body, mark_read_target.
  destruct (get_last_chapter_number_total m) as [-> _]. rewrite get_last_read_total.
  by destruct abs, force.
Qed.

Lemma max2_ge_r (a b : Qc) : (b ≤ Reader.max2 a b)%Qc.
Proof.
  unfold Reader.max2. case_bool_decide; [apply Qcle_refl|]. by apply Qcnot_lt_le.
Qed.

Lemma filter_Forall_id {A} (P : A → Prop) `{∀ x, Decision (P x)} (l : list A) :
  Forall P l → filter P l = l.
Proof.
  induction 1 as [|x l Hx _ IH]; [done|].
  rewrite filter_cons_True by done. by rewrite IH.
Qed.

Lemma all_read_last_read (m : MediaData.t) :
  (∀ k c, MediaData.chapters m !! k = Some c → ChapterData.read c = true) →
  last_read_number m = last_chapter_number m.
Proof.
  intros Hall. unfold last_read_number, last_chapter_number,
    MediaData.get_last_read, MediaData.get_last_chapter_number,
    MediaData.getitem_chapters.
  rewrite filter_Forall_id.
  2:{ apply list.Forall_forall. intros c [k Hk]%elem_of_values. by apply (Hall k). }
  destruct (values (MediaData.chapters m)) as [|c l] eqn:Hv.
  - apply values_nil in Hv. by rewrite bool_decide_eq_true_2.
  - rewrite bool_decide_eq_false_2; [done|].
    intros He. apply values_nil in He. congruence.
Qed.

(** X4. [mark_read] with its default arguments always returns, marks every
    chapter of every selected media read, so that its last read number is
    its last chapter number, changes nothing but [read] flags, and leaves
    the media it does not select as they are. *)
Theorem mark_read_reads_everything (r : MediaReader.t) (name : option string)
    (media_type : option N) :
  (Reader.mark_read name media_type 0%Qc false false r).2 = Ok tt ∧
  ∀ k, match MediaReader.media r !! k with
       | None =>
           MediaReader.media (Reader.mark_read name media_type 0%Qc false false r).1 !! k
           = None
       | Some m =>
           ∃ m',
             MediaReader.media (Reader.mark_read name media_type 0%Qc false false r).1 !! k
               = Some m' ∧
             if selects name media_type m
             then (∀ cid c', MediaData.chapters m' !! cid = Some c' →
                     ChapterData.read c' = true) ∧
                  dom (MediaData.chapters m') = dom (MediaData.chapters m) ∧
                  MediaData.dict_part m' = MediaData.dict_part m ∧
                  last_read_number m' = last_chapter_number m'
             else m' = m
       end.
Proof.
  unfold Reader.mark_read. unfold MediaReader.bind at 1. unfold MediaReader.get at 1.
  destruct (for_each_selected (Reader.mark_read_body 0%Qc false false)
              (λ m, MediaReader.mark_chapters_until_n_as_read m
                      (mark_read_target 0%Qc false false m) false)
              r media_type name) as [Hok Hlook].
  { intros k m _ _. apply mark_read_body_closed. }
  split; [exact Hok|]. intros k. rewrite Hlook.
  destruct (MediaReader.media r !! k) as [m|]; [|done]. simpl.
  eexists. split; [done|]. destruct (selects name media_type m); [|done].
  assert (∀ cid c',
            MediaData.chapters
              (MediaReader.mark_chapters_until_n_as_read m
                 (mark_read_target 0%Qc false false m) false) !! cid = Some c' →
            ChapterData.read c' = true) as Hread.
  { intros cid c'.
    rewrite mark_without_force_lookup. destruct (MediaData.chapters m !! cid) as [c|] eqn:Hc; [|done].
    simpl. intros [= <-]. simpl.
    rewrite (bool_decide_eq_true_2 (ChapterData.number c ≤ _)%Qc); [by rewrite orb_true_r|].
    unfold mark_read_target. cbn [negb].
    eapply Qcle_trans; [|apply max2_ge_r].
    rewrite Qcplus_0_r. by apply (get_last_chapter_number_total m) in Hc. }
  split_and!.
  - exact Hread.
  - unfold MediaReader.mark_chapters_until_n_as_read. simpl. apply dom_fmap_L.
  - done.
  - by apply all_read_last_read.
Qed.

(* ================================================================== *)
(** * Further properties: numbering offset and tracker links           *)
(* ================================================================== *)

Lemma offset_same_is_identity (m : MediaData.t) :
  Reader.offset_body (MediaData.offset m) m = Ok m.
Proof.
  unfold Reader.offset_body. f_equal.
  assert ((λ chapter, Reader.set_number
             (ChapterData.number chapter - (MediaData.offset m - MediaData.offset m))%Qc
             chapter) <$> MediaData.getitem_chapters m = MediaData.getitem_chapters m) as ->.
  { rewrite <- (map_fmap_id (MediaData.getitem_chapters m)) at 2.
    apply map_fmap_ext. intros k c _. simpl.
    replace (ChapterData.number c - (MediaData.offset m - MediaData.offset m))%Qc
      with (ChapterData.number c) by ring.
    by destruct c. }
  by destruct m.
Qed.

(** X5. [offset(name, o)] always returns.  Every selected media gets the
    offset [o] and each of its chapter numbers lowered by the difference to
    its former offset, its [read] flags, chapter ids and other fields being
    kept; the media not selected are left as they are.  Applying the same
    offset a second time changes nothing. *)
Theorem offset_shifts_numbers (r : MediaReader.t) (name : option string) (o : Qc) :
  (Reader.offset name o r).2 = Ok tt ∧
  (∀ k, MediaReader.media (Reader.offset name o r).1 !! k
        = (λ m, if selects name None m
                then Reader.set_offset o
                       (MediaData.with_chapters
                          ((λ c, Reader.set_number
                                   (ChapterData.number c - (o - MediaData.offset m))%Qc c)
                             <$> MediaData.chapters m) m)
                else m) <$> MediaReader.media r !! k) ∧
  MediaReader.media (Reader.offset name o (Reader.offset name o r).1).1
    = MediaReader.media (Reader.offset name o r).1.
Proof.
  assert (∀ r' : MediaReader.t,
            (Reader.offset name o r').2 = Ok tt ∧
            ∀ k, MediaReader.media (Reader.offset name o r').1 !! k
                 = (λ m, if selects name None m
                         then Reader.set_offset o
                                (MediaData.with_chapters
                                   ((λ c, Reader.set_number
                                            (ChapterData.number c - (o - MediaData.offset m))%Qc c)
                                      <$> MediaData.chapters m) m)
                         else m) <$> MediaReader.media r' !! k) as Hgen.
  { intros r'. unfold Reader.offset. unfold MediaReader.bind at 1.
    unfold MediaReader.get at 1.
    apply (for_each_selected (Reader.offset_body o)). by intros k m _ _. }
  destruct (Hgen r) as [Hok Hl]. split_and!; [done..|].
  apply map_eq. intros k. destruct (Hgen (Reader.offset name o r).1) as [_ ->].
  rewrite Hl. destruct (MediaReader.media r !! k) as [m|]; [|done]. simpl. f_equal.
  destruct (selects name None m) eqn:Hsel; [|by rewrite Hsel].
  set (m1 := Reader.set_offset o
               (MediaData.with_chapters
                  ((λ c, Reader.set_number
                           (ChapterData.number c - (o - MediaData.offset m))%Qc c)
                     <$> MediaData.chapters m) m)).
  assert (selects name None m1 = true) as -> by exact Hsel.
  pose proof (offset_same_is_identity m1) as Hid.
  exact (f_equal (λ res, match res with Ok x => x | Raise _ => m1 end) Hid).
Qed.

(** A loop over media leaves alone the keys it does not visit. *)
Lemma for_each_media_frame (body : MediaData.t → result MediaData.t)
    (todo : list (string * MediaData.t)) (k : string) :
  ∀ r : MediaReader.t,
  k ∉ todo.*1 →
  MediaReader.media (Reader.for_each_media body todo r).1 !! k = MediaReader.media r !! k.
Proof.
  induction todo as [|[k' m] todo IH]; intros r Hk; [done|].
  rewrite fmap_cons, not_elem_of_cons in Hk. destruct Hk as [Hne Hk].
  cbn [Reader.for_each_media]. unfold MediaReader.bind at 1.
  unfold MediaReader.lift at 1. destruct (body m) as [m'|e]; [|done].
  unfold MediaReader.bind at 1. unfold MediaReader.modify_media at 1.
  rewrite IH by done. rewrite media_with_media. by apply lookup_insert_ne.
Qed.

Lemma for_each_media_unselected (body : MediaData.t → result MediaData.t)
    (r : MediaReader.t) (media_type : option N) (name : option string)
    (k : string) (m : MediaData.t) :
  MediaReader.media r !! k = Some m → selects name media_type m = false →
  MediaReader.media
    (Reader.for_each_media body (MediaReader.get_media r media_type name) r).1 !! k
  = Some m.
Proof.
  intros Hk Hsel. rewrite for_each_media_frame; [done|].
  intros [[k' m'] [-> Hin]]%list_elem_of_fmap. simpl in *.
  apply elem_of_get_media in Hin as [Hk' Hsel']. congruence.
Qed.

(** X6. [remove_tracker(name, media_type, tracker_id)], for the tracker the
    [tracker_id] argument stands for (the primary one when it is [None] or
    empty): when every selected media carries a link to that tracker the
    call returns, each selected media has lost exactly that link and
    nothing else has changed; when one selected media has no such link the
    call raises [KeyError].  In both cases the media not selected are left
    as they are. *)
Theorem remove_tracker_needs_every_link (r : MediaReader.t) (name : option string)
    (media_type : option N) (tracker_id : option string) :
  let t := Reader.tracker_or_primary r tracker_id in
  let out := Reader.remove_tracker name media_type tracker_id r in
  ((∀ k m, MediaReader.media r !! k = Some m → selects name media_type m = true →
           is_Some (MediaData.trackers m !! t)) →
   out.2 = Ok tt ∧
   ∀ k, MediaReader.media out.1 !! k
        = (λ m, if selects name media_type m
                then Reader.set_trackers (delete t (MediaData.trackers m)) m
                else m) <$> MediaReader.media r !! k) ∧
  ((∃ k m, MediaReader.media r !! k = Some m ∧ selects name media_type m = true ∧
           MediaData.trackers m !! t = None) →
   out.2 = Raise KeyError) ∧
  (∀ k m, MediaReader.media r !! k = Some m → selects name media_type m = false →
          MediaReader.media out.1 !! k = Some m).
Proof.
  intros t out. subst out. unfold Reader.remove_tracker.
  unfold MediaReader.bind at 1 2 3 4. unfold MediaReader.get. fold t.
  split_and!.
  - intros Hall.
    apply (for_each_selected (Reader.remove_tracker_body t)
             (λ m, Reader.set_trackers (delete t (MediaData.trackers m)) m)).
    intros k m Hk Hsel. unfold Reader.remove_tracker_body.
    by destruct (Hall k m Hk Hsel) as [x ->].
  - intros (k & m & Hk & Hsel & Hnone).
    apply for_each_media_raises.
    + intros [k' m'] _. cbn [snd]. unfold Reader.remove_tracker_body.
      destruct (MediaData.trackers m' !! t); [left; by eexists | by right].
    + exists (k, m). split; [by apply elem_of_get_media|].
      cbn [snd]. unfold Reader.remove_tracker_body. by rewrite Hnone.
  - intros k m Hk Hsel. by apply for_each_media_unselected.
Qed.

Lemma tracker_or_primary_given (r : MediaReader.t) (t : string) :
  t ≠ "" ∨ t = trk_id (MediaReader.primary_tracker r) →
  Reader.tracker_or_primary r (Some t) = t.
Proof.
  unfold Reader.tracker_or_primary, MediaReader.given.
  case_bool_decide as Ht; [|done]. intros [?| ->]; [done|]. done.
Qed.

(** X7. After [track(media_data, tracker_id, tracking_id, title)] on a
    media of the catalog, for a tracker id that is not empty (or that of
    the primary tracker), [get_tracker_info] gives the link back,
    [get_tracked_media(tracker_id, tracking_id)] contains the media, and it
    contains nothing else that it did not contain before; removing the link
    again gives back the media as it was when it had no link to that
    tracker. *)
Theorem track_then_tracked (r : MediaReader.t) (k : string) (m : MediaData.t)
    (t : string) (tracking_id : Z) (title : option string)
    (Hk : MediaReader.media r !! k = Some m)
    (Ht : t ≠ "" ∨ t = trk_id (MediaReader.primary_tracker r)) :
  let m' := Reader.track m t tracking_id title in
  let r' := MediaReader.with_media (<[k := m']> (MediaReader.media r)) r in
  Reader.get_tracker_info r' m' (Some t) = Some (tracking_id, title) ∧
  m' ∈ Reader.get_tracked_media r' (Some t) tracking_id ∧
  (∀ x, x ∈ Reader.get_tracked_media r' (Some t) tracking_id →
        x = m' ∨ x ∈ Reader.get_tracked_media r (Some t) tracking_id) ∧
  (MediaData.trackers m !! t = None → Reader.remove_tracker_body t m' = Ok m).
Proof.
  intros m' r'.
  assert (Reader.tracker_or_primary r' (Some t) = t) as Ht'
    by (apply tracker_or_primary_given; by destruct r).
  assert (Reader.get_tracker_info r' m' (Some t) = Some (tracking_id, title)) as Hinfo.
  { unfold Reader.get_tracker_info, MediaReader.get_tracker_info. rewrite Ht'.
    subst m'. unfold Reader.track. simpl. by rewrite lookup_insert_eq. }
  assert (∀ x, x ∈ (MediaReader.get_media r' None None).*2 ↔
               ∃ k', MediaReader.media r' !! k' = Some x) as Hmem.
  { intros x. rewrite list_elem_of_fmap. split.
    - intros [[k' x'] [-> Hin]]. apply elem_of_get_media in Hin as [Hin _]. by exists k'.
    - intros [k' Hk']. exists (k', x). split; [done|]. by apply elem_of_get_media. }
  split_and!.
  - done.
  - unfold Reader.get_tracked_media. apply list_elem_of_filter. split.
    + unfold Reader.is_tracked_as. rewrite Hinfo. simpl. by rewrite bool_decide_eq_true_2.
    + apply Hmem. exists k. subst r'. rewrite media_with_media. by rewrite lookup_insert_eq.
  - intros x. unfold Reader.get_tracked_media. rewrite !list_elem_of_filter.
    intros [Htr [k' Hk']%Hmem]. subst r'. rewrite media_with_media in Hk'.
    destruct (decide (k' = k)) as [->|Hne].
    + rewrite lookup_insert_eq in Hk'. left. congruence.
    + rewrite lookup_insert_ne in Hk' by done. right. split.
      * unfold Reader.is_tracked_as, Reader.get_tracker_info in *.
        rewrite Ht' in Htr. rewrite tracker_or_primary_given by done. exact Htr.
      * rewrite list_elem_of_fmap. exists (k', x). split; [done|].
        by apply elem_of_get_media.
  - intros Hnone. unfold Reader.remove_tracker_body. subst m'. unfold Reader.track.
    simpl. rewrite lookup_insert_eq. f_equal.
    rewrite delete_insert_id by done. by destruct m.
Qed.

(** The link of ["alpha"] to the tracker, once set, is found. *)
Lemma track_then_tracked_witness :
  let m' := Reader.track Samples.alpha "tracker" 7 (Some "alpha") in
  let r' := MediaReader.with_media
              (<["old:a" := m']> (MediaReader.media Samples.migrating_reader))
              Samples.migrating_reader in
  Reader.get_tracker_info r' m' (Some "tracker") = Some (7%Z, Some "alpha") ∧
  m' ∈ Reader.get_tracked_media r' (Some "tracker") 7.
Proof.
  assert (MediaReader.media Samples.migrating_reader !! "old:a" = Some Samples.alpha)
    as Hk by reflexivity.
  assert ("tracker" ≠ "" ∨ "tracker" = trk_id (MediaReader.primary_tracker
                                                  Samples.migrating_reader))
    as Ht by (by left).
  pose proof (track_then_tracked Samples.migrating_reader "old:a" Samples.alpha
                "tracker" 7 (Some "alpha") Hk Ht) as H.
  cbv zeta in H. destruct H as (H1 & H2 & _). split; [exact H1 | exact H2].
Defined.

(* ================================================================== *)
(** * Unread chapters: [get_unreads]                                   *)
(* ================================================================== *)





(* ================================================================== *)
(** * Looking a chapter up by id: [get_media_by_chapter_id]            *)
(* ================================================================== *)

(** X9. [get_media_by_chapter_id(server_id, chapter_id)] returns either a
    media of the catalog that belongs to the provider together with the
    chapter this media stores under the id, or the pair of [None]; the
    latter exactly when no media of that provider has a chapter with the
    id. *)
Theorem get_media_by_chapter_id_finds (r : MediaReader.t) (server_id chapter_id : string) :
  match Reader.get_media_by_chapter_id r server_id chapter_id with
  | (Some m, Some c) =>
      (∃ k, MediaReader.media r !! k = Some m) ∧
      MediaData.server_id m = server_id ∧
      MediaData.chapters m !! chapter_id = Some c
  | (None, None) =>
      ∀ k m, MediaReader.media r !! k = Some m → MediaData.server_id m = server_id →
             MediaData.chapters m !! chapter_id = None
  | _ => False
  end.
Proof.
  unfold Reader.get_media_by_chapter_id.
  destruct (list_find _ _) as [[i [k m]]|] eqn:Hfind.
  - apply list_find_Some in Hfind as (Hi & [Hsrv Hdom] & _). cbn [snd] in *.
    apply list_elem_of_lookup_2, elem_of_get_media in Hi as [Hk _].
    unfold MediaData.getitem_chapters in *.
    apply elem_of_dom in Hdom as [c Hc]. rewrite Hc. split_and!; [by exists k|done..].
  - apply list_find_None in Hfind. intros k m Hk Hsrv.
    rewrite list.Forall_forall in Hfind.
    specialize (Hfind (k, m)). cbn [snd] in Hfind.
    apply not_elem_of_dom. intros Hin. apply Hfind; [|done].
    by apply elem_of_get_media.
Qed.

(* ================================================================== *)
(** * The store: [configure_media] and [mark_bundle_as_read]           *)
(* ================================================================== *)

Lemma move_fold_lookup (moves : MediaData.t → bool) (l : list string) (k : string) :
  ∀ s d : gmap string MediaData.t,
  (foldl (Store.move_step moves) (s, d) l).1 !! k
  = match s !! k with
    | Some m => if bool_decide (k ∈ l) && moves m then None else Some m
    | None => None
    end ∧
  (foldl (Store.move_step moves) (s, d) l).2 !! k
  = match s !! k with
    | Some m => if bool_decide (k ∈ l) && moves m then Some m else d !! k
    | None => d !! k
    end.
Proof.
  induction l as [|a l IH]; intros s d.
  - simpl. by destruct (s !! k).
  - cbn [foldl].
    assert (∀ m, s !! k = Some m → k ≠ a →
              bool_decide (k ∈ a :: l) && moves m = bool_decide (k ∈ l) && moves m) as Hne.
    { intros m _ Hka. f_equal. apply bool_decide_ext. rewrite elem_of_cons.
      split; [by intros [?|?]|by right]. }
    destruct (s !! a) as [ma|] eqn:Ha; [destruct (moves ma) eqn:Hmv|].
    + assert (Store.move_step moves (s, d) a = (delete a s, <[a := ma]> d)) as ->
        by (unfold Store.move_step; cbn [fst snd]; by rewrite Ha, Hmv).
      destruct (IH (delete a s) (<[a := ma]> d)) as [-> ->].
      destruct (decide (k = a)) as [->|Hka].
      * rewrite lookup_delete_eq, lookup_insert_eq, Ha, Hmv.
        by rewrite bool_decide_eq_true_2 by left.
      * rewrite lookup_delete_ne, lookup_insert_ne by done.
        destruct (s !! k) as [m|] eqn:Hk; [|done]. by rewrite (Hne m).
    + assert (Store.move_step moves (s, d) a = (s, d)) as ->
        by (unfold Store.move_step; cbn [fst snd]; by rewrite Ha, Hmv).
      destruct (IH s d) as [-> ->].
      destruct (decide (k = a)) as [->|Hka].
      * rewrite Ha, Hmv. by rewrite !andb_false_r.
      * destruct (s !! k) as [m|] eqn:Hk; [|done]. by rewrite (Hne m).
    + assert (Store.move_step moves (s, d) a = (s, d)) as ->
        by (unfold Store.move_step; cbn [fst snd]; by rewrite Ha).
      destruct (IH s d) as [-> ->].
      destruct (decide (k = a)) as [->|Hka]; [by rewrite Ha|].
      destruct (s !! k) as [m|] eqn:Hk; [|done]. by rewrite (Hne m).
Qed.

Lemma move_where_lookup (moves : MediaData.t → bool) (s d : gmap string MediaData.t)
    (k : string) :
  (Store.move_where moves s d).1 !! k
  = match s !! k with Some m => if moves m then None else Some m | None => None end ∧
  (Store.move_where moves s d).2 !! k
  = match s !! k with Some m => if moves m then Some m else d !! k | None => d !! k end.
Proof.
  unfold Store.move_where.
  destruct (move_fold_lookup moves (map_to_list s).*1 k s d) as [-> ->].
  destruct (s !! k) as [m|] eqn:Hk; [|done].
  rewrite bool_decide_eq_true_2; [done|].
  apply list_elem_of_fmap. exists (k, m). split; [done|]. by apply elem_of_map_to_list.
Qed.

Lemma configure_index_lookup (server_list : gset string) (i : State.Index) (k : string) :
  State.media (Store.configure_index server_list i) !! k
  = match (match State.media i !! k with
           | Some m => if bool_decide (MediaData.server_id m ∉ server_list)
                       then Some m else State.disabled_media i !! k
           | None => State.disabled_media i !! k
           end) with
    | Some m => if bool_decide (MediaData.server_id m ∈ server_list) then Some m
                else match State.media i !! k with
                     | Some m0 => if bool_decide (MediaData.server_id m0 ∉ server_list)
                                  then None else Some m0
                     | None => None
                     end
    | None => match State.media i !! k with
              | Some m => if bool_decide (MediaData.server_id m ∉ server_list)
                          then None else Some m
              | None => None
              end
    end ∧
  State.disabled_media (Store.configure_index server_list i) !! k
  = match (match State.media i !! k with
           | Some m => if bool_decide (MediaData.server_id m ∉ server_list)
                       then Some m else State.disabled_media i !! k
           | None => State.disabled_media i !! k
           end) with
    | Some m => if bool_decide (MediaData.server_id m ∈ server_list) then None
                else Some m
    | None => None
    end ∧
  State.version (Store.configure_index server_list i) = State.version i.
Proof.
  unfold Store.configure_index.
  pose proof (move_where_lookup (λ m, bool_decide (MediaData.server_id m ∉ server_list))
                (State.media i) (State.disabled_media i) k) as [H1 H2].
  destruct (Store.move_where _ (State.media i) (State.disabled_media i)) as [media1 dis1].
  pose proof (move_where_lookup (λ m, bool_decide (MediaData.server_id m ∈ server_list))
                dis1 media1 k) as [H3 H4].
  destruct (Store.move_where _ dis1 media1) as [dis2 media2].
  cbn [fst snd State.media State.disabled_media State.version] in *.
  by rewrite H4, H3, H2, H1.
Qed.

(** X10. [configure_media(server_list)] on a store that has not been
    loaded raises [AttributeError].  On a loaded store it returns, and
    afterwards every enabled media belongs to a provider of the list and
    every disabled media to a provider outside it; when no key is both
    enabled and disabled beforehand, no media is lost: the enabled media are
    exactly the media of the index whose provider is listed and the disabled
    ones the rest.  The version is kept, and a second call with the same
    list changes nothing. *)
Theorem configure_media_partitions {Cookies : Type} (st : @State.t Cookies)
    (server_list : gset string) :
  match State.all_media st with
  | None => Store.configure_media st server_list = (st, Raise AttributeError)
  | Some i =>
      ∃ i', Store.configure_media st server_list
            = (State.with_all_media (Some i') st, Ok tt) ∧
        (∀ k m, State.media i' !! k = Some m → MediaData.server_id m ∈ server_list) ∧
        (∀ k m, State.disabled_media i' !! k = Some m →
                MediaData.server_id m ∉ server_list) ∧
        (dom (State.media i) ## dom (State.disabled_media i) →
         State.media i'
         = filter (λ km, MediaData.server_id km.2 ∈ server_list)
                  (State.media i ∪ State.disabled_media i) ∧
         State.disabled_media i'
         = filter (λ km, MediaData.server_id km.2 ∉ server_list)
                  (State.media i ∪ State.disabled_media i)) ∧
        State.version i' = State.version i ∧
        Store.configure_media (State.with_all_media (Some i') st) server_list
        = (State.with_all_media (Some i') st, Ok tt)
  end.
Proof.
  unfold Store.configure_media. destruct (State.all_media st) as [i|] eqn:Hi; [|done].
  exists (Store.configure_index server_list i). split; [done|].
  assert (∀ k m, State.media (Store.configure_index server_list i) !! k = Some m →
                 MediaData.server_id m ∈ server_list) as Hen.
  { intros k m. destruct (configure_index_lookup server_list i k) as (-> & _ & _).
    destruct (State.media i !! k) as [m0|];
      repeat (case_bool_decide || case_match); by intros [= <-]. }
  assert (∀ k m, State.disabled_media (Store.configure_index server_list i) !! k = Some m →
                 MediaData.server_id m ∉ server_list) as Hdis.
  { intros k m. destruct (configure_index_lookup server_list i k) as (_ & -> & _).
    destruct (State.media i !! k) as [m0|];
      repeat (case_bool_decide || case_match); by intros [= <-]. }
  split_and!; [done|done| | |].
  - intros Hdisj. split.
    + apply map_eq. intros k. apply option_eq. intros m.
      rewrite map_lookup_filter_Some, lookup_union_Some_raw. cbn [snd].
      destruct (configure_index_lookup server_list i k) as (-> & _ & _).
      assert (State.media i !! k = None ∨ State.disabled_media i !! k = None) as Hor.
      { destruct (State.media i !! k) eqn:H1; [|by left].
        destruct (State.disabled_media i !! k) eqn:H2; [|by right].
        exfalso. apply (Hdisj k); apply elem_of_dom; by eexists. }
      destruct (State.media i !! k) as [m0|], (State.disabled_media i !! k) as [m1|];
        repeat case_bool_decide; intuition congruence.
    + apply map_eq. intros k. apply option_eq. intros m.
      rewrite map_lookup_filter_Some, lookup_union_Some_raw. cbn [snd].
      destruct (configure_index_lookup server_list i k) as (_ & -> & _).
      assert (State.media i !! k = None ∨ State.disabled_media i !! k = None) as Hor.
      { destruct (State.media i !! k) eqn:H1; [|by left].
        destruct (State.disabled_media i !! k) eqn:H2; [|by right].
        exfalso. apply (Hdisj k); apply elem_of_dom; by eexists. }
      destruct (State.media i !! k) as [m0|], (State.disabled_media i !! k) as [m1|];
        repeat case_bool_decide; intuition congruence.
  - by destruct (configure_index_lookup server_list i "") as (_ & _ & ->).
  - cbn [State.all_media State.with_all_media].
    set (i' := Store.configure_index server_list i) in *.
    assert (Store.configure_index server_list i' = i') as ->; [|done].
    destruct (Store.configure_index server_list i') as [v2 md2 dis2] eqn:Hi2.
    destruct i' as [v1 md1 dis1] eqn:Hi1.
    assert (v2 = v1 ∧ md2 = md1 ∧ dis2 = dis1) as (-> & -> & ->); [|done].
    split_and!.
    + destruct (configure_index_lookup server_list (State.mkIndex v1 md1 dis1) "")
        as (_ & _ & Hv). by rewrite Hi2 in Hv.
    + apply map_eq. intros k.
      destruct (configure_index_lookup server_list (State.mkIndex v1 md1 dis1) k)
        as (Hl & _ & _). rewrite Hi2 in Hl. cbn [State.media State.disabled_media] in *.
      rewrite Hl. specialize (Hen k). specialize (Hdis k).
      destruct (md1 !! k) as [m0|], (dis1 !! k) as [m1|];
        repeat case_bool_decide; naive_solver.
    + apply map_eq. intros k.
      destruct (configure_index_lookup server_list (State.mkIndex v1 md1 dis1) k)
        as (_ & Hl & _). rewrite Hi2 in Hl. cbn [State.media State.disabled_media] in *.
      rewrite Hl. specialize (Hen k). specialize (Hdis k).
      destruct (md1 !! k) as [m0|], (dis1 !! k) as [m1|];
        repeat case_bool_decide; naive_solver.
Qed.

Lemma set_read_true_twice (c : ChapterData.t) :
  ChapterData.set_read true (ChapterData.set_read true c) = ChapterData.set_read true c.
Proof. by destruct c. Qed.

(** The loop of [mark_bundle_as_read]: it runs to its end exactly when
    every entry names a chapter of the catalog.  It stops at the first
    entry that does not, and has marked the chapters of the entries before
    it and nothing else. *)
Lemma mark_bundled_spec (bundled_data : list (string * string)) :
  ∀ media : gmap string MediaData.t,
  let out := Store.mark_bundled bundled_data media in
  (out.2 = Ok tt ∨ out.2 = Raise KeyError) ∧
  (out.2 = Ok tt ↔
   ∀ mc, mc ∈ bundled_data →
         ∃ m, media !! mc.1 = Some m ∧ is_Some (MediaData.chapters m !! mc.2)) ∧
  ∃ marked rest, bundled_data = marked ++ rest ∧
    (∀ mc, mc ∈ marked →
           ∃ m, media !! mc.1 = Some m ∧ is_Some (MediaData.chapters m !! mc.2)) ∧
    match rest with
    | [] => out.2 = Ok tt
    | mc :: _ =>
        out.2 = Raise KeyError ∧
        ¬ ∃ m, media !! mc.1 = Some m ∧ is_Some (MediaData.chapters m !! mc.2)
    end ∧
    ∀ k, match media !! k with
         | None => out.1 !! k = None
         | Some m =>
             ∃ m', out.1 !! k = Some m' ∧
                   MediaData.dict_part m' = MediaData.dict_part m ∧
                   ∀ cid, MediaData.chapters m' !! cid
                          = (λ c, if bool_decide ((k, cid) ∈ marked)
                                  then ChapterData.set_read true c else c)
                              <$> MediaData.chapters m !! cid
         end.
Proof.
  induction bundled_data as [|[mid cid] rest IH]; intros media out; subst out.
  - simpl. split_and!; [by left| |].
    + split; [by intros _ mc ?%elem_of_nil|done].
    + exists [], []. split_and!; [done|by intros mc ?%elem_of_nil|done|]. intros k.
      destruct (media !! k) as [m|]; [|done]. exists m. split_and!; [done..|].
      intros cid. destruct (MediaData.chapters m !! cid); [|done].
      cbn [fmap option_fmap option_map].
      case_bool_decide as Hin; [by apply elem_of_nil in Hin|done].
  - assert (∀ media' : gmap string MediaData.t,
              (media', Raise KeyError : result unit).2 = Ok tt → False) as Hno by done.
    assert (∀ k, match media !! k with
                 | None => media !! k = None
                 | Some m =>
                     ∃ m', media !! k = Some m' ∧
                       MediaData.dict_part m' = MediaData.dict_part m ∧
                       ∀ cid0, MediaData.chapters m' !! cid0
                              = (λ c, if bool_decide ((k, cid0) ∈ @nil (string * string))
                                      then ChapterData.set_read true c else c)
                                  <$> MediaData.chapters m !! cid0
                 end) as Hid.
    { intros k. destruct (media !! k) as [m|] eqn:Hk; [|done].
      exists m. split_and!; [done..|]. intros cid0.
      destruct (MediaData.chapters m !! cid0); [|done].
      cbn [fmap option_fmap option_map].
      case_bool_decide as Hin; [by apply elem_of_nil in Hin|done]. }
    cbn [Store.mark_bundled].
    destruct (media !! mid) as [m|] eqn:Hmid.
    2:{ cbn [fst snd]. split_and!; [by right| |].
        - split; [by intros [=]|]. intros Hall.
          destruct (Hall (mid, cid) ltac:(left)) as (m & Hm & _). simpl in Hm. congruence.
        - exists [], ((mid, cid) :: rest).
          split_and!; [done|by intros mc ?%elem_of_nil|done| |exact Hid].
          intros (m & Hm & _). simpl in Hm. congruence. }
    unfold MediaData.getitem_chapters.
    destruct (MediaData.chapters m !! cid) as [c|] eqn:Hcid.
    2:{ cbn [fst snd]. split_and!; [by right| |].
        - split; [by intros [=]|]. intros Hall.
          destruct (Hall (mid, cid) ltac:(left)) as (m0 & Hm & [c Hc]). simpl in *.
          congruence.
        - exists [], ((mid, cid) :: rest).
          split_and!; [done|by intros mc ?%elem_of_nil|done| |exact Hid].
          intros (m0 & Hm & [c Hc]). simpl in *. congruence. }
    set (m1 := MediaData.with_chapters
                 (<[cid := ChapterData.set_read true c]> (MediaData.chapters m)) m).
    destruct (IH (<[mid := m1]> media))
      as (Hres & Hiff & marked & rest' & Hsplit & Hmarked & Hrest & Hl).
    assert (∀ mc : string * string,
              (∃ m0, <[mid := m1]> media !! mc.1 = Some m0 ∧
                     is_Some (MediaData.chapters m0 !! mc.2)) ↔
              (∃ m0, media !! mc.1 = Some m0 ∧
                     is_Some (MediaData.chapters m0 !! mc.2))) as Hsame.
    { intros [a b]. cbn [fst snd]. destruct (decide (a = mid)) as [->|Hne].
      - rewrite lookup_insert_eq, Hmid. split.
        + intros (m0 & [= <-] & Hb). exists m. split; [done|].
          subst m1. simpl in Hb.
          destruct (decide (b = cid)) as [->|Hb']; [by eexists|].
          by rewrite lookup_insert_ne in Hb.
        + intros (m0 & [= <-] & Hb). exists m1. split; [done|].
          subst m1. simpl.
          destruct (decide (b = cid)) as [->|Hb']; [rewrite lookup_insert_eq; by eexists|].
          by rewrite lookup_insert_ne.
      - by rewrite lookup_insert_ne. }
    split_and!; [done| |].
    + rewrite Hiff. split.
      * intros Hall mc [->|Hin]%elem_of_cons.
        -- exists m. cbn [fst snd]. split; [done|by eexists].
        -- apply Hsame. by apply Hall.
      * intros Hall mc Hin. apply Hsame. apply Hall. by right.
    + exists ((mid, cid) :: marked), rest'. split_and!; [by rewrite Hsplit| | |].
      { intros mc [->|Hin]%elem_of_cons.
        - exists m. cbn [fst snd]. split; [done|by eexists].
        - apply Hsame. by apply Hmarked. }
      { destruct rest' as [|mc rest']; [done|]. destruct Hrest as [Hraise Hnot].
        split; [done|]. intros Hmc. apply Hnot. by apply Hsame. }
      intros k. specialize (Hl k). destruct (decide (k = mid)) as [->|Hne].
      * rewrite lookup_insert_eq in Hl. rewrite Hmid.
        destruct Hl as (m' & Hm' & Hdict & Hch). exists m'. split_and!; [done|by rewrite Hdict|].
        intros cid0. rewrite Hch. subst m1. simpl.
        destruct (decide (cid0 = cid)) as [->|Hc0].
        -- rewrite lookup_insert_eq, Hcid. simpl.
           rewrite (bool_decide_eq_true_2 (_ ∈ (mid, cid) :: marked)) by left.
           destruct (bool_decide _); [apply f_equal, set_read_true_twice|done].
        -- rewrite lookup_insert_ne by done.
           destruct (MediaData.chapters m !! cid0); [|done]. simpl. f_equal.
           rewrite (bool_decide_ext ((mid, cid0) ∈ (mid, cid) :: marked)
                                    ((mid, cid0) ∈ marked)); [done|].
           rewrite elem_of_cons. split; [intros [[=]|?]; done|by right].
      * rewrite lookup_insert_ne in Hl by done.
        destruct (media !! k) as [m0|]; [|done].
        destruct Hl as (m' & Hm' & Hdict & Hch). exists m'. split_and!; [done..|].
        intros cid0. rewrite Hch. destruct (MediaData.chapters m0 !! cid0); [|done].
        simpl. f_equal.
        rewrite (bool_decide_ext ((k, cid0) ∈ (mid, cid) :: marked)
                                 ((k, cid0) ∈ marked)); [done|].
        rewrite elem_of_cons. split; [intros [[=]|?]; done|by right].
Qed.

(** X11. [mark_bundle_as_read(bundle_name)] raises [KeyError], without
    touching anything, for a bundle that does not exist.  For an existing
    bundle it returns exactly when every entry of the bundle names a chapter
    of a media of the catalog, and raises [KeyError] otherwise.  The bundle
    splits into the entries that were marked and the rest: every marked
    entry names a chapter; the rest is empty when the call returns, and
    otherwise starts with the first entry that names no chapter, at which
    the call raised.  The chapters of the marked entries are read, and no
    other flag, chapter or field of a media has changed. *)
Theorem mark_bundle_as_read_marks {Cookies : Type} (st : @State.t Cookies)
    (bundle_name : string) :
  match State.bundles st !! bundle_name with
  | None => Store.mark_bundle_as_read st bundle_name = (st, Raise KeyError)
  | Some bundled_data =>
      let out := Store.mark_bundle_as_read st bundle_name in
      (out.2 = Ok tt ∨ out.2 = Raise KeyError) ∧
      (out.2 = Ok tt ↔
       ∀ mc, mc ∈ bundled_data →
             ∃ m, State.the_media st !! mc.1 = Some m ∧
                  is_Some (MediaData.chapters m !! mc.2)) ∧
      State.bundles out.1 = State.bundles st ∧
      ∃ marked rest, bundled_data = marked ++ rest ∧
        (∀ mc, mc ∈ marked →
               ∃ m, State.the_media st !! mc.1 = Some m ∧
                    is_Some (MediaData.chapters m !! mc.2)) ∧
        match rest with
        | [] => out.2 = Ok tt
        | mc :: _ =>
            out.2 = Raise KeyError ∧
            ¬ ∃ m, State.the_media st !! mc.1 = Some m ∧
                   is_Some (MediaData.chapters m !! mc.2)
        end ∧
        ∀ k, match State.the_media st !! k with
             | None => State.the_media out.1 !! k = None
             | Some m =>
                 ∃ m', State.the_media out.1 !! k = Some m' ∧
                       MediaData.dict_part m' = MediaData.dict_part m ∧
                       ∀ cid, MediaData.chapters m' !! cid
                              = (λ c, if bool_decide ((k, cid) ∈ marked)
                                      then ChapterData.set_read true c else c)
                                  <$> MediaData.chapters m !! cid
             end
  end.
Proof.
  unfold Store.mark_bundle_as_read.
  destruct (State.bundles st !! bundle_name) as [bundled_data|]; [|done].
  pose proof (mark_bundled_spec bundled_data (State.the_media st)) as Hspec.
  destruct (Store.mark_bundled bundled_data (State.the_media st)) as [media res] eqn:Hout.
  cbn [fst snd] in *.
  destruct Hspec as (Hres & Hiff & marked & rest & Hsplit & Hmarked & Hrest & Hl).
  split_and!; [done|done| |].
  - by destruct (State.all_media st).
  - exists marked, rest. split_and!; [done..|]. intros k. specialize (Hl k).
    destruct (State.all_media st) as [i|] eqn:Hi.
    + assert (State.the_media
                (State.with_all_media
                   (Some (State.mkIndex (State.version i) media (State.disabled_media i)))
                   st) = media) as -> by done.
      exact Hl.
    + assert (State.the_media st = ∅) as Hempty
        by (unfold State.the_media; by rewrite Hi).
      rewrite Hempty. by rewrite lookup_empty.
Qed.

(* ================================================================== *)
(** * Adding and removing, and reconciling what is up to date          *)
(* ================================================================== *)

(** X12. [remove_media(media_data)] looks at nothing but the global id of
    its argument: it raises [KeyError], leaving the reader as it was, when
    no media is stored under that id, and otherwise removes that entry and
    only that one.  Removing a media that [add_media] has just added, when
    its global id was free, gives back the catalog as it was, whatever the
    reconciliation of [add_media] did to the object or raised. *)
Theorem remove_media_undoes_add_media (r : MediaReader.t) (m : MediaData.t)
    (no_update : bool) :
  (MediaData.global_id m ∉ dom (MediaReader.media r) →
     MediaReader.remove_media m r = (r, Raise KeyError)) ∧
  (MediaData.global_id m ∈ dom (MediaReader.media r) →
     (MediaReader.remove_media m r).2 = Ok tt ∧
     MediaReader.media (MediaReader.remove_media m r).1
     = delete (MediaData.global_id m) (MediaReader.media r)) ∧
  (MediaData.global_id m ∉ dom (MediaReader.media r) →
     let r1 := (MediaReader.add_media m no_update r).1 in
     (MediaReader.remove_media m r1).2 = Ok tt ∧
     MediaReader.media (MediaReader.remove_media m r1).1 = MediaReader.media r ∧
     (MediaReader.remove_media m (MediaReader.remove_media m r1).1).2 = Raise KeyError).
Proof.
  assert (∀ r0, MediaData.global_id m ∈ dom (MediaReader.media r0) →
            (MediaReader.remove_media m r0).2 = Ok tt ∧
            MediaReader.media (MediaReader.remove_media m r0).1
            = delete (MediaData.global_id m) (MediaReader.media r0)) as Hrem.
  { intros r0 Hin. unfold MediaReader.remove_media. unfold_M.
    by rewrite bool_decide_eq_true_2. }
  assert (∀ r0, MediaData.global_id m ∉ dom (MediaReader.media r0) →
            MediaReader.remove_media m r0 = (r0, Raise KeyError)) as Hnone.
  { intros r0 Hnin. unfold MediaReader.remove_media. unfold_M.
    by rewrite bool_decide_eq_false_2. }
  split_and!; [apply Hnone | apply Hrem |].
  intros Hnin r1.
  assert (∃ m', MediaReader.media r1 = <[MediaData.global_id m := m']> (MediaReader.media r))
    as [m' Hr1].
  { subst r1. unfold MediaReader.add_media. unfold_M.
    rewrite bool_decide_eq_false_2 by done. destruct no_update; simpl; [by eexists|].
    unfold MediaReader.update_media_at. simpl. rewrite lookup_insert_eq. simpl.
    eexists. by rewrite insert_insert_eq. }
  destruct (Hrem r1) as [Hok Hmed].
  { rewrite Hr1. apply elem_of_dom. rewrite lookup_insert_eq. by eexists. }
  assert (MediaReader.media (MediaReader.remove_media m r1).1 = MediaReader.media r) as Hback.
  { rewrite Hmed, Hr1, delete_insert_id; [done|]. by apply not_elem_of_dom. }
  split_and!; [done..|]. rewrite Hnone; [done|]. by rewrite Hback.
Qed.

(** Restoring the [read] flags of a listing that differs from the
    snapshot in [read] flags only gives back the snapshot. *)
Lemma restore_read_agree (snapshot fresh : Chapters) :
  dom fresh = dom snapshot →
  (∀ k c, snapshot !! k = Some c →
     ∃ c', fresh !! k = Some c' ∧ ChapterData.set_read (ChapterData.read c) c' = c) →
  MediaReader.restore_read snapshot fresh = snapshot.
Proof.
  intros Hdom Hagree. apply map_eq. intros k. rewrite restore_read_lookup.
  destruct (snapshot !! k) as [c|] eqn:Hk.
  - destruct (Hagree k c Hk) as (c' & -> & Hc'). simpl. by rewrite Hc'.
  - assert (fresh !! k = None) as ->; [|done].
    apply not_elem_of_dom. rewrite Hdom. by apply not_elem_of_dom.
Qed.

Lemma get_chapter_ids_agree (free_only : bool) (snapshot fresh : Chapters) :
  dom fresh = dom snapshot →
  (∀ k c, snapshot !! k = Some c →
     ∃ c', fresh !! k = Some c' ∧ ChapterData.set_read (ChapterData.read c) c' = c) →
  MediaReader.get_chapter_ids free_only fresh
  = MediaReader.get_chapter_ids free_only snapshot.
Proof.
  intros Hdom Hagree. apply set_eq. intros x. rewrite !elem_of_get_chapter_ids. split.
  - intros (c' & Hc' & Hp).
    assert (is_Some (snapshot !! x)) as [c Hc].
    { apply elem_of_dom. rewrite <- Hdom. apply elem_of_dom. by eexists. }
    destruct (Hagree x c Hc) as (c2 & Hc2 & Heq). exists c. split; [done|].
    assert (c2 = c') as -> by congruence.
    intros Hfree. rewrite <- Heq. simpl. by apply Hp.
  - intros (c & Hc & Hp). destruct (Hagree x c Hc) as (c' & Hc' & Heq).
    exists c'. split; [done|]. intros Hfree. specialize (Hp Hfree).
    rewrite <- Heq in Hp. exact Hp.
Qed.

(** X13. When the provider lists exactly the chapters that are stored,
    [update_media] returns the empty list, hands nothing to
    [download_chapter], and leaves the media as it was.  In additive mode
    this is when the fetch leaves the stored mapping as it is; in replace
    mode, where the mapping is cleared first and the provider writes fresh
    chapters, it is when the fresh chapters have the stored ids and differ
    from the stored chapters in their [read] flags at most: the stored
    flags are restored. *)
Theorem update_media_up_to_date (free_only : bool) (servers : gmap string Server)
    (m : MediaData.t) (download : bool) (mt : option N) (limit page_limit : option nat)
    (replace : bool) (server : Server) (fetched : Chapters)
    (Hs : servers !! MediaData.server_id m = Some server)
    (Hf : update_media_data server
            (if sync_removed server || replace then MediaData.with_chapters ∅ m else m)
          = Fetched fetched)
    (Hsame : if sync_removed server || replace
             then dom fetched = dom (MediaData.chapters m) ∧
                  ∀ k c, MediaData.chapters m !! k = Some c →
                    ∃ c', fetched !! k = Some c' ∧
                          ChapterData.set_read (ChapterData.read c) c' = c
             else fetched = MediaData.chapters m) :
  MediaReader.update_media free_only servers m download mt limit page_limit replace
  = MediaReader.mkUpdate m (Ok []) [].
Proof.
  unfold MediaReader.update_media. rewrite Hs. cbv zeta.
  set (rep := if sync_removed server then true else replace).
  assert (sync_removed server || replace = rep) as Hrep
    by (unfold rep; by destruct (sync_removed server)).
  rewrite Hrep in Hf, Hsame. rewrite Hf.
  assert (MediaReader.get_chapter_ids free_only
            (MediaData.getitem_chapters
               (MediaData.with_chapters fetched
                  (if rep then MediaData.with_chapters ∅ m else m)))
          = MediaReader.get_chapter_ids free_only (MediaData.getitem_chapters m)) as ->.
  { destruct rep; [|by rewrite Hsame].
    destruct Hsame as [Hdom Hagree]. by apply get_chapter_ids_agree. }
  assert ((if rep
           then MediaData.with_chapters
                  (MediaReader.restore_read (MediaData.getitem_chapters m)
                     (MediaData.getitem_chapters
                        (MediaData.with_chapters fetched
                           (if rep then MediaData.with_chapters ∅ m else m))))
                  (MediaData.with_chapters fetched
                     (if rep then MediaData.with_chapters ∅ m else m))
           else MediaData.with_chapters fetched
                  (if rep then MediaData.with_chapters ∅ m else m)) = m) as ->.
  { destruct rep.
    - destruct Hsame as [Hdom Hagree].
      unfold MediaData.getitem_chapters. cbn [MediaData.chapters MediaData.with_chapters].
      rewrite (restore_read_agree _ _ Hdom Hagree). by destruct m.
    - rewrite Hsame. by destruct m. }
  rewrite difference_diag_L, elements_empty.
  cbn [MediaReader.lookup_all sorted length]. rewrite size_empty.
  rewrite bool_decide_eq_true_2 by done.
  destruct (download && _); [|done].
  by destruct limit as [[|?]|].
Qed.

(** A media whose chapter 1 is read, reconciled in replace mode, with
    download, against a provider that lists its two chapters, unread. *)
Lemma update_media_up_to_date_witness :
  MediaReader.update_media false {[ "server" := Samples.server_1_2 ]}
    Samples.item_1_2_read_1 true None None None true
  = MediaReader.mkUpdate Samples.item_1_2_read_1 (Ok []) [].
Proof.
  apply (update_media_up_to_date false {[ "server" := Samples.server_1_2 ]}
           Samples.item_1_2_read_1 true None None None true Samples.server_1_2
           Samples.listing_1_2); [reflexivity | reflexivity |].
  split; [reflexivity|].
  intros k c Hk.
  change (({[ "1" := Samples.chapter "1" 1 true false;
              "2" := Samples.chapter "2" 2 false false ]} : Chapters) !! k = Some c) in Hk.
  apply lookup_insert_Some in Hk as [[<- <-]|[_ Hk]].
  - exists (Samples.chapter "1" 1 false false). split; reflexivity.
  - apply lookup_singleton_Some in Hk as [<- <-].
    exists (Samples.chapter "2" 2 false false). split; reflexivity.
Defined.

(* ================================================================== *)
(** * Persistence: what a write records and what a load establishes    *)
(* ================================================================== *)

Section StoreFacts.

Context (hash : string → Z).
Context `{!State.Json State.Bundles, !State.Json State.IndexDoc, !State.Json Chapters}.
Context {Cookies : Type}.

Implicit Types st : @State.t Cookies.

(** X14. [save_to_file] returns [True] exactly when the hash of the
    payload differs from the one recorded for the file and the file can be
    opened; the file then holds the serialized payload.  Otherwise nothing
    is written.  In every case the hash of the payload is recorded for the
    file afterwards, also when the file could not be opened, so that in any
    later state with the same recorded hashes the same payload is not
    written again. *)
Theorem save_to_file_records_hash {A} `{!State.JsonView A, !State.Json A} st
    (file_name : string) (json_dict : A) :
  let out := State.save_to_file hash st file_name json_dict in
  let json_str := State.dumps (State.as_dict json_dict) in
  (out.2 = true ↔
   default 0%Z (State.hashes st !! file_name) ≠ hash json_str ∧
   file_name ∉ State.no_dir (State.disk st)) ∧
  (out.2 = true →
   State.files (State.disk out.1) !! file_name = Some json_str ∧
   State.writes out.1 = State.writes st ++ [file_name]) ∧
  (out.2 = false →
   State.disk out.1 = State.disk st ∧ State.writes out.1 = State.writes st) ∧
  default 0%Z (State.hashes out.1 !! file_name) = hash json_str ∧
  (∀ st', State.hashes st' = State.hashes out.1 →
          State.save_to_file hash st' file_name json_dict = (st', false)).
Proof.
  cbv zeta. unfold State.save_to_file, State.get_hash, State.write_if_changed,
    State.write_file.
  set (json_str := State.dumps (State.as_dict json_dict)).
  assert (∀ st0, default 0%Z (State.hashes st0 !! file_name) = hash json_str →
            (if bool_decide (default 0%Z (State.hashes st0 !! file_name) = hash json_str)
             then (st0, false)
             else match (if bool_decide
                              (file_name ∈ State.no_dir
                                 (State.disk (State.with_hash file_name (hash json_str) st0)))
                         then None
                         else Some
                                (State.mk (State.settings (State.with_hash file_name (hash json_str) st0))
                                   (State.cookies (State.with_hash file_name (hash json_str) st0))
                                   (State.bundles (State.with_hash file_name (hash json_str) st0))
                                   (State.all_media (State.with_hash file_name (hash json_str) st0))
                                   (State.hashes (State.with_hash file_name (hash json_str) st0))
                                   (State.cookie_hash (State.with_hash file_name (hash json_str) st0))
                                   (State.mkDisk
                                      (<[file_name := json_str]>
                                         (State.files (State.disk (State.with_hash file_name (hash json_str) st0))))
                                      (State.no_dir (State.disk (State.with_hash file_name (hash json_str) st0))))
                                   (State.writes (State.with_hash file_name (hash json_str) st0) ++ [file_name])))
                  with
                  | Some st' => (st', true)
                  | None => (State.with_hash file_name (hash json_str) st0, false)
                  end) = (st0, false)) as Hskip.
  { intros st0 Heq. by rewrite bool_decide_eq_true_2. }
  destruct (bool_decide (default 0%Z (State.hashes st !! file_name) = hash json_str))
    eqn:Hh.
  - apply bool_decide_eq_true in Hh. cbn [fst snd]. split_and!; try done.
    + split; [done|]. by intros [? _].
    + intros st' Hst'. apply Hskip. by rewrite Hst'.
  - apply bool_decide_eq_false in Hh. cbn [State.disk State.with_hash State.no_dir].
    destruct (bool_decide (file_name ∈ State.no_dir (State.disk st))) eqn:Hdir.
    + apply bool_decide_eq_true in Hdir. cbn [fst snd State.with_hash State.hashes
        State.disk State.writes].
      rewrite lookup_insert_eq. split_and!; try done.
      * split; [done|]. by intros [_ ?].
      * intros st' Hst'. apply Hskip. rewrite Hst'. by rewrite lookup_insert_eq.
    + apply bool_decide_eq_false in Hdir. cbn [fst snd State.with_hash State.hashes
        State.disk State.writes State.files].
      rewrite !lookup_insert_eq. split_and!; try done.
      intros st' Hst'. apply Hskip. rewrite Hst'. by rewrite lookup_insert_eq.
Qed.






End StoreFacts.


(* ================================================================== *)
(** * Pushing progress twice                                           *)
(* ================================================================== *)

(** [int(x)] does not exceed a number that is not negative. *)
Lemma py_int_le (x : Qc) : (0 ≤ x)%Qc → (of_Z (py_int x) ≤ x)%Qc.
Proof.
  intros Hx. change (Qred (inject_Z (py_int x)) <= this x)%Q.
  change (this 0%Qc <= this x)%Q in Hx.
  rewrite Qred_correct. unfold py_int.
  destruct x as [[n d] Hc]. cbn [this Qnum Qden] in *. unfold Qle in *.
  cbn [Qnum Qden inject_Z] in *.
  change (Qnum (this 0%Qc)) with 0%Z in Hx.
  pose proof (Z.mul_quot_le n (Z.pos d) ltac:(lia) ltac:(done)). lia.
Qed.

Lemma pushed_not_due (tracker_id : string) (force : bool) (media_type : option N)
    (m : MediaData.t) :
  (0 ≤ last_read_number m)%Qc →
  push_due tracker_id false media_type (pushed tracker_id force media_type m) = false.
Proof.
  intros Hnn. unfold pushed.
  destruct (push_due tracker_id force media_type m) eqn:Hdue.
  - unfold push_due.
    assert (last_read_number (MediaData.set_progress (last_read_number m) m)
            = last_read_number m) as -> by done.
    cbn [MediaData.progress MediaData.set_progress orb].
    rewrite (bool_decide_eq_false_2 (_ < _)%Qc); [by rewrite andb_false_r|].
    apply Qcle_not_lt. by apply py_int_le.
  - unfold push_due in *. destruct force; [|done].
    rewrite orb_true_l, andb_true_r in Hdue. by rewrite Hdue.
Qed.

(** X16. When no media has a negative last read number, a call of
    [sync_progress] without [force] that follows a call of [sync_progress]
    (forced or not, dry or not, whether or not the tracker could be reached)
    on the same media type stages nothing: it returns [False], does not
    call the tracker, and leaves the reader as it is. *)
Theorem sync_progress_again_stages_nothing (force : bool) (media_type : option N)
    (dry_run dry_run' : bool) (r : MediaReader.t)
    (Hnonneg : ∀ k m, MediaReader.media r !! k = Some m → (0 ≤ last_read_number m)%Qc) :
  let r1 := (MediaReader.sync_progress force media_type dry_run r).1 in
  MediaReader.sync_progress false media_type dry_run' r1 = (r1, Ok false).
Proof.
  intros r1. subst r1. rewrite (sync_progress_closed force). cbn [fst].
  set (t := trk_id (MediaReader.primary_tracker r)).
  set (md1 := pushed t force media_type <$> MediaReader.media r).
  rewrite (sync_progress_closed false).
  assert (MediaReader.primary_tracker (MediaReader.with_media md1 r)
          = MediaReader.primary_tracker r) as -> by done.
  fold t. rewrite media_with_media.
  assert (∀ k m1, md1 !! k = Some m1 → push_due t false media_type m1 = false) as Hnot.
  { intros k m1 Hk. subst md1. rewrite lookup_fmap in Hk.
    destruct (MediaReader.media r !! k) as [m|] eqn:Hm; [|done]. injection Hk as <-.
    apply pushed_not_due. by apply (Hnonneg k). }
  assert (pushed t false media_type <$> md1 = md1) as ->.
  { apply map_eq. intros k. rewrite lookup_fmap.
    destruct (md1 !! k) as [m1|] eqn:Hk; [|done]. simpl. f_equal.
    unfold pushed. by rewrite (Hnot k m1 Hk). }
  assert (omap (staged_update t false media_type) (values md1) = []) as ->.
  { assert (∀ m1, m1 ∈ values md1 → push_due t false media_type m1 = false) as Hv.
    { intros m1 [k Hk]%elem_of_values. by apply (Hnot k). }
    induction (values md1) as [|m1 l IH]; [done|].
    cbn [omap list_omap]. unfold staged_update at 1.
    rewrite (Hv m1) by left. apply IH. intros m2 Hin. apply Hv. by right. }
  rewrite (bool_decide_eq_false_2 (_ ≠ _)) by (intros Hne; by apply Hne).
  cbn [andb]. by rewrite with_media_twice.
Qed.

(** A second call after one that could not reach the tracker. *)
Lemma sync_progress_again_stages_nothing_witness :
  let r1 := (MediaReader.sync_progress false None false Samples.unreachable_reader).1 in
  MediaReader.sync_progress false None false r1 = (r1, Ok false).
Proof.
  apply (sync_progress_again_stages_nothing false None false false
           Samples.unreachable_reader).
  intros k m Hk.
  change (({[ "old:a" := Samples.linked_alpha ]} : gmap string MediaData.t) !! k = Some m)
    in Hk.
  apply lookup_singleton_Some in Hk as [_ <-]. by vm_compute.
Defined.

(* ================================================================== *)
(** * Migrating a single media                                         *)
(* ================================================================== *)

Lemma migrate_step_last_read (exact move_self force_same_id : bool)
    (vars vars' : MediaReader.MigrateVars) (old : MediaData.t)
    (r r' : MediaReader.t) :
  MediaReader.migrate_step exact move_self force_same_id vars old r = (r', Ok vars') →
  MediaReader.last_read_list vars'
  = MediaReader.last_read_list vars ++ [last_read_number old].
Proof.
  unfold MediaReader.migrate_step.
  unfold MediaReader.bind at 1.
  destruct (MediaReader.remove_media old r) as [r1 [[]|e]]; [|done].
  unfold MediaReader.bind at 1.
  match goal with |- context [(if move_self then ?a else ?b) r1] =>
    destruct ((if move_self then a else b) r1) as [r2 [new|e]] end; [|done].
  unfold MediaReader.bind at 1.
  destruct (MediaReader.copy_fields_to_ref old new r2) as [r3 [[]|e]]; [|done].
  rewrite get_last_read_total. unfold_M. by intros [= <- <-].
Qed.

(** X17. A migration that selects a single media and runs to its end
    leaves, in place of that media, a replacement stored under its own
    global id that holds the user-owned fields of the media and in which
    every chapter numbered up to the last read number of the media is
    marked read. *)
Theorem migrate_one_carries_position (name : option string)
    (exact move_self force_same_id : bool) (r r' : MediaReader.t)
    (old : MediaData.t)
    (Hone : MediaReader.get_media r None name = [(MediaData.global_id old, old)])
    (Hrun : MediaReader.migrate name exact move_self force_same_id r = (r', Ok tt)) :
  MediaReader.media r !! MediaData.global_id old = Some old ∧
  ∃ g new,
    delete (MediaData.global_id old) (MediaReader.media r) !! g = None ∧
    MediaReader.media r' !! g = Some new ∧
    MediaData.global_id new = g ∧
    MediaData.user_fields new = MediaData.user_fields old ∧
    ∀ cid c, MediaData.chapters new !! cid = Some c →
             (ChapterData.number c ≤ last_read_number old)%Qc →
             ChapterData.read c = true.
Proof.
  split.
  { apply (get_media_keyed r None name). rewrite Hone. left. }
  unfold MediaReader.migrate in Hrun.
  unfold MediaReader.bind at 1 in Hrun. unfold MediaReader.get at 1 in Hrun.
  rewrite Hone in Hrun. cbn [fmap list_fmap snd MediaReader.migrate_loop] in Hrun.
  unfold MediaReader.bind at 1 2 in Hrun.
  destruct (MediaReader.migrate_step exact move_self force_same_id
              (MediaReader.mkVars [] [] None) old r) as [r1 [vars|e]] eqn:Hstep; [|done].
  pose proof (migrate_step_last_read _ _ _ _ _ _ _ _ Hstep) as Hlr.
  apply migrate_step_outcome in Hstep as (g & d & Hfresh & Hmd & Hu & Hg & Hlist & Hnew).
  cbn [MediaReader.media_list MediaReader.last_read_list app] in Hlist, Hlr.
  unfold MediaReader.ret at 1 in Hrun. unfold MediaReader.bind at 1 in Hrun.
  rewrite Hlist, Hlr, Hnew in Hrun.
  pose proof (for_each_update_media_keeps [g] r1) as [Hok Hkeep].
  destruct (MediaReader.for_each_update_media [g] r1) as [r2 res2].
  cbn [fst snd] in Hok, Hkeep. subst res2.
  destruct (Hkeep g d) as (d2 & Hd2 & Hu2 & Hg2);
    [by rewrite Hmd, lookup_insert_eq|].
  cbn [zip zip_with MediaReader.mark_loop] in Hrun.
  unfold MediaReader.bind at 1 in Hrun. unfold MediaReader.modify_media at 1 in Hrun.
  unfold MediaReader.ret in Hrun. injection Hrun as <-.
  exists g, (MediaReader.mark_chapters_until_n_as_read d2 (last_read_number old) false).
  split_and!.
  - done.
  - rewrite media_with_media, lookup_alter_eq, Hd2. done.
  - change (MediaData.global_id d2 = g). congruence.
  - change (MediaData.user_fields d2 = MediaData.user_fields old). congruence.
  - intros cid c. rewrite mark_without_force_lookup.
    destruct (MediaData.chapters d2 !! cid) as [c0|]; [|done]. simpl.
    intros [= <-]. simpl. intros Hle.
    rewrite (bool_decide_eq_true_2 _ Hle). by rewrite orb_true_r.
Qed.

(** ["alpha"], read up to 2, migrated on its own. *)
Lemma migrate_one_carries_position_witness :
  ∃ g new,
    MediaReader.media
      (MediaReader.migrate (Some "alpha") false false false Samples.migrating_reader).1
      !! g = Some new ∧
    MediaData.user_fields new = MediaData.user_fields Samples.alpha ∧
    ∀ cid c, MediaData.chapters new !! cid = Some c →
             (ChapterData.number c ≤ last_read_number Samples.alpha)%Qc →
             ChapterData.read c = true.
Proof.
  destruct (migrate_one_carries_position (Some "alpha") false false false
              Samples.migrating_reader
              (MediaReader.migrate (Some "alpha") false false false
                 Samples.migrating_reader).1
              Samples.alpha)
    as (_ & g & new & _ & Hnew & _ & Hu & Hread).
  - reflexivity.
  - apply injective_projections; [reflexivity | vm_compute; reflexivity].
  - exists g, new. split_and!; [exact Hnew | exact Hu | exact Hread].
Defined.

(* ================================================================== *)
(** * Persistence: the session cookies                                 *)
(* ================================================================== *)

Section CookieFacts.

Context (hash : string → Z).
Context {Cookies : Type}.
Context (cookies_str : Cookies → string).
Context (load_cookies : string → Cookies → Cookies).
Context (cookie_lines : Cookies → string).

Implicit Types st : @State.t Cookies.

(** X18. [save_session_cookies] writes the cookie file exactly when saving
    is enabled and the hash of the cookies differs from the saved one; it
    then returns [True] and the file holds the cookie lines, unless the
    file cannot be opened, in which case [FileNotFoundError] is raised and
    nothing is written.  In both of these cases the new hash has been
    saved, so that the next call returns [False] and writes nothing, also
    after a failure.  A call that follows [load_session_cookies] with
    loading enabled returns [False] and writes nothing. *)
Theorem save_session_cookies_once st :
  let out := State.save_session_cookies hash cookies_str cookie_lines st in
  let file := State.get_cookie_file (State.settings st) in
  let changed :=
    State.no_save_session (State.settings st) = false ∧
    State.cookie_hash st ≠ Some (hash (cookies_str (State.cookies st))) in
  (¬ changed → out = (st, Ok false)) ∧
  (changed → file ∉ State.no_dir (State.disk st) →
     out.2 = Ok true ∧
     State.files (State.disk out.1) !! file = Some (cookie_lines (State.cookies st)) ∧
     State.writes out.1 = State.writes st ++ [file]) ∧
  (changed → file ∈ State.no_dir (State.disk st) →
     out.2 = Raise FileNotFoundError ∧
     State.disk out.1 = State.disk st ∧ State.writes out.1 = State.writes st) ∧
  State.save_session_cookies hash cookies_str cookie_lines out.1 = (out.1, Ok false) ∧
  (State.no_load_session (State.settings st) = false →
   State.save_session_cookies hash cookies_str cookie_lines
     (State.load_session_cookies hash cookies_str load_cookies st)
   = (State.load_session_cookies hash cookies_str load_cookies st, Ok false)).
Proof.
  cbv zeta. split_and!.
  - intros Hnot. apply save_session_cookies_settled. unfold State.cookies_settled.
    destruct (State.no_save_session (State.settings st)) eqn:Hno; [by left|].
    right. destruct (decide (State.cookie_hash st
                             = Some (hash (cookies_str (State.cookies st))))) as [|Hne];
      [done|]. exfalso. by apply Hnot.
  - intros [Hno Hch] Hdir. unfold State.save_session_cookies, State._set_session_hash,
      State.write_file. rewrite Hno.
    rewrite (bool_decide_eq_true_2 (Some _ ≠ _)) by (intros Heq; by apply Hch).
    cbn [State.with_cookie_hash State.settings State.disk State.cookies].
    rewrite (bool_decide_eq_false_2 (_ ∈ _)) by done. cbn [fst snd State.disk State.files
      State.writes]. by rewrite lookup_insert_eq.
  - intros [Hno Hch] Hdir. unfold State.save_session_cookies, State._set_session_hash,
      State.write_file. rewrite Hno.
    rewrite (bool_decide_eq_true_2 (Some _ ≠ _)) by (intros Heq; by apply Hch).
    cbn [State.with_cookie_hash State.settings State.disk State.cookies].
    by rewrite (bool_decide_eq_true_2 (_ ∈ _)) by done.
  - apply save_session_cookies_settled. unfold State.cookies_settled,
      State.save_session_cookies, State._set_session_hash, State.write_file.
    destruct (State.no_save_session (State.settings st)) eqn:Hno; [by left|]. right.
    case_bool_decide as Hch.
    + cbn [State.with_cookie_hash State.settings State.disk State.cookies].
      by case_bool_decide.
    + cbn [fst]. done.
  - intros Hload. apply save_session_cookies_settled. right.
    by apply (load_session_cookies_frame hash cookies_str load_cookies st).
Qed.

End CookieFacts.
